(** * hebot2: the subtitle pipeline of [video_translator_bot_fixed.py]

    A shallow embedding of the processing core of the bot (download with
    retries, per-segment translation, punctuation spacing, SRT time stamps,
    SRT composition, subtitle burn-in and the orchestrator's cleanup), with
    the properties its specification states about them.

    Conventions.
    - A Python [str] is a list of Unicode code points ([N]); [lit] embeds
      an ASCII literal.
    - A Python [float] is an IEEE-754 binary64 value.  A finite one is stored
      as an integer number of units of 2^-1074 (every finite binary64 value
      is such a multiple); [RN] is round-to-nearest-even.
    - External collaborators (Telegram, googletrans, ffmpeg, the file
      system) are oracles: records and functions that say how each call
      ends.  Effects are explicit: a trace of events, or a world state.
    - The world holds the working directory, the files on disk, the trace
      and the records handed to the logger.  The log file is kept apart
      from the other files. *)

From Stdlib Require Import ZArith NArith List String Ascii Bool Lia.
From stdpp Require Import base option list gmap.

Local Open Scope Z_scope.

(* ===================================================================== *)
(** * Part I: definitions                                                 *)
(* ===================================================================== *)

(** ** Python strings *)

Abbreviation pystr := (list N).

Definition lit (s : string) : pystr :=
  List.map N_of_ascii (list_ascii_of_string s).

(** [Py_UNICODE_ISSPACE]: the characters that [str.strip()] removes and that
    [\s] matches in a [str] pattern. *)
Definition isspace (c : N) : bool :=
  (((9 <=? c) && (c <=? 13)) || ((28 <=? c) && (c <=? 32))
   || (c =? 133) || (c =? 160) || (c =? 5760)
   || ((8192 <=? c) && (c <=? 8202))
   || (c =? 8232) || (c =? 8233) || (c =? 8239) || (c =? 8287)
   || (c =? 12288))%N.

Fixpoint lstrip (s : pystr) : pystr :=
  match s with
  | c :: rest => if isspace c then lstrip rest else s
  | [] => []
  end.

Definition rstrip (s : pystr) : pystr := rev (lstrip (rev s)).

(** [text.strip()] *)
Definition strip (s : pystr) : pystr := rstrip (lstrip s).

(** Truth value of a string: [not text] is [negb (truthy text)]. *)
Definition truthy (s : pystr) : bool :=
  match s with [] => false | _ :: _ => true end.

(** Decimal digits of a non-negative integer, most significant first. *)
Fixpoint digits_fuel (fuel : nat) (n : Z) (acc : pystr) : pystr :=
  match fuel with
  | O => acc
  | S fuel' =>
      let acc' := (48 + Z.to_N (n mod 10))%N :: acc in
      if n <? 10 then acc' else digits_fuel fuel' (n / 10) acc'
  end.

Definition digits (n : Z) : pystr :=
  digits_fuel (S (Z.to_nat (Z.log2 n))) n [].

(** [f"{z:0{width}d}"]: sign, then zeros up to [width], then the digits.
    [format_d 0] is [str(z)]. *)
Definition format_d (width : nat) (z : Z) : pystr :=
  let sign := if z <? 0 then lit "-" else [] in
  let ds := digits (Z.abs z) in
  sign ++ repeat 48%N (width - length sign - length ds) ++ ds.

Definition str_of_int (z : Z) : pystr := format_d 0 z.

(** ** Punctuation spacing *)

Definition punctuation_marks : list N :=
  lit ",.!?:;)]}".

Definition followed_by_space (rest : pystr) : bool :=
  match rest with
  | d :: _ => isspace d
  | [] => false
  end.

(** [re.sub(f'\\{mark}(?!\\s)', f'{mark} ', text)]: every occurrence of
    [mark] that is not followed by a whitespace character (the end of the
    string is not one) is replaced by [mark] and a space.  The look-ahead
    reads the subject string, not the replacement. *)
Fixpoint re_sub_mark (mark : N) (text : pystr) : pystr :=
  match text with
  | [] => []
  | c :: rest =>
      if (c =? mark)%N && negb (followed_by_space rest)
      then mark :: 32%N :: re_sub_mark mark rest
      else c :: re_sub_mark mark rest
  end.

Definition add_space_after_punctuation (text : pystr) : pystr :=
  if negb (truthy text) then text
  else fold_left (fun text mark => re_sub_mark mark text) punctuation_marks text.

(** ** Python floats (IEEE-754 binary64) *)

(** One unit is 2^-1074, the smallest positive binary64 value; [U] units
    make 1.0. *)
Definition U : Z := 2 ^ 1074.

(** [Finite n] is the finite float [n * 2^-1074]; [NotFinite] stands for
    [inf], [-inf] and [nan], which the operations below never turn back
    into a finite value and on which [int()] raises.  The two zeros are
    identified. *)
Inductive pyfloat : Type :=
  | Finite (n : Z)
  | NotFinite.

(** The bits dropped when a magnitude of [n] units is stored with a 53-bit
    significand. *)
Definition ulp_exp (n : Z) : Z := Z.max 0 (Z.log2 (Z.abs n) - 52).

(** [n] units is a binary64 value: it fits a 53-bit significand and is in
    range. *)
Definition binary64 (n : Z) : Prop :=
  Z.abs n < 2 ^ 2098 /\ n mod 2 ^ ulp_exp n = 0.

(** Nearest integer to [a / b] for [0 <= a], [0 < b], ties to even. *)
Definition round_half_even (a b : Z) : Z :=
  let q := a / b in
  let r := a mod b in
  if 2 * r <? b then q
  else if b <? 2 * r then q + 1
  else if Z.even q then q else q + 1.

(** [RN a b] ([0 < b]): the binary64 value nearest to the exact quotient
    [a / b], counted in units; ties to even, overflow to infinity. *)
Definition RN (a b : Z) : pyfloat :=
  let s := Z.abs a in
  let p := ulp_exp (s / b) in
  let n := round_half_even s (b * 2 ^ p) * 2 ^ p in
  if 2 ^ 2098 <=? n then NotFinite else Finite (Z.sgn a * n).

(** The float of a small integer literal (exact). *)
Definition flt (z : Z) : pyfloat := Finite (z * U).

Definition float_sub (x y : pyfloat) : pyfloat :=
  match x, y with
  | Finite a, Finite b => RN (a - b) 1
  | _, _ => NotFinite
  end.

Definition float_add (x y : pyfloat) : pyfloat :=
  match x, y with
  | Finite a, Finite b => RN (a + b) 1
  | _, _ => NotFinite
  end.

Definition float_mul (x y : pyfloat) : pyfloat :=
  match x, y with
  | Finite a, Finite b => RN (a * b) U
  | _, _ => NotFinite
  end.

(** [x / y] for a finite, non-zero [y] (the only divisors of this program
    are the literals 3600, 60 and 1). *)
Definition float_div (x y : pyfloat) : pyfloat :=
  match x, y with
  | Finite a, Finite b =>
      if b =? 0 then NotFinite else RN (Z.sgn b * a * U) (Z.abs b)
  | _, _ => NotFinite
  end.

(** C's [fmod]: exact, with the sign of the dividend. *)
Definition fmod (vx wx : Z) : Z := Z.rem vx wx.

(** [x % y], CPython's [float_rem]. *)
Definition float_mod (x y : pyfloat) : pyfloat :=
  match x, y with
  | Finite vx, Finite wx =>
      if wx =? 0 then NotFinite
      else
        let md := fmod vx wx in
        if negb (md =? 0) && negb (eqb (wx <? 0) (md <? 0))
        then float_add (Finite md) (Finite wx)
        else Finite md
  | _, _ => NotFinite
  end.

(** [floor] of a float. *)
Definition float_floor (x : pyfloat) : pyfloat :=
  match x with
  | Finite d => Finite (d / U * U)
  | NotFinite => NotFinite
  end.

(** [x // y], CPython's [float_floor_div] over [_float_div_mod]. *)
Definition float_floordiv (x y : pyfloat) : pyfloat :=
  match x, y with
  | Finite vx, Finite wx =>
      if wx =? 0 then NotFinite
      else
        let md := fmod vx wx in
        let div := float_div (float_sub x (Finite md)) y in
        let div :=
          if negb (md =? 0) && negb (eqb (wx <? 0) (md <? 0))
          then float_sub div (flt 1) else div in
        match div with
        | Finite 0 => Finite 0
        | Finite _ =>
            let floordiv := float_floor div in
            match float_sub div floordiv with
            | Finite e => if U <? 2 * e then float_add floordiv (flt 1)
                          else floordiv
            | NotFinite => NotFinite
            end
        | NotFinite => NotFinite
        end
  | _, _ => NotFinite
  end.

(** [int(x)]: truncation towards zero; [None] when it raises
    ([OverflowError] on an infinity, [ValueError] on a nan). *)
Definition int_of_float (x : pyfloat) : option Z :=
  match x with
  | Finite n => Some (Z.quot n U)
  | NotFinite => None
  end.

(** ** Values handed to [format_srt_time] *)

(** [PyNonNumeric] is any object that [float()] rejects with a [TypeError]
    or a [ValueError]: [None], a list, a string such as ["invalid"]. *)
Inductive pyval : Type :=
  | PyInt (z : Z)
  | PyFloat (x : pyfloat)
  | PyNonNumeric.

(** [float(seconds)]; [None] when it raises ([OverflowError] for an [int]
    too large for a float). *)
Definition py_float (v : pyval) : option pyfloat :=
  match v with
  | PyInt z =>
      match RN (z * U) 1 with
      | Finite n => Some (Finite n)
      | NotFinite => None
      end
  | PyFloat x => Some x
  | PyNonNumeric => None
  end.

(** The float a decimal literal [a / b] denotes (correctly rounded). *)
Definition float_lit (a b : Z) : pyfloat := RN (a * U) b.

(** ** SRT time stamps *)

Definition format_srt_time (seconds : pyval) : pystr :=
  let attempt : option pystr :=
    seconds ← py_float seconds;
    hours ← int_of_float (float_floordiv seconds (flt 3600));
    minutes ← int_of_float
      (float_floordiv (float_mod seconds (flt 3600)) (flt 60));
    let secs := float_mod seconds (flt 60) in
    millisecs ← int_of_float (float_mul (float_mod secs (flt 1)) (flt 1000));
    secs ← int_of_float secs;
    Some (format_d 2 hours ++ lit ":" ++ format_d 2 minutes ++ lit ":"
          ++ format_d 2 secs ++ lit "," ++ format_d 3 millisecs) in
  match attempt with
  | Some s => s
  | None => lit "00:00:00,000"
  end.

(** ** Events *)

(** What a run does to the outside world, in order.  Durations are in
    milliseconds: [time.sleep(1)] is [Sleep 1000]. *)
Inductive event : Type :=
  | Sleep (millis : Z)
  | TranslateCall (attempt : nat)
  | Progress (done total : nat)
  | DownloadAttempt (attempt : nat).

(** ** Segments *)

(** A segment dictionary.  A field is [None] when the key is absent, so
    that [segment.get(key, default)] is [default d (field segment)]. *)
Record seg_dict : Type := Segment {
  seg_start : option pyval;
  seg_end : option pyval;
  seg_text : option pystr
}.

Definition get_start (s : seg_dict) : pyval := default (PyInt 0) (seg_start s).
Definition get_end (s : seg_dict) : pyval := default (PyInt 0) (seg_end s).
Definition get_text (s : seg_dict) : pystr := default [] (seg_text s).

(** ** Translation of one text *)

(** How one call of [translator.translate(text, src='en', dest='iw')] ends:
    a result with a [text] (possibly empty), no usable result, or an
    exception. *)
Inductive tr_outcome : Type :=
  | TrText (text : pystr)
  | TrNone
  | TrRaise.

(** The translation service as seen by one call of [translate_text_safe]:
    whether [Translator()] can be built, and how its [k]-th call ends. *)
Record translator : Type := Translator {
  translator_init : bool;
  translate : nat -> pystr -> tr_outcome
}.

(** The [for attempt in range(max_retries)] loop with [remaining]
    iterations left. *)
Fixpoint translate_loop (tr : translator) (text : pystr)
    (max_retries remaining : nat) : pystr * list event :=
  match remaining with
  | O => (text, [])
  | S remaining' =>
      let attempt := (max_retries - remaining)%nat in
      let next := translate_loop tr text max_retries remaining' in
      match translate tr attempt (strip text) with
      | TrText result_text =>
          if truthy result_text then (result_text, [TranslateCall attempt])
          else (next.1, TranslateCall attempt :: next.2)
      | TrNone => (next.1, TranslateCall attempt :: next.2)
      | TrRaise =>
          if (attempt <? max_retries - 1)%nat
          then (next.1, TranslateCall attempt :: Sleep 1000 :: next.2)
          else (next.1, TranslateCall attempt :: next.2)
      end
  end.

(** [translate_text_safe(text, max_retries=3)]; the result is [None] when
    the exception of [Translator()] escapes. *)
Definition translate_text_safe (tr : translator) (text : pystr)
    (max_retries : nat) : option pystr * list event :=
  if negb (truthy text) || negb (truthy (strip text)) then (Some text, [])
  else if translator_init tr
       then let r := translate_loop tr text max_retries max_retries in
            (Some r.1, r.2)
       else (None, []).

(** ** Translation of all segments *)

(** One iteration of the loop of [process_segments_safe] on segment [i] of
    [total_segments]: the segments appended and the events. *)
Definition process_segment (tr : translator) (total_segments i : nat)
    (segment : seg_dict) : list seg_dict * list event :=
  let status :=
    if (i mod 5 =? 0)%nat || (i =? total_segments - 1)%nat
    then [Progress (i + 1) total_segments] else [] in
  let original_text := strip (get_text segment) in
  if negb (truthy original_text) then ([], status)
  else
    match translate_text_safe tr original_text 3 with
    | (Some translated_text, ev) =>
        let translated_text := add_space_after_punctuation translated_text in
        ([Segment (Some (get_start segment)) (Some (get_end segment))
                  (Some translated_text)], status ++ ev)
    | (None, ev) =>
        ([Segment (Some (get_start segment)) (Some (get_end segment))
                  (Some (get_text segment))], status ++ ev)
    end.

Fixpoint process_segments_loop (service : nat -> translator)
    (total_segments i : nat) (segments : list seg_dict)
    : list seg_dict * list event :=
  match segments with
  | [] => ([], [])
  | segment :: rest =>
      let here := process_segment (service i) total_segments i segment in
      let next := process_segments_loop service total_segments (S i) rest in
      (here.1 ++ next.1, here.2 ++ next.2)
  end.

(** [process_segments_safe(segments, status_message, context)].  [service i] is
    the translation service met while segment [i] is processed.  The status
    update is best effort: whether it fails does not change the result. *)
Definition process_segments_safe (service : nat -> translator)
    (segments : list seg_dict) : list seg_dict * list event :=
  process_segments_loop service (length segments) 0 segments.

(** ** The subtitle file *)

Definition newline : pystr := [10%N].

(** The text written by the loop of [create_srt_file_safe], starting with
    index [subtitle_index]. *)
Fixpoint srt_entries (subtitle_index : Z) (segments : list seg_dict) : pystr :=
  match segments with
  | [] => []
  | segment :: rest =>
      if negb (truthy (get_text segment)) then srt_entries subtitle_index rest
      else
        let start_time := format_srt_time (get_start segment) in
        let end_time := format_srt_time (get_end segment) in
        (str_of_int subtitle_index ++ newline)
        ++ (start_time ++ lit " --> " ++ end_time ++ newline)
        ++ (get_text segment ++ newline ++ newline)
        ++ srt_entries (subtitle_index + 1) rest
  end.

Definition srt_content (segments : list seg_dict) : pystr :=
  srt_entries 1 segments.

(** ** Download *)

(** [needle in haystack] *)
Fixpoint starts_with (needle haystack : pystr) : bool :=
  match needle, haystack with
  | [], _ => true
  | a :: needle', b :: haystack' => (a =? b)%N && starts_with needle' haystack'
  | _ :: _, [] => false
  end.

Fixpoint contains (needle haystack : pystr) : bool :=
  starts_with needle haystack
  || match haystack with
     | [] => false
     | _ :: haystack' => contains needle haystack'
     end.

(** The exceptions of the transport, by the [except] clause that takes
    them.  [BadRequest] carries [str(e).lower()]. *)
Inductive tg_error : Type :=
  | BadRequest (error_msg : pystr)
  | NetworkError
  | TelegramError
  | OtherException.

(** How one attempt ends: [get_file] raises, or it returns a file object
    with its declared size ([None] when absent) and then [download] raises
    or returns, leaving [on_disk] bytes at [file_path] ([None]: no file). *)
Inductive download_end : Type :=
  | DownloadRaises (e : tg_error)
  | DownloadReturns (on_disk : option Z).

Inductive attempt_end : Type :=
  | GetFileRaises (e : tg_error)
  | GotFile (file_size : option Z) (download : download_end).

(** The messages [download_file_safe] returns with its flag. *)
Inductive download_msg : Type :=
  | MsgDownloaded
  | MsgTooBigForApi20
  | MsgTooBigForApi
  | MsgNotFound
  | MsgInvalidId
  | MsgFailedAfterRetries.

(** What a handler does with the loop. *)
Inductive handled : Type :=
  | Return (ok : bool) (msg : download_msg)
  | NextAttempt
  | SleepThenNext (millis : Z).

Definition on_error (max_retries attempt : nat) (e : tg_error) : handled :=
  match e with
  | BadRequest error_msg =>
      if contains (lit "file is too big") error_msg
      then Return false MsgTooBigForApi
      else if contains (lit "file not found") error_msg
      then Return false MsgNotFound
      else if contains (lit "invalid file id") error_msg
      then Return false MsgInvalidId
      else NextAttempt
  | NetworkError =>
      if (attempt <? max_retries - 1)%nat
      then SleepThenNext (1000 * 2 ^ Z.of_nat attempt)
      else NextAttempt
  | TelegramError => NextAttempt
  | OtherException => NextAttempt
  end.

Definition one_attempt (max_retries attempt : nat) (a : attempt_end)
    : handled :=
  match a with
  | GetFileRaises e => on_error max_retries attempt e
  | GotFile file_size download =>
      if match file_size with
         | Some sz => negb (sz =? 0) && (20 * 1024 * 1024 <? sz)
         | None => false
         end
      then Return false MsgTooBigForApi20
      else
        match download with
        | DownloadRaises e => on_error max_retries attempt e
        | DownloadReturns (Some sz) =>
            if 100 <? sz then Return true MsgDownloaded else NextAttempt
        | DownloadReturns None => NextAttempt
        end
  end.

Fixpoint download_loop (net : nat -> attempt_end) (max_retries remaining : nat)
    : (bool * download_msg) * list event :=
  match remaining with
  | O => ((false, MsgFailedAfterRetries), [])
  | S remaining' =>
      let attempt := (max_retries - remaining)%nat in
      let next := download_loop net max_retries remaining' in
      match one_attempt max_retries attempt (net attempt) with
      | Return ok msg => ((ok, msg), [DownloadAttempt attempt])
      | NextAttempt => (next.1, DownloadAttempt attempt :: next.2)
      | SleepThenNext millis =>
          (next.1, DownloadAttempt attempt :: Sleep millis :: next.2)
      end
  end.

(** [download_file_safe(context, file_id, file_path, max_retries=2)];
    [net k] says how attempt [k] ends. *)
Definition download_file_safe (net : nat -> attempt_end) (max_retries : nat)
    : (bool * download_msg) * list event :=
  download_loop net max_retries max_retries.

(** ** The world: files, working directory, trace, log *)

Inductive file : Type :=
  | Blob (size : Z)
  | TextFile (content : pystr).

(** A record handed to [logger.warning] or [logger.error], by its level
    and the line of the source that writes it.  The handlers set up when
    the module is loaded append it to [bot_errors.log], opened in the
    start-up directory, and to the standard output. *)
Inductive log_record : Type :=
  | LogWarning (line : nat)
  | LogError (line : nat).

(** [files] are the files on disk other than the log of the logger;
    [logged] are the records appended to that log. *)
Record world : Type := World {
  cwd : pystr;
  files : gmap pystr file;
  trace : list event;
  logged : list log_record
}.

Definition set_cwd (d : pystr) (w : world) : world :=
  World d (files w) (trace w) (logged w).
Definition set_files (fs : gmap pystr file) (w : world) : world :=
  World (cwd w) fs (trace w) (logged w).
Definition emit (evs : list event) (w : world) : world :=
  World (cwd w) (files w) (trace w ++ evs) (logged w).
Definition write_log (records : list log_record) (w : world) : world :=
  World (cwd w) (files w) (trace w) (logged w ++ records).

(** Two worlds that differ at most in what was logged. *)
Definition same_but_log (w' w : world) : Prop :=
  cwd w' = cwd w /\ files w' = files w /\ trace w' = trace w.

(** The exceptions whose class the handlers tell apart; [Error] is any
    other exception. *)
Inductive exn : Type :=
  | TimeoutExpired
  | UnboundLocalError
  | OSError
  | Error.

Inductive result (A : Type) : Type :=
  | Ok (a : A)
  | Raise (e : exn).
Arguments Ok {A} a.
Arguments Raise {A} e.

(** A computation that reads and changes the world and may raise. *)
Definition M (A : Type) : Type := world -> result A * world.

Definition guard_ok (ok : bool) : M unit := fun w =>
  if ok then (Ok tt, w) else (Raise Error, w).

(** [os.path.exists(path)], [os.path.getsize(path)] *)
Definition path_exists (path : pystr) (w : world) : bool :=
  bool_decide (is_Some (files w !! path)).

Definition getsize (path : pystr) : M Z := fun w =>
  match files w !! path with
  | Some (Blob size) => (Ok size, w)
  | Some (TextFile content) => (Ok (Z.of_nat (length content)), w)
  | None => (Raise Error, w)
  end.

(** [os.path.exists(path) and os.path.getsize(path) > least] *)
Definition exists_larger_than (path : pystr) (least : Z) (w : world) : bool :=
  match files w !! path with
  | Some (Blob size) => least <? size
  | Some (TextFile content) => least <? Z.of_nat (length content)
  | None => false
  end.

(** How a call that creates a file ends: it succeeds; it raises and leaves
    nothing; it raises and leaves a partial file. *)
Inductive io_end : Type :=
  | IoOk
  | IoFailsClean
  | IoFailsPartial.

(** How [subprocess.run(cmd, timeout=900)] ends. *)
Inductive run_end : Type :=
  | Exit (returncode : Z)
  | RunTimesOut
  | RunRaises.

(** The collaborators of one job. *)
Record env : Type := Env {
  simple_temp_dir : pystr;
  time_audio : Z;
  time_srt : Z;
  time_embed : Z;
  (** how many calls of [os.remove(path)] raise before one succeeds *)
  remove_raises : pystr -> nat;
  (** the [k]-th message sent or edited by the orchestrator goes through *)
  transport_ok : nat -> bool;
  load_model_ok : bool;
  (** the audio extraction raises, and the file it leaves *)
  audio_run_raises : bool;
  audio_output : option Z;
  (** [None]: [transcribe] raises *)
  transcribe : option (list seg_dict);
  translators : nat -> translator;
  srt_write : io_end;
  copy_video : io_end;
  copy_srt : io_end;
  chdir_ok : bool;
  burn_run : run_end;
  (** the file the transcoder leaves at the output path *)
  burn_output : option Z;
  (** [os.chdir(original_dir)] succeeds: the call after the transcoder has
      exited, and the call in the [except] clauses *)
  restore_ok : bool;
  handler_restore_ok : bool
}.

Definition path_join (dir name : pystr) : pystr := dir ++ lit "/" ++ name.

(** [f"{prefix}_{user_id}_{timestamp}{ext}"] under [SIMPLE_TEMP_DIR] *)
Definition temp_name (e : env) (prefix : string) (user_id timestamp : Z)
    (ext : string) : pystr :=
  path_join (simple_temp_dir e)
    (lit prefix ++ lit "_" ++ str_of_int user_id ++ lit "_"
     ++ str_of_int timestamp ++ lit ext).

(** [safe_file_operation(os.remove, path)] with [remaining] attempts left
    of 3: [os.remove] raises [OSError] when the file is absent or when the
    environment says so; the last failure is logged. *)
Fixpoint safe_remove (e : env) (path : pystr) (remaining : nat) (w : world)
    : world :=
  match remaining with
  | O => w
  | S remaining' =>
      let attempt := (3 - remaining)%nat in
      if path_exists path w && (remove_raises e path <=? attempt)%nat
      then set_files (delete path (files w)) w
      else if (attempt <? 3 - 1)%nat
           then safe_remove e path remaining' (emit [Sleep 500] w)
           else write_log [LogError 107] w
  end.

(** [cleanup_files( *file_paths )] *)
Fixpoint cleanup_files (e : env) (file_paths : list (option pystr))
    (w : world) : world :=
  match file_paths with
  | [] => w
  | file_path :: rest =>
      let w' :=
        match file_path with
        | Some path =>
            if truthy path && path_exists path w
            then safe_remove e path 3 w else w
        | None => w
        end in
      cleanup_files e rest w'
  end.

(** A call that creates [path] with content [f]. *)
Definition create_file (how : io_end) (path : pystr) (f : file) : M unit :=
  fun w =>
    match how with
    | IoOk => (Ok tt, set_files (<[path := f]> (files w)) w)
    | IoFailsClean => (Raise Error, w)
    | IoFailsPartial => (Raise Error, set_files (<[path := Blob 0]> (files w)) w)
    end.

(** [shutil.copyfile(src, dst)] *)
Definition copyfile (how : io_end) (src dst : pystr) : M unit := fun w =>
  match files w !! src with
  | Some f => create_file how dst f w
  | None => (Raise Error, w)
  end.

(** The transcoder leaves [out] at [path] ([None]: it leaves what was
    there). *)
Definition leave_output (path : pystr) (out : option Z) (w : world) : world :=
  match out with
  | Some size => set_files (<[path := Blob size]> (files w)) w
  | None => w
  end.

(** ** Audio extraction *)

Definition extract_audio_safe (e : env) (video_path : pystr) (user_id : Z)
    : M pystr := fun w =>
  let audio_path := temp_name e "audio" user_id (time_audio e) ".wav" in
  let w := cleanup_files e [Some audio_path] w in
  let w := leave_output audio_path (audio_output e) w in
  if negb (audio_run_raises e) && exists_larger_than audio_path 1000 w
  then (Ok audio_path, w)
  else (Raise Error, cleanup_files e [Some audio_path] w).

(** ** Subtitle file creation *)

Definition create_srt_file_safe (e : env) (segments : list seg_dict)
    (user_id : Z) : M pystr := fun w =>
  let srt_path := temp_name e "subs" user_id (time_srt e) ".srt" in
  match create_file (srt_write e) srt_path (TextFile (srt_content segments)) w
  with
  | (Ok _, w') => (Ok srt_path, w')
  | (Raise _, w') => (Raise Error, cleanup_files e [Some srt_path] w')
  end.

(** ** Subtitle burn-in *)

(** The [try] block of [embed_subtitles_safe]: its outcome, and
    [original_dir] as bound when the block is left ([None]: not yet
    assigned). *)
Definition embed_try (e : env)
    (video_path srt_path simple_video_path simple_srt_path output_path : pystr)
    (w : world) : (option pystr * result pystr) * world :=
  let work_dir := simple_temp_dir e in
  match copyfile (copy_video e) video_path simple_video_path w with
  | (Raise x, w) => ((None, Raise x), w)
  | (Ok _, w) =>
  match copyfile (copy_srt e) srt_path simple_srt_path w with
  | (Raise x, w) => ((None, Raise x), w)
  | (Ok _, w) =>
      let original_dir := cwd w in
      if negb (chdir_ok e) then ((Some original_dir, Raise OSError), w)
      else
        let w := set_cwd work_dir w in
        let w := leave_output output_path (burn_output e) w in
        match burn_run e with
        | RunTimesOut => ((Some original_dir, Raise TimeoutExpired), w)
        | RunRaises => ((Some original_dir, Raise Error), w)
        | Exit returncode =>
            if negb (restore_ok e)
            then ((Some original_dir, Raise OSError), w)
            else
              let w := set_cwd original_dir w in
              if negb (returncode =? 0)
              then ((Some original_dir, Raise Error), w)
              else if exists_larger_than output_path 1000 w
                   then ((Some original_dir, Ok output_path), w)
                   else ((Some original_dir, Raise Error), w)
        end
  end
  end.

(** Both [except] clauses: [os.chdir(original_dir)], then [cleanup_files],
    then [raise Exception(...)].  [os.chdir(original_dir)] raises
    [UnboundLocalError] when [original_dir] was never assigned, and
    [OSError] when the directory cannot be entered; either exception leaves
    the clause at once, before the cleanup. *)
Definition embed_except (e : env) (original_dir : option pystr)
    (simple_video_path simple_srt_path output_path : pystr) (w : world)
    : result pystr * world :=
  match original_dir with
  | None => (Raise UnboundLocalError, w)
  | Some d =>
      if negb (handler_restore_ok e) then (Raise OSError, w)
      else
        let w := set_cwd d w in
        (Raise Error,
         cleanup_files e
           [Some simple_video_path; Some simple_srt_path; Some output_path] w)
  end.

(** [embed_subtitles_safe(video_path, srt_path, user_id, font_size,
    font_color)].  The font arguments only shape the command line. *)
Definition embed_subtitles_safe (e : env) (video_path srt_path : pystr)
    (user_id : Z) : M pystr := fun w =>
  let timestamp := time_embed e in
  let simple_video_path := temp_name e "v" user_id timestamp ".mp4" in
  let simple_srt_path := temp_name e "s" user_id timestamp ".srt" in
  let output_path := temp_name e "o" user_id timestamp ".mp4" in
  match embed_try e video_path srt_path simple_video_path simple_srt_path
          output_path w with
  | ((_, Ok p), w') => (Ok p, w')
  | ((original_dir, Raise _), w') =>
      embed_except e original_dir simple_video_path simple_srt_path
        output_path w'
  end.

(** ** The orchestrator *)

Definition MAX_FILE_SIZE : Z := 200 * 1024 * 1024.

(** The paths [process_video_complete] remembers for its [finally]. *)
Record locals : Type := Locals {
  audio_path : option pystr;
  srt_path : option pystr;
  output_path : option pystr
}.

(** Run [m]; if it raises, the [try] block ends with the locals [l]. *)
Definition step {A : Type} (l : locals) (m : M A)
    (k : A -> world -> (locals * result unit) * world)
    (w : world) : (locals * result unit) * world :=
  match m w with
  | (Ok a, w') => k a w'
  | (Raise x, w') => ((l, Raise x), w')
  end.

Definition transport (e : env) (k : nat) : M unit :=
  guard_ok (transport_ok e k).

(** The warnings of the translation pass.  [translate_text_safe] logs
    every call that raised (line 240); [process_segments_safe] logs a
    segment whose processing raised (line 294), which is the case when
    [Translator()] raised. *)
Fixpoint translate_loop_warnings (tr : translator) (text : pystr)
    (max_retries remaining : nat) : list log_record :=
  match remaining with
  | O => []
  | S remaining' =>
      let attempt := (max_retries - remaining)%nat in
      let next := translate_loop_warnings tr text max_retries remaining' in
      match translate tr attempt (strip text) with
      | TrText result_text => if truthy result_text then [] else next
      | TrNone => next
      | TrRaise => LogWarning 240 :: next
      end
  end.

Definition translate_text_warnings (tr : translator) (text : pystr)
    (max_retries : nat) : list log_record :=
  if negb (truthy text) || negb (truthy (strip text)) then []
  else if translator_init tr
       then translate_loop_warnings tr text max_retries max_retries
       else [].

Definition segment_warnings (tr : translator) (segment : seg_dict)
    : list log_record :=
  let original_text := strip (get_text segment) in
  if negb (truthy original_text) then []
  else
    match (translate_text_safe tr original_text 3).1 with
    | Some _ => translate_text_warnings tr original_text 3
    | None => [LogWarning 294]
    end.

Fixpoint pass_warnings (service : nat -> translator) (i : nat)
    (segments : list seg_dict) : list log_record :=
  match segments with
  | [] => []
  | segment :: rest =>
      segment_warnings (service i) segment
      ++ pass_warnings service (S i) rest
  end.

Definition process_video_try (e : env) (video_path : pystr) (user_id : Z)
    : world -> (locals * result unit) * world :=
  let l0 := Locals None None None in
  step l0 (transport e 0) (fun _ =>
  step l0 (guard_ok (load_model_ok e)) (fun _ =>
  step l0 (transport e 1) (fun _ =>
  step l0 (extract_audio_safe e video_path user_id) (fun audio =>
  let l1 := Locals (Some audio) None None in
  step l1 (transport e 2) (fun _ =>
  step l1 (fun w => match transcribe e with
                    | Some (s :: ss) => (Ok (s :: ss), w)
                    | _ => (Raise Error, w)
                    end) (fun segments =>
  step l1 (fun w => let r := process_segments_safe (translators e) segments in
                    let w :=
                      write_log (pass_warnings (translators e) 0 segments)
                        (emit r.2 w) in
                    match r.1 with
                    | [] => (Raise Error, w)
                    | hebrew_segments => (Ok hebrew_segments, w)
                    end) (fun hebrew_segments =>
  step l1 (transport e 3) (fun _ =>
  step l1 (create_srt_file_safe e hebrew_segments user_id) (fun srt =>
  let l2 := Locals (Some audio) (Some srt) None in
  step l2 (transport e 4) (fun _ =>
  step l2 (embed_subtitles_safe e video_path srt user_id) (fun output =>
  let l3 := Locals (Some audio) (Some srt) (Some output) in
  step l3 (transport e 5) (fun _ =>
  step l3 (getsize output) (fun output_size =>
  step l3 (guard_ok (negb (MAX_FILE_SIZE <? output_size))) (fun _ =>
  step l3 (transport e 6) (fun _ =>
  step l3 (transport e 7) (fun _ w => ((l3, Ok tt), w))))))))))))))))).

(** [process_video_complete(video_path, update, context)]: the [try]
    block, the [except] that logs the error and reports it (best effort),
    and the [finally] that cleans up.  The result says whether the [try]
    block ran to its end. *)
Definition process_video_complete (e : env) (video_path : pystr)
    (user_id : Z) (w : world) : result unit * world :=
  match process_video_try e video_path user_id w with
  | ((l, r), w') =>
      let w' := match r with
                | Ok _ => w'
                | Raise _ => write_log [LogError 508] w'
                end in
      (r, cleanup_files e [audio_path l; srt_path l; output_path l] w')
  end.

(** ** Predicates used in the statements *)

(** The passes of [add_space_after_punctuation] over a list of marks. *)
Abbreviation spacing_pass :=
  (fold_left (fun text mark => re_sub_mark mark text)).


(** Every occurrence of [mark] in [text] is followed by a whitespace
    character. *)
Fixpoint spaced (mark : N) (text : pystr) : bool :=
  match text with
  | [] => true
  | c :: rest =>
      (negb (c =? mark)%N || followed_by_space rest) && spaced mark rest
  end.

(** The segment has a text left after [strip()]. *)
Definition has_text (s : seg_dict) : bool := truthy (strip (get_text s)).

(** The time span of a segment, as [.get('start', 0)] and [.get('end', 0)]
    read it. *)
Definition times (s : seg_dict) : pyval * pyval := (get_start s, get_end s).

(** A call of the translation service that yields no translation: it
    raises, returns nothing, or returns an empty text. *)
Definition tr_fails (o : tr_outcome) : bool :=
  match o with
  | TrText text => negb (truthy text)
  | TrNone => true
  | TrRaise => true
  end.

(** A call of the translation service that raised. *)
Definition raised (o : tr_outcome) : bool :=
  match o with
  | TrRaise => true
  | _ => false
  end.

(** The pauses of a trace, and its numbers of calls. *)
Definition sleeps (evs : list event) : list Z :=
  omap (fun ev => match ev with Sleep millis => Some millis | _ => None end) evs.

Definition translate_calls (evs : list event) : list nat :=
  omap (fun ev => match ev with TranslateCall k => Some k | _ => None end) evs.

Definition download_attempts (evs : list event) : list nat :=
  omap (fun ev => match ev with DownloadAttempt k => Some k | _ => None end) evs.

(** What the translation pass makes of a segment when no translation is to
    be had: the stripped text, with the punctuation spacing. *)
Definition untranslated (s : seg_dict) : seg_dict :=
  Segment (Some (get_start s)) (Some (get_end s))
          (Some (add_space_after_punctuation (strip (get_text s)))).

(** The events of [translate_text_safe] when each of its [max_retries]
    calls fails: every call, followed by a pause of one second when it
    raised and was not the last. *)
Definition failed_calls (tr : translator) (text : pystr) (max_retries : nat)
    : list event :=
  flat_map
    (fun attempt =>
       TranslateCall attempt
       :: (if raised (translate tr attempt (strip text))
              && (S attempt <? max_retries)%nat
           then [Sleep 1000] else []))
    (seq 0 max_retries).

(** What the translation pass emits for a segment that gets no
    translation: when the service could be built, the stripped text with
    the punctuation spacing; when [Translator()] raised, the text as it
    is. *)
Definition fallback (built : bool) (s : seg_dict) : seg_dict :=
  if built then untranslated s
  else Segment (Some (get_start s)) (Some (get_end s)) (Some (get_text s)).

(** The segments that reach the subtitle file: those with a non-empty
    text. *)
Definition emitted (segments : list seg_dict) : list seg_dict :=
  List.filter (fun s => truthy (get_text s)) segments.

(** Four lines, each closed by a line feed. *)
Definition four_lines (a b c d : pystr) : pystr :=
  (a ++ newline) ++ (b ++ newline) ++ (c ++ newline) ++ (d ++ newline).

(** The entry of a segment under a given index: the index, the time span,
    the text and an empty line. *)
Definition srt_entry (index : Z) (s : seg_dict) : pystr :=
  four_lines (str_of_int index)
    (format_srt_time (get_start s) ++ lit " --> "
     ++ format_srt_time (get_end s))
    (get_text s) [].

(** The number of line feeds of a text, and texts without one. *)
Definition line_feeds (text : pystr) : nat :=
  length (List.filter (fun c => (c =? 10)%N) text).

Definition one_line (text : pystr) : bool :=
  forallb (fun c => negb (c =? 10)%N) text.

(** The ways an attempt to download can end, as the specification tells
    them apart: success; a failure that no retry can cure, with its reason
    (declared size above 20 MB, file too big, file not found or expired,
    invalid file id); a transient network failure; any other failure. *)
Inductive attempt_class : Type :=
  | Success
  | Fatal (reason : download_msg)
  | Network
  | OtherFailure.

Definition error_class (e : tg_error) : attempt_class :=
  match e with
  | BadRequest error_msg =>
      if contains (lit "file is too big") error_msg then Fatal MsgTooBigForApi
      else if contains (lit "file not found") error_msg then Fatal MsgNotFound
      else if contains (lit "invalid file id") error_msg then Fatal MsgInvalidId
      else OtherFailure
  | NetworkError => Network
  | TelegramError => OtherFailure
  | OtherException => OtherFailure
  end.

Definition class (a : attempt_end) : attempt_class :=
  match a with
  | GetFileRaises e => error_class e
  | GotFile (Some declared) download =>
      if 20 * 1024 * 1024 <? declared then Fatal MsgTooBigForApi20
      else match download with
           | DownloadRaises e => error_class e
           | DownloadReturns (Some sz) =>
               if 100 <? sz then Success else OtherFailure
           | DownloadReturns None => OtherFailure
           end
  | GotFile None download =>
      match download with
      | DownloadRaises e => error_class e
      | DownloadReturns (Some sz) => if 100 <? sz then Success else OtherFailure
      | DownloadReturns None => OtherFailure
      end
  end.

(** The attempt failed and another attempt may follow. *)
Definition retriable (a : attempt_end) : bool :=
  match class a with
  | Network | OtherFailure => true
  | Success | Fatal _ => false
  end.

(** The attempt ended the download with the result [res]. *)
Definition final (a : attempt_end) (res : bool * download_msg) : Prop :=
  match class a with
  | Success => res = (true, MsgDownloaded)
  | Fatal reason => res = (false, reason)
  | Network | OtherFailure => False
  end.

(** The pause after attempt [attempt] of [max_retries]: [2 ** attempt]
    seconds after a network failure, unless it was the last attempt. *)
Definition backoff (max_retries attempt : nat) (a : attempt_end)
    : list event :=
  match class a with
  | Network =>
      if (S attempt <? max_retries)%nat
      then [Sleep (1000 * 2 ^ Z.of_nat attempt)] else []
  | _ => []
  end.

(** A connection that fails once for a reason that is not the network and
    works afterwards. *)
Definition net_disk_hiccup (attempt : nat) : attempt_end :=
  match attempt with
  | O => GotFile (Some 4000000) (DownloadRaises OtherException)
  | S _ => GotFile (Some 4000000) (DownloadReturns (Some 4000000))
  end.

(** A file that can never be reached. *)
Definition net_down (attempt : nat) : attempt_end :=
  GetFileRaises NetworkError.

(** The milliseconds of a fraction [f] of a second, in units: the integer
    part of the exact product [1000 f], and one more when that product is
    below the next integer by no more than half the distance between
    neighbouring binary64 values, so that the binary64 product is that
    integer. *)
Definition milliseconds (f : Z) : Z :=
  let y := 1000 * f in
  if 2 * ((y / U + 1) * U - y) <=? 2 ^ ulp_exp y then y / U + 1 else y / U.

(** The character of a decimal digit, and numbers written with exactly two
    and exactly three digits. *)
Definition digit (d : Z) : N := (48 + Z.to_N d)%N.

Definition two_digits (k : Z) : pystr := [digit (k / 10); digit (k mod 10)].

Definition three_digits (k : Z) : pystr :=
  [digit (k / 100); digit (k / 10 mod 10); digit (k mod 10)].

(** ** Inputs used in the examples *)

(** A translation service that is down: every call raises. *)
Definition tr_unreachable : translator :=
  Translator true (fun _ _ => TrRaise).

(** A translation service that answers every call with the same Hebrew
    word. *)
Definition tr_shalom : translator :=
  Translator true (fun _ _ => TrText [1513; 1500; 1493; 1501]%N).

(** A translation service that cannot be built: [Translator()] raises. *)
Definition tr_no_service : translator :=
  Translator false (fun _ _ => TrRaise).

(** A segment with blanks around its text and no space after the comma. *)
Definition tight_segment : seg_dict :=
  Segment (Some (PyFloat (flt 0))) (Some (PyFloat (flt 2)))
          (Some (lit " Hi,there ")).

(** The two segments of the end-to-end scenario. *)
Definition hello_segments : list seg_dict :=
  [Segment (Some (PyFloat (flt 0))) (Some (PyFloat (flt 2)))
           (Some (lit "Hello there"));
   Segment (Some (PyFloat (flt 2))) (Some (PyFloat (flt 5)))
           (Some (lit "How are you?"))].

(** A segment without speech between two spoken ones. *)
Definition segments_with_silence : list seg_dict :=
  [Segment (Some (PyFloat (flt 0))) (Some (PyFloat (flt 2)))
           (Some (lit "Hello there"));
   Segment (Some (PyFloat (flt 2))) (Some (PyFloat (flt 3)))
           (Some (lit " "));
   Segment (Some (PyFloat (flt 3))) (Some (PyFloat (flt 5)))
           (Some (lit "How are you?"))].

(** A job in which every collaborator does its part: user 7 sends a
    video with the two segments of the scenario. *)
Definition smooth_env : env :=
  Env (lit "/home/bot/tempfiles") 1700000000 1700000003 1700000004
      (fun _ => O) (fun _ => true) true false (Some 960044)
      (Some hello_segments) (fun _ => tr_shalom) IoOk IoOk IoOk true
      (Exit 0) (Some 5000000) true true.

Definition input_video : pystr :=
  lit "/home/bot/tempfiles/input_7_1699999990.mp4".

Definition start_world : world :=
  World (lit "/home/bot") {[ input_video := Blob 4000000 ]} [] [].

(** The same job, except that the copy of the subtitle file fails. *)
Definition srt_copy_fails_env : env :=
  Env (lit "/home/bot/tempfiles") 1700000000 1700000003 1700000004
      (fun _ => O) (fun _ => true) true false (Some 960044)
      (Some hello_segments) (fun _ => tr_shalom) IoOk IoOk IoFailsClean true
      (Exit 0) (Some 5000000) true true.

(** The job of [smooth_env] with the translation service down. *)
Definition translation_down_env : env :=
  Env (lit "/home/bot/tempfiles") 1700000000 1700000003 1700000004
      (fun _ => O) (fun _ => true) true false (Some 960044)
      (Some hello_segments) (fun _ => tr_unreachable) IoOk IoOk IoOk true
      (Exit 0) (Some 5000000) true true.

(** A job in which nothing is transcribed and the transcoder leaves
    nothing. *)
Definition idle_env : env :=
  Env (lit "/tmp") 0 1 2 (fun _ => O) (fun _ => true) true false
      None None (fun _ => tr_shalom) IoOk IoOk IoOk true (Exit 0) None
      true true.

(** A segment whose text has two lines. *)
Definition two_line_segment : seg_dict :=
  Segment (Some (PyFloat (flt 0))) (Some (PyFloat (flt 2)))
          (Some (lit "Hello" ++ newline ++ lit "there")).

(** 3661.25 seconds, in units: 14645 / 4. *)
Definition sample_time : Z := 14645 * 2 ^ 1072.

(** ** Observations on worlds *)

(** [os.remove(path)] can succeed within the three attempts of
    [safe_file_operation]. *)
Definition removable (e : env) (path : pystr) : bool :=
  (remove_raises e path <? 3)%nat.

(** The three names [process_video_complete] keeps for its [finally]. *)
Definition audio_name (e : env) (user_id : Z) : pystr :=
  temp_name e "audio" user_id (time_audio e) ".wav".
Definition subs_name (e : env) (user_id : Z) : pystr :=
  temp_name e "subs" user_id (time_srt e) ".srt".
Definition output_name (e : env) (user_id : Z) : pystr :=
  temp_name e "o" user_id (time_embed e) ".mp4".
Definition video_copy_name (e : env) (user_id : Z) : pystr :=
  temp_name e "v" user_id (time_embed e) ".mp4".
Definition srt_copy_name (e : env) (user_id : Z) : pystr :=
  temp_name e "s" user_id (time_embed e) ".srt".

(** Every file of [paths] that is on disk is remembered in [l]. *)
Definition covered (paths : list pystr) (l : locals) (w : world) : Prop :=
  forall p, In p paths -> path_exists p w = true ->
            In (Some p) [audio_path l; srt_path l; output_path l].

(** The job of [smooth_env] at the moment of the burn-in: the input video
    and the subtitle file are on disk. *)
Definition burn_world : world :=
  World (lit "/home/bot")
        {[ input_video := Blob 4000000;
           lit "/home/bot/tempfiles/subs_7_1700000003.srt"
             := TextFile (srt_content hello_segments) ]} [] [].

(** The same job with a transcoder that exits with status 1, leaving a
    partial output. *)
Definition burn_fails_env : env :=
  Env (lit "/home/bot/tempfiles") 1700000000 1700000003 1700000004
      (fun _ => O) (fun _ => true) true false (Some 960044)
      (Some hello_segments) (fun _ => tr_shalom) IoOk IoOk IoOk true
      (Exit 1) (Some 512) true true.


(** Every stage of a job but the translation does its part: the messages
    go through, the model loads, the audio extraction leaves more than
    1000 bytes, the subtitle file and the two copies can be written, the
    directory can be changed and restored, the transcoder exits with 0 and
    leaves an output of more than 1000 bytes and at most 200 MB, and the
    video is on disk. *)
Definition others_work (e : env) (video_path : pystr) (w : world) : Prop :=
  (forall k, transport_ok e k = true)
  /\ load_model_ok e = true
  /\ audio_run_raises e = false
  /\ (exists size, audio_output e = Some size /\ 1000 < size)
  /\ srt_write e = IoOk /\ copy_video e = IoOk /\ copy_srt e = IoOk
  /\ chdir_ok e = true /\ burn_run e = Exit 0 /\ restore_ok e = true
  /\ (exists size, burn_output e = Some size
                   /\ 1000 < size <= MAX_FILE_SIZE)
  /\ is_Some (files w !! video_path).

(** From [w] to [w'] the log has only grown, and not by a record of
    [line]. *)
Definition log_grows_without (line : nat) (w w' : world) : Prop :=
  exists records,
    logged w' = logged w ++ records
    /\ Forall (fun x => x <> LogError line) records.

(** The sum of a list of durations. *)
Definition total (durations : list Z) : Z := fold_right Z.add 0 durations.

(** The status updates of a trace: number of the segment and number of
    segments. *)
Definition progress_updates (evs : list event) : list (nat * nat) :=
  omap (fun ev => match ev with
                  | Progress k total => Some (k, total)
                  | _ => None
                  end) evs.

(** The segments at which [process_segments_safe] updates the status:
    every fifth, and the last. *)
Definition reports (total_segments i : nat) : bool :=
  (i mod 5 =? 0)%nat || (i =? total_segments - 1)%nat.



(** ** Incoming videos *)

(** How [subprocess.run(['ffmpeg', '-version'], check=True, timeout=10)]
    ends: it exits, the program is not found, it times out, or it raises
    something else. *)
Inductive version_end : Type :=
  | VersionExit (returncode : Z)
  | VersionNotFound
  | VersionTimesOut
  | VersionRaises.

(** An attribute as [getattr(obj, name, default)] reads it. *)
Inductive attr (A : Type) : Type :=
  | Absent
  | Present (value : A).
Arguments Absent {A}.
Arguments Present {A} value.

Definition getattr {A : Type} (a : attr A) (default : A) : A :=
  match a with
  | Absent => default
  | Present value => value
  end.

(** The parts of an update that [handle_video] reads.  A field that the
    sender left out is [None]. *)
Record tg_video : Type := Video {
  video_file_id : pystr;
  video_file_size : attr (option Z);
  video_file_name : attr (option pystr)
}.

Record tg_document : Type := Document {
  document_file_id : pystr;
  document_mime_type : attr (option pystr);
  document_file_size : attr (option Z);
  document_file_name : attr (option pystr)
}.

Record tg_message : Type := Message {
  video : option tg_video;
  document : option tg_document
}.

Record update : Type := Update {
  message : option tg_message;
  effective_user : option Z
}.

(** The dictionary [get_file_info_safe] returns, without the keys that
    [handle_video] does not read. *)
Record file_info : Type := FileInfo {
  info_file_id : pystr;
  info_file_size : option Z;
  info_file_name : option pystr
}.

(** The collaborators of one incoming video: those of the job, the clock,
    the installed packages, the transcoder's version check, the chat and
    the file server. *)
Record request : Type := Request {
  job : env;
  time_input : Z;
  whisper_available : bool;
  translator_available : bool;
  ffmpeg_available : bool;
  ffmpeg_version : version_end;
  (** the [k]-th call on the chat in [handle_video] goes through *)
  chat_ok : nat -> bool;
  net : nat -> attempt_end;
  (** the bytes a download that raises leaves at the path ([None]: it
      leaves what was there) *)
  partial_download : nat -> option Z
}.

Definition check_dependencies (r : request) : result (list pystr) :=
  let missing :=
    (if whisper_available r then [] else [lit "openai-whisper"])
    ++ (if translator_available r then [] else [lit "googletrans==3.1.0a0"])
    ++ (if ffmpeg_available r then [] else [lit "ffmpeg-python"]) in
  match ffmpeg_version r with
  | VersionExit returncode =>
      if returncode =? 0 then Ok missing else Ok (missing ++ [lit "FFmpeg"])
  | VersionNotFound => Ok (missing ++ [lit "FFmpeg"])
  | VersionTimesOut => Ok (missing ++ [lit "FFmpeg"])
  | VersionRaises => Raise Error
  end.

(** [get_file_info_safe(update)]: the dictionary, and what the function
    logs.  Reading [update.message.video] of an update without a message
    raises; the function catches and logs the exception. *)
Definition get_file_info_safe (u : update)
    : option file_info * list log_record :=
  match message u with
  | None => (None, [LogError 148])
  | Some m =>
      match video m with
      | Some v =>
          (Some (FileInfo (video_file_id v)
                          (getattr (video_file_size v) (Some 0))
                          (getattr (video_file_name v)
                                   (Some (lit "video.mp4")))), [])
      | None =>
          match document m with
          | Some d =>
              match document_mime_type d with
              | Present (Some mime_type) =>
                  if truthy mime_type && starts_with (lit "video/") mime_type
                  then (Some (FileInfo (document_file_id d)
                                (getattr (document_file_size d) (Some 0))
                                (getattr (document_file_name d)
                                         (Some (lit "video.mp4")))), [])
                  else (None, [])
              | _ => (None, [])
              end
          | None => (None, [])
          end
      end
  end.

(** [p.rfind(c)] for a character [c]: the highest index of [c] in [p], or
    -1. *)
Fixpoint rfind (c : N) (p : pystr) : Z :=
  match p with
  | [] => -1
  | x :: rest =>
      let r := rfind c rest in
      if 0 <=? r then r + 1 else if (x =? c)%N then 0 else -1
  end.

(** [p[i:j]] for indices that are not negative. *)
Definition slice (i j : Z) (p : pystr) : pystr :=
  take (Z.to_nat (j - i)) (drop (Z.to_nat i) p).

(** [os.path.splitext(p)] of [posixpath]: the extension starts at the last
    dot, if that dot comes after the last [/] and after a character of the
    file name that is not a dot. *)
Definition splitext (p : pystr) : pystr * pystr :=
  let sepIndex := rfind 47 p in
  let dotIndex := rfind 46 p in
  if (sepIndex <? dotIndex)
     && existsb (fun c => negb (c =? 46)%N) (slice (sepIndex + 1) dotIndex p)
  then (take (Z.to_nat dotIndex) p, drop (Z.to_nat dotIndex) p)
  else (p, []).

(** [os.path.splitext(file_name)[-1] or ".mp4"] *)
Definition file_ext (file_name : pystr) : pystr :=
  let ext := (splitext file_name).2 in
  if truthy ext then ext else lit ".mp4".

(** [os.path.join(SIMPLE_TEMP_DIR,
    f"input_{user_id}_{timestamp}{file_ext}")] *)
Definition input_name (e : env) (user_id timestamp : Z) (file_ext : pystr)
    : pystr :=
  path_join (simple_temp_dir e)
    (lit "input_" ++ str_of_int user_id ++ lit "_" ++ str_of_int timestamp
     ++ file_ext).

(** What attempt [attempt] of a download does to the file at [file_path]:
    nothing unless [download] is called; then the file is what the
    download leaves. *)
Definition attempt_writes (r : request) (attempt : nat) (file_path : pystr)
    (w : world) : world :=
  match net r attempt with
  | GetFileRaises _ => w
  | GotFile file_size download =>
      if match file_size with
         | Some sz => negb (sz =? 0) && (20 * 1024 * 1024 <? sz)
         | None => false
         end
      then w
      else
        match download with
        | DownloadRaises _ =>
            leave_output file_path (partial_download r attempt) w
        | DownloadReturns (Some sz) =>
            set_files (<[file_path := Blob sz]> (files w)) w
        | DownloadReturns None => set_files (delete file_path (files w)) w
        end
  end.

(** What the handlers of [download_file_safe] log for an exception: a
    [BadRequest] that is not one of the three fatal ones (line 185), a
    network error (188), another error of the transport (194), anything
    else (197). *)
Definition error_logs (e : tg_error) : list log_record :=
  match e with
  | BadRequest error_msg =>
      if contains (lit "file is too big") error_msg
         || contains (lit "file not found") error_msg
         || contains (lit "invalid file id") error_msg
      then [] else [LogError 185]
  | NetworkError => [LogWarning 188]
  | TelegramError => [LogError 194]
  | OtherException => [LogError 197]
  end.

(** What one attempt logs: the declared size above 20 MB (line 165), or
    the exception it met. *)
Definition attempt_logs (a : attempt_end) : list log_record :=
  match a with
  | GetFileRaises e => error_logs e
  | GotFile file_size download =>
      if match file_size with
         | Some sz => negb (sz =? 0) && (20 * 1024 * 1024 <? sz)
         | None => false
         end
      then [LogError 165]
      else
        match download with
        | DownloadRaises e => error_logs e
        | DownloadReturns _ => []
        end
  end.

(** The loop of [download_file_safe] in the world: each attempt is
    recorded, writes its file, logs its failure and is handled as
    [one_attempt] says. *)
Fixpoint download_loop_in (r : request) (file_path : pystr)
    (max_retries remaining : nat) (w : world)
    : (bool * download_msg) * world :=
  match remaining with
  | O => ((false, MsgFailedAfterRetries), w)
  | S remaining' =>
      let attempt := (max_retries - remaining)%nat in
      let w := attempt_writes r attempt file_path
                 (emit [DownloadAttempt attempt] w) in
      let w := write_log (attempt_logs (net r attempt)) w in
      match one_attempt max_retries attempt (net r attempt) with
      | Return ok msg => ((ok, msg), w)
      | NextAttempt => download_loop_in r file_path max_retries remaining' w
      | SleepThenNext millis =>
          download_loop_in r file_path max_retries remaining'
            (emit [Sleep millis] w)
      end
  end.

(** How [handle_video] ends when it does not meet an unexpected error. *)
Inductive verdict : Type :=
  | MissingDependencies
  | NotAVideo
  | TooLarge
  | NotDownloaded (msg : download_msg)
  | Processed (job_done : result unit).

(** [update.message.reply_text(...)], and the calls on [context.bot]. *)
Definition reply_text (r : request) (u : update) (k : nat) : M unit :=
  guard_ok (bool_decide (is_Some (message u)) && chat_ok r k).

Definition bot_call (r : request) (k : nat) : M unit :=
  guard_ok (chat_ok r k).

(** A branch that answers and returns. *)
Definition answer_with (r : request) (u : update) (k : nat) (v : verdict)
    (w : world) : (option pystr * result verdict) * world :=
  match reply_text r u k w with
  | (Ok _, w') => ((None, Ok v), w')
  | (Raise x, w') => ((None, Raise x), w')
  end.

(** The [try] block of [handle_video]: its outcome, and [video_path] as
    bound when the block is left ([None]: not assigned).  A message always
    has a chat; it has no user when it is a channel post. *)
Definition handle_video_try (r : request) (u : update) (w : world)
    : (option pystr * result verdict) * world :=
  match check_dependencies r with
  | Raise x => ((None, Raise x), w)
  | Ok (_ :: _) => answer_with r u 0 MissingDependencies w
  | Ok [] =>
  let w := write_log (get_file_info_safe u).2 w in
  match (get_file_info_safe u).1 with
  | None => answer_with r u 1 NotAVideo w
  | Some info =>
      if match info_file_size info with
         | Some size => negb (size =? 0) && (MAX_FILE_SIZE <? size)
         | None => false
         end
      then answer_with r u 2 TooLarge w
      else
  match reply_text r u 3 w with
  | (Raise x, w) => ((None, Raise x), w)
  | (Ok _, w) =>
  match effective_user u with
  | None => ((None, Raise Error), w)
  | Some user_id =>
  let timestamp := time_input r in
  match info_file_name info with
  | None => ((None, Raise Error), w)
  | Some file_name =>
      let video_path :=
        input_name (job r) user_id timestamp (file_ext file_name) in
      match download_loop_in r video_path 2 2 w with
      | ((false, error_msg), w) =>
          match bot_call r 4 w with
          | (Ok _, w) => ((Some video_path, Ok (NotDownloaded error_msg)), w)
          | (Raise _, w) =>
              match bot_call r 5 w with
              | (Ok _, w) =>
                  ((Some video_path, Ok (NotDownloaded error_msg)), w)
              | (Raise x, w) => ((Some video_path, Raise x), w)
              end
          end
      | ((true, _), w) =>
          let w := (bot_call r 6 w).2 in
          match process_video_complete (job r) video_path user_id w with
          | (job_done, w) => ((Some video_path, Ok (Processed job_done)), w)
          end
      end
  end
  end
  end
  end
  end.

(** [handle_video(update, context)]: the [try] block, the [except] that
    logs an unexpected error and reports it (best effort), and the
    [finally] that removes the input file if its name was assigned.  The
    result is the outcome of the [try] block. *)
Definition handle_video (r : request) (u : update) (w : world)
    : result verdict * world :=
  match handle_video_try r u w with
  | ((video_path, outcome), w') =>
      let w' := match outcome with
                | Ok _ => w'
                | Raise _ => (bot_call r 7 (write_log [LogError 782] w')).2
                end in
      (outcome,
       match video_path with
       | Some path => cleanup_files (job r) [Some path] w'
       | None => w'
       end)
  end.

(** A sender's video of 4 MB that downloads at the second attempt, for the
    job of [smooth_env]. *)
Definition smooth_request : request :=
  Request smooth_env 1699999990 true true true (VersionExit 0)
          (fun _ => true) net_disk_hiccup (fun _ => None).

Definition sample_update : update :=
  Update (Some (Message (Some (Video (lit "BAACAgQ")
                                     (Present (Some 4000000))
                                     (Present (Some (lit "../trip.2024.MP4")))))
                        None))
         (Some 7).
(** The five names of a job. *)
Definition job_names (e : env) (user_id : Z) : list pystr :=
  [audio_name e user_id; subs_name e user_id; video_copy_name e user_id;
   srt_copy_name e user_id; output_name e user_id].

(** The checks that come before the download. *)
Definition admitted (r : request) (u : update) (user_id : Z)
    (file_name : pystr) : Prop :=
  whisper_available r = true /\ translator_available r = true
  /\ ffmpeg_available r = true /\ ffmpeg_version r = VersionExit 0
  /\ effective_user u = Some user_id
  /\ chat_ok r 3 = true
  /\ exists info,
       (get_file_info_safe u).1 = Some info
       /\ info_file_name info = Some file_name
       /\ forall size, info_file_size info = Some size -> size <= MAX_FILE_SIZE.

(** A bot that has just started: no file yet. *)
Definition fresh_world : world := World (lit "/home/bot") ∅ [] [].

(** ** Settings and buttons *)

(** What [int(text)] depends on beyond the text: the decimal value of the
    characters that are not ASCII ([Py_UNICODE_TODECIMAL]), and the limit
    on the number of digits ([sys.get_int_max_str_digits()]; 0 when there
    is none). *)
Record python : Type := Python {
  unicode_decimal : N -> option Z;
  int_max_str_digits : nat
}.

(** [Py_ISSPACE] and the decimal digits of [int]. *)
Definition ascii_isspace (c : N) : bool :=
  (((9 <=? c) && (c <=? 13)) || (c =? 32))%N.

Definition ascii_isdigit (c : N) : bool := ((48 <=? c) && (c <=? 57))%N.

(** The character that [int] reads for [c]: itself below 127, a space for
    other white space, the ASCII digit of a decimal character, and [?]
    otherwise. *)
Definition to_ascii (py : python) (c : N) : N :=
  if (c <? 127)%N then c
  else if isspace c then 32%N
  else match unicode_decimal py c with
       | Some d => (48 + Z.to_N d)%N
       | None => 63%N
       end.

Fixpoint skip_spaces (s : pystr) : pystr :=
  match s with
  | c :: rest => if ascii_isspace c then skip_spaces rest else s
  | [] => []
  end.

(** The digits at the head of [s], single underscores between them left
    out, and what follows them; [None] when two underscores meet or an
    underscore comes last.  [prev] is the character before [s]. *)
Fixpoint scan_digits (s : pystr) (prev : N) : option (pystr * pystr) :=
  match s with
  | c :: rest =>
      if ascii_isdigit c
      then match scan_digits rest c with
           | Some (ds, tail) => Some (c :: ds, tail)
           | None => None
           end
      else if (c =? 95)%N
      then if (prev =? 95)%N then None else scan_digits rest c
      else if (prev =? 95)%N then None else Some ([], s)
  | [] => if (prev =? 95)%N then None else Some ([], [])
  end.

(** [int(text)] for a [str]; [None] stands for [ValueError]. *)
Definition py_int (py : python) (text : pystr) : option Z :=
  let s := skip_spaces (List.map (to_ascii py) text) in
  let signed :=
    match s with
    | c :: rest =>
        if (c =? 43)%N then (1, rest)
        else if (c =? 45)%N then (-1, rest)
        else (1, s)
    | [] => (1, s)
    end in
  if starts_with [95%N] signed.2 then None
  else
    match scan_digits signed.2 0 with
    | None => None
    | Some ([], _) => None
    | Some (ds, tail) =>
        if (640 <? length ds)%nat && (0 <? int_max_str_digits py)%nat
           && (int_max_str_digits py <? length ds)%nat
        then None
        else match skip_spaces tail with
             | [] =>
                 Some (signed.1
                       * fold_left (fun v c => 10 * v + (Z.of_N c - 48)) ds 0)
             | _ :: _ => None
             end
    end.

(** [text.split(sep)] for a separator of one character, and [pieces[-1]]. *)
Fixpoint split_on (sep : N) (text : pystr) : list pystr :=
  match text with
  | [] => [[]]
  | c :: rest =>
      if (c =? sep)%N then [] :: split_on sep rest
      else match split_on sep rest with
           | piece :: pieces => (c :: piece) :: pieces
           | [] => [[c]]
           end
  end.

Definition last_piece (pieces : list pystr) : pystr := List.last pieces [].

(** [d.get(key, default)] for a dictionary of strings written in the
    source. *)
Fixpoint dict_get (d : list (pystr * pystr)) (key default : pystr) : pystr :=
  match d with
  | [] => default
  | (k, v) :: rest => if decide (k = key) then v else dict_get rest key default
  end.

Definition COLOR_CODES : list (pystr * pystr) :=
  [(lit "white", lit "&H00FFFFFF&"); (lit "yellow", lit "&H0000FFFF&");
   (lit "black", lit "&H00000000&"); (lit "tomato", lit "&H000066FF&")].


(** [context.user_data]: the two keys the program uses ([None]: the key is
    absent). *)
Record user_data : Type := UserData {
  font_size : option Z;
  font_color : option pystr
}.

Record button : Type := Button {
  label : pystr;
  callback_data : pystr
}.

(** What the user is shown: the menus with the values that their texts
    quote and their keyboards, and the notice of an expired button. *)
Inductive screen : Type :=
  | SettingsScreen (size : Z) (color_name : pystr)
      (reply_markup : list (list button))
  | FontSizeScreen (size : Z) (reply_markup : list (list button))
  | FontColorScreen (reply_markup : list (list button))
  | MainMenuScreen (reply_markup : list (list button))
  | TooOldNotice.

Record session : Type := Session {
  data : user_data;
  shown : list screen
}.

Definition show (sc : screen) (s : session) : session :=
  Session (data s) (shown s ++ [sc]).

(** The exceptions of a button handler, and how a call on the chat ends. *)
Inductive cb_exn : Type :=
  | TelegramErr (text : pystr)
  | OtherErr.

Inductive call_end : Type :=
  | Returns
  | Raises (e : cb_exn).

(** The collaborators of a button press: the interpreter and the chat,
    whose calls are numbered by their place in the source. *)
Record dialog : Type := Dialog {
  py : python;
  call : nat -> call_end
}.

(** [except TelegramError as e:] with the notice for an expired button,
    sent at the place [site] (best effort). *)
Definition too_old_handler (d : dialog) (site : nat)
    (out : option cb_exn * session) : option cb_exn * session :=
  match out with
  | (Some (TelegramErr text), s) =>
      if contains (lit "Query is too old") text
      then match call d site with
           | Returns => (None, show TooOldNotice s)
           | Raises _ => (None, s)
           end
      else (None, s)
  | _ => out
  end.

(** [except TelegramError: pass] *)
Definition pass_telegram_error (out : option cb_exn * session)
    : option cb_exn * session :=
  match out with
  | (Some (TelegramErr _), s) => (None, s)
  | _ => out
  end.

Definition color_names : list (pystr * pystr) :=
  [(lit "white", [1500; 1489; 1503; 32; 9898]%N);
   (lit "yellow", [1510; 1492; 1493; 1489; 32; 128993]%N);
   (lit "black", [1513; 1495; 1493; 1512; 32; 9899]%N);
   (lit "tomato", [1488; 1491; 1493; 1501; 32; 128308]%N)].

Definition settings_label : pystr :=
  [9881; 65039; 32; 1492; 1490; 1491; 1512; 1493; 1514; 32; 1499; 1514; 1493;
   1489; 1497; 1493; 1514]%N.
Definition font_size_label : pystr :=
  [128269; 32; 1490; 1493; 1491; 1500; 32; 1508; 1493; 1504; 1496]%N.
Definition font_color_label : pystr :=
  [127912; 32; 1510; 1489; 1506; 32; 1499; 1514; 1493; 1489; 1497; 1493;
   1514]%N.
Definition home_label : pystr := [127968; 32; 1495; 1494; 1512; 1492]%N.
Definition back_label : pystr := [8617; 65039; 32; 1495; 1494; 1512; 1492]%N.

(** [settings(update, context)]; the calls: [query.answer()] 0,
    [query.edit_message_text] 1, the notice 2. *)
Definition settings (d : dialog) (s : session) : option cb_exn * session :=
  too_old_handler d 2
    match call d 0 with
    | Raises e => (Some e, s)
    | Returns =>
        let size := default 24 (font_size (data s)) in
        let color := default (lit "white") (font_color (data s)) in
        let keyboard :=
          [[Button font_size_label (lit "font_size")];
           [Button font_color_label (lit "font_color")];
           [Button home_label (lit "main_menu")]] in
        match call d 1 with
        | Raises e => (Some e, s)
        | Returns =>
            (None,
             show (SettingsScreen size (dict_get color_names color color)
                     keyboard) s)
        end
    end.

Definition sizes : list Z := [4; 6; 8; 10; 12; 14; 16; 18; 20; 22; 24].

(** The keyboard of [font_size_menu]: the sizes in rows of four, the
    current one in brackets, and a row to go back. *)
Definition font_size_keyboard (current : Z) : list (list button) :=
  List.map
    (fun k =>
       List.map
         (fun size =>
            let text := if size =? current
                        then lit "[" ++ str_of_int size ++ lit "]"
                        else str_of_int size in
            Button text (lit "set_size_" ++ str_of_int size))
         (take 4 (drop (4 * k) sizes)))
    (seq 0 ((length sizes + 3) / 4))
  ++ [[Button back_label (lit "settings")]].

(** [font_size_menu(update, context)]; the calls: 3, 4, and the notice
    5. *)
Definition font_size_menu (d : dialog) (s : session)
    : option cb_exn * session :=
  too_old_handler d 5
    match call d 3 with
    | Raises e => (Some e, s)
    | Returns =>
        let size := default 24 (font_size (data s)) in
        match call d 4 with
        | Raises e => (Some e, s)
        | Returns =>
            (None, show (FontSizeScreen size (font_size_keyboard size)) s)
        end
    end.

(** [set_font_size(update, context)]; [query.answer()] is call 6. *)
Definition set_font_size (d : dialog) (query_data : pystr) (s : session)
    : option cb_exn * session :=
  pass_telegram_error
    match call d 6 with
    | Raises e => (Some e, s)
    | Returns =>
        match py_int (py d) (last_piece (split_on 95 query_data)) with
        | None => (Some OtherErr, s)
        | Some size =>
            settings d
              (Session (UserData (Some size) (font_color (data s))) (shown s))
        end
    end.

Definition color_options : list (pystr * pystr) :=
  [([1500; 1489; 1503; 32; 9898]%N, lit "white");
   ([1510; 1492; 1493; 1489; 32; 128993]%N, lit "yellow");
   ([1513; 1495; 1493; 1512; 32; 9899]%N, lit "black");
   ([1488; 1491; 1493; 1501; 32; 128308]%N, lit "tomato")].

Definition font_color_keyboard (current : pystr) : list (list button) :=
  List.map
    (fun option =>
       let text := if decide (option.2 = current)
                   then lit "[" ++ option.1 ++ lit "]" else option.1 in
       [Button text (lit "set_color_" ++ option.2)])
    color_options
  ++ [[Button back_label (lit "settings")]].

(** [font_color_menu(update, context)]; the calls: 7, 8. *)
Definition font_color_menu (d : dialog) (s : session)
    : option cb_exn * session :=
  pass_telegram_error
    match call d 7 with
    | Raises e => (Some e, s)
    | Returns =>
        let color := default (lit "white") (font_color (data s)) in
        match call d 8 with
        | Raises e => (Some e, s)
        | Returns => (None, show (FontColorScreen (font_color_keyboard color)) s)
        end
    end.

(** [set_font_color(update, context)]; [query.answer()] is call 9. *)
Definition set_font_color (d : dialog) (query_data : pystr) (s : session)
    : option cb_exn * session :=
  pass_telegram_error
    match call d 9 with
    | Raises e => (Some e, s)
    | Returns =>
        let color := last_piece (split_on 95 query_data) in
        settings d
          (Session (UserData (font_size (data s)) (Some color)) (shown s))
    end.

(** [main_menu(update, context)]; the calls: 10, 11. *)
Definition main_menu (d : dialog) (s : session) : option cb_exn * session :=
  pass_telegram_error
    match call d 10 with
    | Raises e => (Some e, s)
    | Returns =>
        match call d 11 with
        | Raises e => (Some e, s)
        | Returns =>
            (None,
             show (MainMenuScreen [[Button settings_label (lit "settings")]]) s)
        end
    end.

(** [handle_callback_safely(update, context)]: the data of the button
    ([None] when the query carries none, and [startswith] raises) chooses
    the handler; whatever a handler raises is logged and dropped. *)
Definition handle_callback_safely (d : dialog) (query_data : option pystr)
    (s : session) : session :=
  match query_data with
  | None => s
  | Some callback_data =>
      (if decide (callback_data = lit "settings") then settings d s
       else if decide (callback_data = lit "font_size") then font_size_menu d s
       else if decide (callback_data = lit "font_color")
            then font_color_menu d s
       else if decide (callback_data = lit "main_menu") then main_menu d s
       else if starts_with (lit "set_size_") callback_data
            then set_font_size d callback_data s
       else if starts_with (lit "set_color_") callback_data
            then set_font_color d callback_data s
       else (None, s)).2
  end.

(** An interpreter that knows the ASCII digits only and limits numerals to
    4300 digits, and a chat in which every call goes through. *)
Definition plain_python : python := Python (fun _ => None) 4300.

Definition smooth_dialog : dialog := Dialog plain_python (fun _ => Returns).

Definition new_session : session := Session (UserData None None) [].

(* ===================================================================== *)
(** * Part II: properties                                                 *)
(* ===================================================================== *)

(** ** Punctuation spacing *)

#[local] Arguments N.eqb : simpl never.

Section Punctuation.

Variable mark : N.
Hypothesis mark_not_space : isspace mark = false.

Lemma space_is_not_mark : (32 =? mark)%N = false.
Proof using mark_not_space.
  destruct (N.eqb_spec 32 mark) as [E|]; [|done].
  subst mark. vm_compute in mark_not_space. discriminate.
Qed.

Lemma re_sub_mark_head text :
  followed_by_space (re_sub_mark mark text) = followed_by_space text.
Proof using Type.
  destruct text as [|c rest]; [done|]. simpl.
  destruct (N.eqb_spec c mark) as [->|]; simpl;
    [destruct (followed_by_space rest)|]; done.
Qed.

Lemma re_sub_mark_spaced text : spaced mark (re_sub_mark mark text) = true.
Proof using mark_not_space.
  induction text as [|c rest IH]; [done|]. simpl.
  destruct (N.eqb_spec c mark) as [->|Hne]; simpl.
  - destruct (followed_by_space rest) eqn:Hf; simpl.
    + rewrite N.eqb_refl, re_sub_mark_head, Hf. simpl. exact IH.
    + rewrite N.eqb_refl, space_is_not_mark. simpl. exact IH.
  - apply N.eqb_neq in Hne. rewrite Hne. simpl. exact IH.
Qed.

Lemma re_sub_mark_fixed text :
  spaced mark text = true -> re_sub_mark mark text = text.
Proof using Type.
  induction text as [|c rest IH]; [done|]. simpl.
  intros [H1 H2]%andb_true_iff. rewrite (IH H2).
  destruct (c =? mark)%N; simpl in *; [|done]. by rewrite H1.
Qed.

Lemma re_sub_mark_keeps other text :
  isspace other = false ->
  spaced other text = true -> spaced other (re_sub_mark mark text) = true.
Proof using Type.
  intros Hother. induction text as [|c rest IH]; [done|]. simpl.
  intros [H1 H2]%andb_true_iff.
  destruct ((c =? mark)%N && negb (followed_by_space rest)) eqn:Hc; simpl.
  - rewrite (IH H2), !andb_true_r.
    assert ((32 =? other)%N = false) as ->.
    { destruct (N.eqb_spec 32 other) as [E|]; [|done].
      subst other. vm_compute in Hother. discriminate. }
    simpl. by rewrite orb_true_r.
  - by rewrite re_sub_mark_head, H1, (IH H2).
Qed.

(** A text that ends in another character still ends in it. *)
Lemma re_sub_mark_last_other text c :
  c <> mark -> exists r, re_sub_mark mark (text ++ [c]) = r ++ [c].
Proof using Type.
  intros Hc. induction text as [|d rest [r IH]]; simpl.
  - apply N.eqb_neq in Hc. rewrite Hc. by exists [].
  - rewrite IH.
    destruct ((d =? mark)%N && negb (followed_by_space (rest ++ [c]))).
    + by exists (mark :: 32%N :: r).
    + by exists (d :: r).
Qed.

(** A text that ends in the mark gets its space. *)
Lemma re_sub_mark_last_mark text :
  exists r, re_sub_mark mark (text ++ [mark]) = r ++ [mark; 32%N].
Proof using Type.
  induction text as [|d rest [r IH]]; simpl.
  - rewrite N.eqb_refl. by exists [].
  - rewrite IH.
    destruct ((d =? mark)%N && negb (followed_by_space (rest ++ [mark]))).
    + by exists (mark :: 32%N :: r).
    + by exists (d :: r).
Qed.

(** A text that ends in a character and a space keeps both. *)
Lemma re_sub_mark_last_spaced text c :
  exists r, re_sub_mark mark (text ++ [c; 32%N]) = r ++ [c; 32%N].
Proof using mark_not_space.
  induction text as [|d rest [r IH]]; simpl.
  - rewrite space_is_not_mark, andb_false_r. simpl. by exists [].
  - rewrite IH.
    destruct ((d =? mark)%N && negb (followed_by_space (rest ++ [c; 32%N]))).
    + by exists (mark :: 32%N :: r).
    + by exists (d :: r).
Qed.

End Punctuation.

Lemma marks_not_space mark :
  In mark punctuation_marks -> isspace mark = false.
Proof.
  cbv [punctuation_marks lit List.map list_ascii_of_string N_of_ascii
       N_of_digits In].
  intros H. repeat (destruct H as [<-|H]; [done|]). destruct H.
Qed.

Lemma spacing_pass_keeps marks other text :
  (forall m, In m marks -> isspace m = false) ->
  isspace other = false ->
  spaced other text = true -> spaced other (spacing_pass marks text) = true.
Proof.
  revert text. induction marks as [|m marks IH]; intros text Hm Ho Hs; [done|].
  simpl. apply IH; [intros; apply Hm; by right|done|].
  by apply re_sub_mark_keeps.
Qed.

Lemma spacing_pass_spaced marks text m :
  (forall m, In m marks -> isspace m = false) ->
  In m marks -> spaced m (spacing_pass marks text) = true.
Proof.
  revert text. induction marks as [|m0 marks IH]; intros text Hm Hin; [done|].
  simpl. destruct Hin as [->|Hin].
  - apply spacing_pass_keeps; [intros; apply Hm; by right|apply Hm; by left|].
    apply re_sub_mark_spaced, Hm. by left.
  - apply IH; [intros; apply Hm; by right|done].
Qed.

Lemma spacing_pass_fixed marks text :
  (forall m, In m marks -> spaced m text = true) ->
  spacing_pass marks text = text.
Proof.
  induction marks as [|m marks IH]; intros Hs; [done|].
  simpl. rewrite re_sub_mark_fixed by (apply Hs; by left).
  apply IH. intros; apply Hs; by right.
Qed.

Lemma spacing_pass_last_spaced marks text c :
  (forall m, In m marks -> isspace m = false) ->
  exists r, spacing_pass marks (text ++ [c; 32%N]) = r ++ [c; 32%N].
Proof.
  revert text. induction marks as [|m marks IH]; intros text Hm; simpl.
  - by exists text.
  - destruct (re_sub_mark_last_spaced m (Hm m (or_introl eq_refl)) text c)
      as [r ->].
    apply IH. intros; apply Hm; by right.
Qed.

Lemma spacing_pass_last_mark marks text c :
  (forall m, In m marks -> isspace m = false) ->
  In c marks ->
  exists r, spacing_pass marks (text ++ [c]) = r ++ [c; 32%N].
Proof.
  revert text. induction marks as [|m marks IH]; intros text Hm Hin; [done|].
  simpl. destruct (N.eq_dec c m) as [->|Hne].
  - destruct (re_sub_mark_last_mark m text) as [r ->].
    apply spacing_pass_last_spaced. intros; apply Hm; by right.
  - destruct (re_sub_mark_last_other m text c Hne) as [r ->].
    apply IH; [intros; apply Hm; by right|].
    destruct Hin as [->|]; done.
Qed.

Lemma add_space_is_pass text :
  add_space_after_punctuation text = spacing_pass punctuation_marks text.
Proof.
  unfold add_space_after_punctuation. destruct text; [|done].
  by vm_compute.
Qed.

(** C4.  The punctuation spacing is idempotent: applying
    [add_space_after_punctuation] to its own result changes nothing, for
    every string. *)
Theorem add_space_after_punctuation_idempotent (x : pystr) :
  add_space_after_punctuation (add_space_after_punctuation x)
  = add_space_after_punctuation x.
Proof.
  rewrite !add_space_is_pass. apply spacing_pass_fixed.
  intros m Hm. apply spacing_pass_spaced; [apply marks_not_space|done].
Qed.

(** C10.  A string that ends in one of the handled punctuation characters
    gets a space after that last character too: the end of the string
    counts as "not followed by whitespace", so the result ends in the
    character and a space. *)
Theorem add_space_after_final_punctuation (text : pystr) (mark : N) :
  In mark punctuation_marks ->
  exists r, add_space_after_punctuation (text ++ [mark]) = r ++ [mark; 32%N].
Proof.
  intros Hin. rewrite add_space_is_pass.
  apply spacing_pass_last_mark; [apply marks_not_space|done].
Qed.

Lemma add_space_after_final_punctuation_witness :
  In 63%N punctuation_marks /\
  exists r, add_space_after_punctuation (lit "How are you" ++ [63%N])
            = r ++ [63%N; 32%N].
Proof.
  assert (In 63%N punctuation_marks) as Hin.
  { vm_compute. do 3 right. by left. }
  split; [exact Hin|].
  exact (add_space_after_final_punctuation (lit "How are you") 63%N Hin).
Defined.

(** ** Translation of one text *)

Lemma translate_loop_fails tr text n remaining :
  (forall k s, tr_fails (translate tr k s) = true) ->
  (translate_loop tr text n remaining).1 = text.
Proof.
  intros Hf. induction remaining as [|r IH]; [done|].
  cbn [translate_loop]. specialize (Hf (n - S r)%nat (strip text)).
  destruct (translate tr (n - S r) (strip text)) as [t| |]; simpl in *.
  - destruct (truthy t); [done|]. exact IH.
  - exact IH.
  - by destruct (n - S r <? n - 1)%nat.
Qed.

Lemma sleeps_cons ev evs :
  sleeps (ev :: evs)
  = match ev with Sleep millis => millis :: sleeps evs | _ => sleeps evs end.
Proof. by destruct ev. Qed.

Lemma translate_calls_cons ev evs :
  translate_calls (ev :: evs)
  = match ev with
    | TranslateCall k => k :: translate_calls evs
    | _ => translate_calls evs
    end.
Proof. by destruct ev. Qed.

Lemma translate_loop_calls tr text n remaining :
  (remaining <= n)%nat ->
  (forall k s, tr_fails (translate tr k s) = true) ->
  translate_calls (translate_loop tr text n remaining).2
  = seq (n - remaining) remaining.
Proof.
  intros Hle Hf. induction remaining as [|r IH]; [done|].
  cbn [translate_loop]. pose proof (Hf (n - S r)%nat (strip text)) as Hk.
  specialize (IH ltac:(lia)).
  replace (n - r)%nat with (S (n - S r)) in IH by lia.
  destruct (translate tr (n - S r) (strip text)) as [t| |]; cbn [tr_fails] in Hk.
  - destruct (truthy t); [done|]. cbn [snd seq].
    by rewrite translate_calls_cons, IH.
  - cbn [snd seq]. by rewrite translate_calls_cons, IH.
  - destruct (n - S r <? n - 1)%nat; cbn [snd seq];
      rewrite !translate_calls_cons, IH; done.
Qed.

Lemma translate_loop_sleeps tr text n remaining :
  (remaining <= n)%nat ->
  Forall (fun millis => millis = 1000)
    (sleeps (translate_loop tr text n remaining).2)
  /\ (length (sleeps (translate_loop tr text n remaining).2)
      <= remaining - 1)%nat.
Proof.
  induction remaining as [|r IH]; intros Hle; [by split; [constructor|]|].
  cbn [translate_loop]. destruct (IH ltac:(lia)) as [IH1 IH2].
  destruct (translate tr (n - S r) (strip text)) as [t| |].
  - destruct (truthy t); cbn [snd]; rewrite sleeps_cons.
    + split; [constructor|cbn; lia].
    + split; [done|lia].
  - cbn [snd]. rewrite sleeps_cons. split; [done|lia].
  - destruct (n - S r <? n - 1)%nat eqn:Hlt; cbn [snd]; rewrite !sleeps_cons.
    + apply Nat.ltb_lt in Hlt. split; [by constructor|cbn [length]; lia].
    + split; [done|lia].
Qed.

(** ** Translation of all segments *)

Lemma process_segment_times tr total i s :
  List.map times (process_segment tr total i s).1
  = if has_text s then [times s] else [].
Proof.
  unfold process_segment, has_text.
  destruct (truthy (strip (get_text s))); simpl; [|done].
  by destruct (translate_text_safe tr (strip (get_text s)) 3) as [[t|] ev].
Qed.

Lemma process_segments_loop_times service total i segments :
  List.map times (process_segments_loop service total i segments).1
  = List.map times (List.filter has_text segments).
Proof.
  revert i. induction segments as [|s rest IH]; intros i; [done|].
  cbn [process_segments_loop fst List.filter]. rewrite List.map_app.
  rewrite process_segment_times, IH. by destruct (has_text s).
Qed.

Lemma lstrip_idempotent s : lstrip (lstrip s) = lstrip s.
Proof.
  induction s as [|c rest IH]; [done|]. cbn [lstrip].
  destruct (isspace c) eqn:Hc; [done|]. cbn [lstrip]. by rewrite Hc.
Qed.

Lemma lstrip_keeps_tail l c :
  isspace c = false -> exists l', lstrip (l ++ [c]) = l' ++ [c].
Proof.
  intros Hc. induction l as [|d rest IH]; cbn [app lstrip].
  - rewrite Hc. by exists [].
  - destruct (isspace d); [done|]. by exists (d :: rest).
Qed.

Lemma rstrip_idempotent s : rstrip (rstrip s) = rstrip s.
Proof. unfold rstrip. by rewrite rev_involutive, lstrip_idempotent. Qed.

Lemma strip_idempotent s : strip (strip s) = strip s.
Proof.
  unfold strip. destruct (lstrip s) as [|c rest] eqn:Hl; [done|].
  assert (isspace c = false) as Hc.
  { clear -Hl. induction s as [|d s IH]; [done|]. cbn [lstrip] in Hl.
    destruct (isspace d) eqn:Hd; [by apply IH|congruence]. }
  destruct (lstrip_keeps_tail (rev rest) c Hc) as [l' Hl'].
  assert (rstrip (c :: rest) = c :: rev l') as Hr.
  { unfold rstrip. cbn [rev]. by rewrite Hl', rev_app_distr. }
  rewrite Hr. cbn [lstrip]. rewrite Hc, <- Hr. apply rstrip_idempotent.
Qed.

Lemma process_segments_loop_fails service total i segments :
  (forall j k text, tr_fails (translate (service j) k text) = true) ->
  (process_segments_loop service total i segments).1
  = concat (imap (fun j s =>
                    if has_text s
                    then [fallback (translator_init (service (i + j)%nat)) s]
                    else [])
                 segments).
Proof.
  intros Hf. revert i. induction segments as [|s rest IH]; intros i; [done|].
  cbn [process_segments_loop fst]. rewrite imap_cons. cbn [concat].
  rewrite IH, Nat.add_0_r. f_equal.
  - unfold process_segment, has_text, fallback, untranslated.
    destruct (truthy (strip (get_text s))) eqn:Ht; cbn [negb]; [|done].
    unfold translate_text_safe.
    rewrite strip_idempotent, Ht. cbn [negb orb].
    destruct (translator_init (service i)); [|done].
    cbn [fst]. by rewrite translate_loop_fails.
  - f_equal. apply imap_ext. intros j x _. cbn.
    by replace (i + S j)%nat with (S (i + j)) by lia.
Qed.



(** C9.  The translation pass changes texts only: the segments it emits
    carry, in the order of the input, the start and end of the input
    segments they come from (those with a text). *)
Theorem process_segments_safe_preserves_times (service : nat -> translator)
    (segments : list seg_dict) :
  List.map times (process_segments_safe service segments).1
  = List.map times (List.filter has_text segments).
Proof. apply process_segments_loop_times. Qed.

(** C7 as stated fails: with the service down, the text that reaches the
    subtitles is not the original one - "How are you?" gets a trailing
    space. *)
Lemma untranslated_text_is_not_original :
  translator_init tr_unreachable = true
  /\ (forall k text, tr_fails (translate tr_unreachable k text) = true)
  /\ List.map get_text
       (process_segments_safe (fun _ => tr_unreachable) hello_segments).1
     <> List.map get_text hello_segments.
Proof. split; [done|]. split; [done|]. vm_compute. discriminate. Qed.

(** ** The subtitle file *)

Lemma srt_entries_spec index segments :
  srt_entries index segments
  = concat (imap (fun i s => srt_entry (index + Z.of_nat i) s)
                 (emitted segments)).
Proof.
  revert index. induction segments as [|s rest IH]; intros index; [done|].
  cbn [srt_entries emitted List.filter].
  destruct (truthy (get_text s)); cbn [negb]; [|apply IH].
  rewrite imap_cons. cbn [concat]. rewrite IH.
  fold (emitted rest).
  rewrite (imap_ext (_ ∘ S) (fun i s => srt_entry (index + 1 + Z.of_nat i) s)
             (emitted rest)).
  2: { intros i x _. cbn. f_equal. lia. }
  unfold srt_entry at 2, four_lines. cbn [Z.of_nat]. rewrite Z.add_0_r.
  cbn [app]. by rewrite <- !app_assoc.
Qed.

Lemma line_feeds_app a b : line_feeds (a ++ b) = (line_feeds a + line_feeds b)%nat.
Proof. unfold line_feeds. by rewrite List.filter_app, length_app. Qed.

Lemma one_line_app a b : one_line (a ++ b) = one_line a && one_line b.
Proof. apply forallb_app. Qed.

Lemma one_line_no_feed text : one_line text = true -> line_feeds text = 0%nat.
Proof.
  unfold one_line, line_feeds. induction text as [|c rest IH]; [done|].
  cbn. intros [Hc Hr]%andb_true_iff.
  destruct (c =? 10)%N; [done|]. by apply IH.
Qed.

Lemma digits_fuel_one_line fuel n acc :
  one_line acc = true -> one_line (digits_fuel fuel n acc) = true.
Proof.
  revert n acc. induction fuel as [|fuel IH]; intros n acc Hacc; [done|].
  cbn [digits_fuel].
  assert (one_line ((48 + Z.to_N (n mod 10))%N :: acc) = true) as Hcons.
  { cbn [one_line forallb]. fold (one_line acc). rewrite Hacc, andb_true_r.
    apply negb_true_iff, N.eqb_neq. lia. }
  destruct (n <? 10); [done|]. by apply IH.
Qed.

Lemma format_d_one_line width z : one_line (format_d width z) = true.
Proof.
  unfold format_d. rewrite !one_line_app.
  repeat (apply andb_true_iff; split).
  - by destruct (z <? 0).
  - unfold one_line. apply forallb_forall. by intros c ->%repeat_spec.
  - by apply digits_fuel_one_line.
Qed.

Lemma format_srt_time_one_line seconds :
  one_line (format_srt_time seconds) = true.
Proof.
  unfold format_srt_time.
  destruct (py_float seconds) as [x|]; cbn [mbind option_bind]; [|done].
  repeat match goal with
         | |- context [int_of_float ?a] =>
             destruct (int_of_float a); cbn [mbind option_bind]
         end; try done.
  rewrite !one_line_app, !format_d_one_line. done.
Qed.

Lemma srt_entry_line_feeds index s :
  line_feeds (srt_entry index s) = (4 + line_feeds (get_text s))%nat.
Proof.
  unfold srt_entry, four_lines. rewrite !line_feeds_app.
  rewrite !(one_line_no_feed (str_of_int _)) by apply format_d_one_line.
  rewrite !(one_line_no_feed (format_srt_time _))
    by apply format_srt_time_one_line.
  change (line_feeds newline) with 1%nat.
  change (line_feeds (lit " --> ")) with 0%nat.
  change (line_feeds []) with 0%nat. lia.
Qed.

(** C8 (as amended).  [create_srt_file_safe] leaves out every segment
    whose text is empty, numbers the entries it writes 1, 2, 3, ... and
    writes each of them as the index, [start --> end], the text and an
    empty line, each closed by a line feed: four lines when the text is a
    single line, and one more for every line feed in the text. *)
Theorem create_srt_file_safe_content (e : env) (segments : list seg_dict)
    (user_id : Z) (w : world) :
  srt_write e = IoOk ->
  exists srt_path w',
    create_srt_file_safe e segments user_id w = (Ok srt_path, w')
    /\ files w' !! srt_path
       = Some (TextFile
                 (concat (imap (fun i s => srt_entry (1 + Z.of_nat i) s)
                               (emitted segments))))
    /\ Forall (fun s => truthy (get_text s) = true) (emitted segments)
    /\ forall i s, emitted segments !! i = Some s ->
                   line_feeds (srt_entry (1 + Z.of_nat i) s)
                   = (4 + line_feeds (get_text s))%nat.
Proof.
  intros Hw. unfold create_srt_file_safe, create_file. rewrite Hw.
  eexists _, _. split; [reflexivity|]. cbn [files set_files].
  split; [by rewrite lookup_insert_eq, <- srt_entries_spec|].
  split; [|intros; by apply srt_entry_line_feeds].
  unfold emitted. apply List.Forall_forall. by intros s [_ ?]%filter_In.
Qed.

Lemma create_srt_file_safe_content_witness :
  srt_write idle_env = IoOk
  /\ exists srt_path w',
       create_srt_file_safe idle_env segments_with_silence 7 fresh_world
       = (Ok srt_path, w').
Proof.
  split; [reflexivity|].
  destruct (create_srt_file_safe_content idle_env segments_with_silence 7
              fresh_world eq_refl)
    as (srt_path & w' & H & _).
  exists srt_path, w'. exact H.
Defined.

(** C8 as stated fails: an entry is not always four lines.  A text with
    a line feed - here [Hello] and [there] on two lines - is written as it
    is, and the entry takes five lines. *)
Lemma create_srt_file_safe_five_lines :
  exists srt_path w',
    create_srt_file_safe idle_env [two_line_segment] 7 fresh_world
    = (Ok srt_path, w')
    /\ files w' !! srt_path
       = Some (TextFile (srt_entry 1 two_line_segment))
    /\ line_feeds (srt_entry 1 two_line_segment) = 5%nat.
Proof.
  eexists _, _. split; [reflexivity|]. split; by vm_compute.
Qed.

(** ** Download *)

Lemma one_attempt_class max_retries attempt a :
  one_attempt max_retries attempt a
  = match class a with
    | Success => Return true MsgDownloaded
    | Fatal reason => Return false reason
    | Network =>
        if (attempt <? max_retries - 1)%nat
        then SleepThenNext (1000 * 2 ^ Z.of_nat attempt) else NextAttempt
    | OtherFailure => NextAttempt
    end.
Proof.
  assert (forall e, on_error max_retries attempt e
                    = match error_class e with
                      | Success => Return true MsgDownloaded
                      | Fatal reason => Return false reason
                      | Network =>
                          if (attempt <? max_retries - 1)%nat
                          then SleepThenNext (1000 * 2 ^ Z.of_nat attempt)
                          else NextAttempt
                      | OtherFailure => NextAttempt
                      end) as Herr.
  { intros [msg| | |]; cbn [on_error error_class]; [|done..].
    by repeat destruct (contains _ msg). }
  destruct a as [e|[declared|] [e|[sz|]]]; cbn [one_attempt class];
    rewrite ?Herr; try done.
  - destruct (declared =? 0) eqn:E0; cbn [negb andb].
    + apply Z.eqb_eq in E0. subst declared. done.
    + by destruct (20 * 1024 * 1024 <? declared).
  - destruct (declared =? 0) eqn:E0; cbn [negb andb].
    + apply Z.eqb_eq in E0. subst declared. cbn. by destruct (100 <? sz).
    + destruct (20 * 1024 * 1024 <? declared); [done|]. by destruct (100 <? sz).
  - destruct (declared =? 0) eqn:E0; cbn [negb andb].
    + apply Z.eqb_eq in E0. subst declared. done.
    + by destruct (20 * 1024 * 1024 <? declared).
  - by destruct (100 <? sz).
Qed.

Lemma download_loop_shape net n remaining :
  (remaining <= n)%nat ->
  let r := download_loop net n remaining in
  exists k : nat,
    (k <= remaining)%nat
    /\ r.2 = flat_map (fun a => DownloadAttempt a :: backoff n a (net a))
                      (seq (n - remaining) k)
    /\ forallb (fun a => retriable (net a)) (seq (n - remaining) (k - 1)) = true
    /\ ((k = remaining
         /\ forallb (fun a => retriable (net a)) (seq (n - remaining) k) = true
         /\ r.1 = (false, MsgFailedAfterRetries))
        \/ exists j : nat,
             k = S j /\ final (net (n - remaining + j)%nat) r.1).
Proof.
  induction remaining as [|rem IH]; intros Hle; cbn zeta.
  { exists 0%nat. repeat split; try done. by left. }
  destruct (IH ltac:(lia)) as (k & Hk & Htr & Hall & Hend). clear IH.
  cbn [download_loop]. rewrite one_attempt_class.
  set (s := (n - S rem)%nat) in *.
  replace (n - rem)%nat with (S s) in * by lia.
  assert (forall ev,
             retriable (net s) = true -> ev = backoff n s (net s) ->
             exists k' : nat,
               (k' <= S rem)%nat
               /\ DownloadAttempt s :: ev ++ (download_loop net n rem).2
                  = flat_map
                      (fun a => DownloadAttempt a :: backoff n a (net a))
                      (seq s k')
               /\ forallb (fun a => retriable (net a)) (seq s (k' - 1)) = true
               /\ ((k' = S rem
                    /\ forallb (fun a => retriable (net a)) (seq s k') = true
                    /\ (download_loop net n rem).1
                       = (false, MsgFailedAfterRetries))
                   \/ exists j : nat,
                        k' = S j
                        /\ final (net (s + j)%nat) (download_loop net n rem).1))
    as Hcont.
  { intros ev Hs ->. exists (S k).
    assert (forallb (fun a => retriable (net a)) (seq s k) = true) as Hall'.
    { destruct k as [|k']; [done|]. cbn [seq forallb]. rewrite Hs.
      by replace (S k' - 1)%nat with k' in Hall by lia. }
    split; [lia|]. split.
    { cbn [seq flat_map]. by rewrite Htr. }
    split; [by replace (S k - 1)%nat with k by lia|].
    destruct Hend as [(-> & Hr & Hres)|(j & -> & Hfin)].
    - left. split; [done|]. split; [|done]. cbn [seq forallb]. by rewrite Hs.
    - right. exists (S j). split; [done|].
      by replace (s + S j)%nat with (S s + j)%nat by lia. }
  unfold retriable, backoff in Hcont.
  destruct (class (net s)) eqn:Hc.
  - exists 1%nat. split; [lia|]. cbn [seq flat_map fst snd app].
    unfold backoff. rewrite Hc. repeat split; [done..|].
    right. exists 0%nat. split; [done|]. unfold final.
    by rewrite Nat.add_0_r, Hc.
  - exists 1%nat. split; [lia|]. cbn [seq flat_map fst snd app].
    unfold backoff. rewrite Hc. repeat split; [done..|].
    right. exists 0%nat. split; [done|]. unfold final.
    by rewrite Nat.add_0_r, Hc.
  - replace (s <? n - 1)%nat with (S s <? n)%nat
      by (destruct (Nat.ltb_spec (S s) n), (Nat.ltb_spec s (n - 1)); lia).
    destruct (S s <? n)%nat; cbn [fst snd].
    + by apply (Hcont [Sleep (1000 * 2 ^ Z.of_nat s)]).
    + by apply (Hcont []).
  - cbn [fst snd]. by apply (Hcont []).
Qed.

(** C6 (as amended).  [download_file_safe] makes at most [max_retries]
    attempts, numbered from 0.  It goes on to the next attempt after every
    failure other than the fatal ones - network failures, but also any
    other error and a download that leaves no usable file - and pauses
    only after a network failure that is not the last allowed attempt, for
    [2 ** attempt] seconds.  A fatal failure (declared size above 20 MB,
    file too big, not found, invalid id) or a success ends the loop at once
    with its own result; when every allowed attempt has failed otherwise the
    result is the fixed "failed after several attempts". *)
Theorem download_file_safe_policy (net : nat -> attempt_end)
    (max_retries : nat) :
  let r := download_file_safe net max_retries in
  exists k : nat,
    (k <= max_retries)%nat
    /\ r.2 = flat_map
               (fun a => DownloadAttempt a :: backoff max_retries a (net a))
               (seq 0 k)
    /\ forallb (fun a => retriable (net a)) (seq 0 (k - 1)) = true
    /\ ((k = max_retries
         /\ forallb (fun a => retriable (net a)) (seq 0 k) = true
         /\ r.1 = (false, MsgFailedAfterRetries))
        \/ exists j : nat, k = S j /\ final (net j) r.1).
Proof.
  pose proof (download_loop_shape net max_retries max_retries (le_n _)) as H.
  cbn zeta in H. rewrite Nat.sub_diag in H. exact H.
Qed.

(** C6 as stated fails: an attempt that fails for a reason other than the
    network (here an error while the file is written) is retried as well,
    and at once. *)
Lemma download_retries_without_network_failure :
  download_file_safe net_disk_hiccup 2
  = ((true, MsgDownloaded), [DownloadAttempt 0; DownloadAttempt 1])
  /\ class (net_disk_hiccup 0) <> Network.
Proof. split; [reflexivity|]. vm_compute. discriminate. Qed.

(** A file that can never be reached: three attempts, pauses of 1 s and
    2 s, and the fixed reason. *)
Example download_file_safe_unreachable :
  download_file_safe net_down 3
  = ((false, MsgFailedAfterRetries),
     [DownloadAttempt 0; Sleep 1000; DownloadAttempt 1; Sleep 2000;
      DownloadAttempt 2]).
Proof. reflexivity. Qed.

(** ** The working directory *)

Lemma safe_remove_cwd e path remaining w :
  cwd (safe_remove e path remaining w) = cwd w.
Proof.
  revert w. induction remaining as [|r IH]; intros w; [done|].
  cbn [safe_remove].
  destruct (path_exists path w && (remove_raises e path <=? 3 - S r)%nat);
    [done|].
  destruct (3 - S r <? 3 - 1)%nat; [|done]. by rewrite IH.
Qed.

Lemma cleanup_files_cwd e file_paths w :
  cwd (cleanup_files e file_paths w) = cwd w.
Proof.
  revert w. induction file_paths as [|[path|] rest IH]; intros w;
    cbn [cleanup_files]; [done| |by rewrite IH].
  rewrite IH. destruct (truthy path && path_exists path w); [|done].
  apply safe_remove_cwd.
Qed.

Lemma create_file_cwd how path f w :
  cwd (create_file how path f w).2 = cwd w.
Proof. by destruct how. Qed.

Lemma copyfile_cwd how src dst w : cwd (copyfile how src dst w).2 = cwd w.
Proof.
  unfold copyfile. destruct (files w !! src); [|done]. apply create_file_cwd.
Qed.

Lemma leave_output_cwd path out w : cwd (leave_output path out w) = cwd w.
Proof. by destruct out. Qed.

(** The working directory after [embed_subtitles_safe]: the one it found,
    unless the directory was changed and no [os.chdir(original_dir)] that
    the function reached went through - then it is [SIMPLE_TEMP_DIR], and
    the function ends with [OSError]. *)
Lemma embed_subtitles_safe_cwd_cases (e : env)
    (video_path srt_path : pystr) (user_id : Z) (w : world) :
  let r := embed_subtitles_safe e video_path srt_path user_id w in
  cwd r.2 = cwd w
  \/ (r.1 = Raise OSError
      /\ cwd r.2 = simple_temp_dir e
      /\ chdir_ok e = true
      /\ handler_restore_ok e = false
      /\ (restore_ok e = false \/ forall rc, burn_run e <> Exit rc)).
Proof.
  cbn zeta. unfold embed_subtitles_safe, embed_try.
  set (v := temp_name e "v" user_id (time_embed e) ".mp4").
  set (s := temp_name e "s" user_id (time_embed e) ".srt").
  set (o := temp_name e "o" user_id (time_embed e) ".mp4").
  pose proof (copyfile_cwd (copy_video e) video_path v w) as H1.
  destruct (copyfile (copy_video e) video_path v w) as [[[]|x1] w1];
    cbn [snd] in H1; [|by left].
  pose proof (copyfile_cwd (copy_srt e) srt_path s w1) as H2.
  destruct (copyfile (copy_srt e) srt_path s w1) as [[[]|x2] w2];
    cbn [snd] in H2; [|left; cbn; congruence].
  rewrite <- H1, <- H2. unfold embed_except.
  destruct (chdir_ok e); cbn [negb].
  2: { left. destruct (handler_restore_ok e); cbn [negb snd]; [|done].
       by rewrite cleanup_files_cwd. }
  destruct (handler_restore_ok e) eqn:Hh; cbn [negb].
  - left. destruct (burn_run e) as [returncode| |].
    + destruct (restore_ok e); cbn [negb snd];
        [|by rewrite cleanup_files_cwd].
      destruct (returncode =? 0); cbn [negb snd];
        [|by rewrite cleanup_files_cwd].
      destruct (exists_larger_than _ _ _); [done|].
      cbn [snd]. by rewrite cleanup_files_cwd.
    + cbn [snd]. by rewrite cleanup_files_cwd.
    + cbn [snd]. by rewrite cleanup_files_cwd.
  - destruct (burn_run e) as [returncode| |] eqn:Hb.
    + destruct (restore_ok e) eqn:Hr; cbn [negb snd].
      * left. destruct (returncode =? 0); cbn [negb snd]; [|done].
        by destruct (exists_larger_than _ _ _).
      * right. cbn [fst snd]. rewrite leave_output_cwd.
        repeat split; try done. by left.
    + right. cbn [fst snd]. rewrite leave_output_cwd.
      repeat split; try done. by right.
    + right. cbn [fst snd]. rewrite leave_output_cwd.
      repeat split; try done. by right.
Qed.




(** ** Temporary files *)

(** C2.  The ledger invariant does not hold of the code as it is.  After
    a job in which every stage succeeds, the audio file, the subtitle file
    and the output file are gone, but the two scratch copies made for the
    transcoder
    ([v_7_1700000004.mp4] and [s_7_1700000004.srt]) are still on disk:
    [embed_subtitles_safe] removes them only in its [except] clauses. *)
Theorem scratch_copies_survive_success :
  let r := process_video_complete smooth_env input_video 7 start_world in
  r.1 = Ok tt
  /\ path_exists (lit "/home/bot/tempfiles/audio_7_1700000000.wav") r.2 = false
  /\ path_exists (lit "/home/bot/tempfiles/subs_7_1700000003.srt") r.2 = false
  /\ path_exists (lit "/home/bot/tempfiles/o_7_1700000004.mp4") r.2 = false
  /\ path_exists (lit "/home/bot/tempfiles/v_7_1700000004.mp4") r.2 = true
  /\ path_exists (lit "/home/bot/tempfiles/s_7_1700000004.srt") r.2 = true.
Proof. vm_compute. repeat split. Qed.

(** A second leak, on a failure path: when the copy of the subtitle file
    fails, the handler stops at [os.chdir(original_dir)] - the name is not
    bound yet - and the scratch copy of the video is never removed. *)
Example scratch_video_survives_copy_failure :
  let r := process_video_complete srt_copy_fails_env input_video 7 start_world
  in
  r.1 = Raise UnboundLocalError
  /\ path_exists (lit "/home/bot/tempfiles/v_7_1700000004.mp4") r.2 = true.
Proof. vm_compute. repeat split. Qed.

(** ** Binary64 arithmetic *)

Lemma U_pos : 0 < U.
Proof. unfold U. apply Z.pow_pos_nonneg; lia. Qed.

Lemma pow2_pos p : 0 <= p -> 0 < 2 ^ p.
Proof. intros. apply Z.pow_pos_nonneg; lia. Qed.

Lemma pow2_split a b : 0 <= b <= a -> 2 ^ a = 2 ^ (a - b) * 2 ^ b.
Proof. intros. rewrite <- Z.pow_add_r by lia. f_equal. lia. Qed.

Lemma ulp_exp_nonneg n : 0 <= ulp_exp n.
Proof. unfold ulp_exp. lia. Qed.

(** Below [2 ^ b] units the exponent of the last place is at most
    [b - 53]. *)
Lemma ulp_exp_below n b : 53 <= b -> Z.abs n < 2 ^ b -> ulp_exp n <= b - 53.
Proof.
  intros Hb Hn. unfold ulp_exp.
  destruct (Z.eq_dec (Z.abs n) 0) as [->|Hz]; [cbn; lia|].
  assert (Z.log2 (Z.abs n) < b) by (apply Z.log2_lt_pow2; lia). lia.
Qed.

Lemma round_half_even_exact c b : 0 < b -> round_half_even (c * b) b = c.
Proof.
  intros Hb. unfold round_half_even.
  rewrite Z.div_mul, Z.mod_mul by lia.
  destruct (Z.ltb_spec (2 * 0) b); [done|lia].
Qed.

Lemma round_half_even_scale a b c :
  0 < b -> 0 < c -> round_half_even (a * c) (b * c) = round_half_even a b.
Proof.
  intros Hb Hc. unfold round_half_even.
  rewrite Z.div_mul_cancel_r, Z.mul_mod_distr_r by lia.
  pose proof (Z.mod_pos_bound a b Hb).
  destruct (Z.ltb_spec (2 * (a mod b)) b), (Z.ltb_spec (2 * (a mod b * c)) (b * c));
    try nia; try done.
  destruct (Z.ltb_spec b (2 * (a mod b))), (Z.ltb_spec (b * c) (2 * (a mod b * c)));
    try nia; done.
Qed.

(** A quotient that is a binary64 value is not rounded. *)
Lemma RN_exact c b :
  0 < b -> 0 <= c -> binary64 c -> RN (c * b) b = Finite c.
Proof.
  intros Hb Hc [Hrange Hmod]. unfold RN.
  rewrite Z.abs_eq in * by nia. rewrite Z.div_mul by lia.
  pose proof (pow2_pos (ulp_exp c) (ulp_exp_nonneg c)) as HP.
  set (P := 2 ^ ulp_exp c) in *. clearbody P.
  apply Z.mod_divide in Hmod; [|lia]. destruct Hmod as [c' ->].
  replace (c' * P * b) with (c' * (b * P)) by ring.
  rewrite round_half_even_exact by nia.
  destruct (Z.leb_spec (2 ^ 2098) (c' * P)); [lia|].
  f_equal. destruct (Z.eq_dec c' 0) as [->|]; [done|].
  rewrite Z.sgn_pos by nia. lia.
Qed.

(** The multiples of 1.0 below 2^53 are binary64 values. *)
Lemma binary64_int j : 0 <= j < 2 ^ 53 -> binary64 (j * U).
Proof.
  intros Hj. assert (0 <= j * U < 2 ^ 1127) as Hb.
  { pose proof U_pos. split; [nia|].
    rewrite (pow2_split 1127 1074) by lia. fold U. cbn [Z.sub]. nia. }
  split.
  - rewrite Z.abs_eq by lia. assert (2 ^ 1127 < 2 ^ 2098); [|lia].
    apply Z.pow_lt_mono_r; lia.
  - pose proof (ulp_exp_below (j * U) 1127 ltac:(lia)) as Hp.
    rewrite Z.abs_eq in Hp by lia. specialize (Hp ltac:(lia)).
    pose proof (ulp_exp_nonneg (j * U)) as Hp0.
    set (p := ulp_exp (j * U)) in *. clearbody p.
    unfold U. rewrite (pow2_split 1074 p), Z.mul_assoc by lia.
    apply Z.mod_mul. pose proof (pow2_pos p). lia.
Qed.

Lemma RN_zero : RN 0 1 = Finite 0.
Proof. reflexivity. Qed.

(** [x % d] of a non-negative float by a positive literal is exact. *)
Lemma float_mod_nonneg n d :
  0 <= n -> 0 < d -> float_mod (Finite n) (flt d) = Finite (n mod (d * U)).
Proof.
  intros Hn Hd. pose proof U_pos. unfold float_mod, flt, fmod.
  destruct (Z.eqb_spec (d * U) 0); [nia|].
  rewrite Z.rem_mod_nonneg by nia.
  pose proof (Z.mod_pos_bound n (d * U) ltac:(nia)).
  destruct (Z.ltb_spec (d * U) 0); [nia|].
  destruct (Z.ltb_spec (n mod (d * U)) 0); [lia|].
  by rewrite andb_false_r.
Qed.

(** [x // d] of a non-negative float below 2^53 by a positive literal is
    the exact integer quotient. *)
Lemma float_floordiv_nonneg n d :
  0 <= n < 2 ^ 53 * U -> 0 < d ->
  float_floordiv (Finite n) (flt d) = Finite (n / (d * U) * U).
Proof.
  intros Hn Hd. pose proof U_pos as HU. unfold float_floordiv, flt, fmod.
  destruct (Z.eqb_spec (d * U) 0); [nia|].
  rewrite Z.rem_mod_nonneg by nia.
  pose proof (Z.mod_pos_bound n (d * U) ltac:(nia)) as Hmd.
  pose proof (Z.div_mod n (d * U) ltac:(nia)) as Hdm.
  set (k := n / (d * U)) in *. set (md := n mod (d * U)) in *.
  assert (0 <= k) as Hk by (apply Z.div_pos; nia).
  assert (d * k < 2 ^ 53) as Hdk by nia.
  destruct (Z.ltb_spec (d * U) 0); [nia|].
  destruct (Z.ltb_spec md 0); [lia|]. rewrite andb_false_r.
  cbn [float_sub]. replace (n - md) with (d * k * U * 1) by lia.
  rewrite RN_exact by (try apply binary64_int; nia).
  cbn [float_div].
  destruct (Z.eqb_spec (d * U) 0); [nia|].
  rewrite Z.sgn_pos, Z.abs_eq by nia.
  replace (1 * (d * k * U) * U) with (k * U * (d * U)) by ring.
  rewrite RN_exact by (try apply binary64_int; nia).
  destruct (k * U) eqn:HkU; [done| |lia]. rewrite <- HkU.
  cbn [float_floor float_sub]. rewrite Z.div_mul by lia.
  rewrite Z.sub_diag, RN_zero.
  destruct (Z.ltb_spec U (2 * 0)); [lia|done].
Qed.

Lemma round_half_even_bounds a b :
  0 < b ->
  a / b <= round_half_even a b <= a / b + 1
  /\ (2 * (a mod b) < b -> round_half_even a b = a / b).
Proof.
  intros Hb. unfold round_half_even.
  destruct (Z.ltb_spec (2 * (a mod b)) b); [lia|].
  destruct (Z.ltb_spec b (2 * (a mod b))); [lia|].
  destruct (Z.even (a / b)); lia.
Qed.

(** The fraction of a second, times 1000: the product is rounded, but it
    stays below 1000 and within one of the exact product's integer part. *)
Lemma float_mul_1000 f :
  0 <= f <= U - 2 ^ 1021 ->
  exists m,
    float_mul (Finite f) (flt 1000) = Finite m
    /\ 1000 * f / U * U <= m <= (1000 * f / U + 1) * U
    /\ m < 1000 * U
    /\ ((1000 * f) mod U = 0 -> m = 1000 * f).
Proof.
  assert (1000 * U < 2 ^ 2098) as HO.
  { assert (2 ^ 1084 <= 2 ^ 2098) by (apply Z.pow_le_mono_r; lia).
    assert (2 ^ 1084 = 1024 * U) by (unfold U; by rewrite (pow2_split 1084 1074)).
    lia. }
  assert (forall y, 0 <= y < 1024 * U -> 0 <= ulp_exp y <= 1031) as Hulp.
  { intros y Hy. split; [apply ulp_exp_nonneg|].
    apply (ulp_exp_below y 1084); [lia|]. rewrite Z.abs_eq by lia.
    rewrite (pow2_split 1084 1074) by lia. fold U. cbn [Z.sub]. lia. }
  assert (forall p, 0 <= p <= 1031 -> 2 ^ p <= 1024 * 2 ^ 1021) as Hpow.
  { intros p Hp.
    replace (1024 * 2 ^ 1021) with (2 ^ 1031)
      by (by rewrite (pow2_split 1031 1021)).
    apply Z.pow_le_mono_r; lia. }
  assert (0 < 2 ^ 1021) as HT by (by apply pow2_pos).
  assert (U = 2 ^ 53 * 2 ^ 1021) as HUT
      by (unfold U; by rewrite (pow2_split 1074 1021)).
  unfold float_mul, flt, RN.
  set (T := 2 ^ 1021) in *. set (O := 2 ^ 2098) in *. clearbody T O.
  intros Hf. pose proof U_pos as HU.
  set (y := 1000 * f). replace (f * (1000 * U)) with (y * U) by (unfold y; ring).
  assert (0 <= y <= 1000 * U - 1000 * T) as Hy by (unfold y; lia).
  rewrite Z.abs_eq, Z.div_mul by nia.
  assert (0 <= ulp_exp y <= 1031) as Hp by (apply Hulp; lia).
  set (p := ulp_exp y) in *. clearbody p.
  pose proof (pow2_pos p ltac:(lia)) as HP.
  assert (2 ^ p <= 1024 * T) as HPT by (by apply Hpow).
  assert (exists K, U = K * 2 ^ p /\ 0 < K) as (K & HK & HK0).
  { exists (2 ^ (1074 - p)). split; [unfold U; apply pow2_split; lia|].
    apply pow2_pos. lia. }
  clear Hulp Hpow.
  set (P := 2 ^ p) in *. clearbody P.
  replace (U * P) with (P * U) by ring.
  rewrite round_half_even_scale by lia.
  destruct (round_half_even_bounds y P HP) as [HR HRlow].
  pose proof (Z.div_mod y P ltac:(lia)) as Hqr.
  pose proof (Z.mod_pos_bound y P HP) as Hr.
  pose proof (Z.div_mod y U ltac:(lia)) as Hju.
  pose proof (Z.mod_pos_bound y U HU) as Hru.
  set (R := round_half_even y P) in *. clearbody R.
  set (q := y / P) in *. set (r := y mod P) in *. clearbody q r.
  set (j := y / U) in *. set (ru := y mod U) in *. clearbody j ru.
  assert (0 <= j) by nia. assert (0 <= q) by nia.
  assert (j * K <= q) as Hlow by nia.
  assert (q + 1 <= (j + 1) * K) as Hup by nia.
  assert (R * P < 1000 * U) as Hlt.
  { destruct (Z_le_gt_dec q (1000 * K - 2)); [nia|].
    assert (q = 1000 * K - 1) as Hq by nia.
    assert (2 * r < P) as H2r by nia.
    rewrite (HRlow H2r). nia. }
  destruct (Z.leb_spec O (R * P)); [lia|].
  exists (Z.sgn (y * U) * (R * P)).
  split; [done|].
  assert (Z.sgn (y * U) * (R * P) = R * P) as ->.
  { destruct (Z.eq_dec y 0) as [Hy0|];
      [|rewrite Z.sgn_pos by nia; lia].
    rewrite Hy0. cbn. assert (q = 0 /\ r = 0) as [-> ->] by nia.
    rewrite HRlow by lia. lia. }
  split; [nia|]. split; [done|].
  intros ->. assert (r = 0) as -> by nia.
  rewrite HRlow by lia. nia.
Qed.

Lemma round_half_even_up a b :
  0 < b -> b <= 2 * (a mod b) -> Z.odd (a / b) = true ->
  round_half_even a b = a / b + 1.
Proof.
  intros Hb Hr Hodd. unfold round_half_even.
  destruct (Z.ltb_spec (2 * (a mod b)) b); [lia|].
  destruct (Z.ltb_spec b (2 * (a mod b))); [done|].
  by rewrite <- Z.negb_odd, Hodd.
Qed.

(** The binary64 product of a fraction of a second by 1000 has the integer
    part [milliseconds] says. *)
Lemma float_mul_1000_exact f :
  0 <= f <= U - 2 ^ 1021 ->
  exists m,
    float_mul (Finite f) (flt 1000) = Finite m
    /\ 0 <= m < 1000 * U
    /\ m / U = milliseconds f.
Proof.
  assert (1000 * U < 2 ^ 2098) as HO.
  { assert (2 ^ 1084 <= 2 ^ 2098) by (apply Z.pow_le_mono_r; lia).
    assert (2 ^ 1084 = 1024 * U) by (unfold U; by rewrite (pow2_split 1084 1074)).
    lia. }
  assert (forall y, 0 <= y < 1024 * U -> 0 <= ulp_exp y <= 1031) as Hulp.
  { intros y Hy. split; [apply ulp_exp_nonneg|].
    apply (ulp_exp_below y 1084); [lia|]. rewrite Z.abs_eq by lia.
    rewrite (pow2_split 1084 1074) by lia. fold U. cbn [Z.sub]. lia. }
  assert (forall p, 0 <= p <= 1031 -> 2 ^ p <= 1024 * 2 ^ 1021) as Hpow.
  { intros p Hp.
    replace (1024 * 2 ^ 1021) with (2 ^ 1031)
      by (by rewrite (pow2_split 1031 1021)).
    apply Z.pow_le_mono_r; lia. }
  assert (0 < 2 ^ 1021) as HT by (by apply pow2_pos).
  assert (U = 2 ^ 53 * 2 ^ 1021) as HUT
      by (unfold U; by rewrite (pow2_split 1074 1021)).
  unfold float_mul, flt, RN, milliseconds. cbn zeta.
  set (T := 2 ^ 1021) in *. set (O := 2 ^ 2098) in *. clearbody T O.
  intros Hf. pose proof U_pos as HU.
  set (y := 1000 * f). replace (f * (1000 * U)) with (y * U) by (unfold y; ring).
  assert (0 <= y <= 1000 * U - 1000 * T) as Hy by (unfold y; lia).
  rewrite Z.abs_eq, Z.div_mul by nia.
  assert (0 <= ulp_exp y <= 1031) as Hp by (apply Hulp; lia).
  set (p := ulp_exp y) in *. clearbody p.
  pose proof (pow2_pos p ltac:(lia)) as HP.
  assert (2 ^ p <= 1024 * T) as HPT by (by apply Hpow).
  assert (exists K, U = 2 * K * 2 ^ p /\ 0 < K) as (K & HK & HK0).
  { exists (2 ^ (1073 - p)). split; [|apply pow2_pos; lia].
    unfold U. rewrite (pow2_split 1074 p) by lia.
    replace (1074 - p) with (Z.succ (1073 - p)) by lia.
    rewrite Z.pow_succ_r by lia. ring. }
  clear Hulp Hpow.
  set (P := 2 ^ p) in *. clearbody P.
  replace (U * P) with (P * U) by ring.
  rewrite round_half_even_scale by lia.
  destruct (round_half_even_bounds y P HP) as [HR HRlow].
  pose proof (round_half_even_up y P HP) as HRup.
  pose proof (Z.div_mod y P ltac:(lia)) as Hqr.
  pose proof (Z.mod_pos_bound y P HP) as Hr.
  pose proof (Z.div_mod y U ltac:(lia)) as Hju.
  pose proof (Z.mod_pos_bound y U HU) as Hru.
  set (R := round_half_even y P) in *. clearbody R.
  set (q := y / P) in *. set (r := y mod P) in *. clearbody q r.
  set (j := y / U) in *. set (ru := y mod U) in *. clearbody j ru.
  assert (0 <= j) by nia. assert (0 <= q) by nia.
  assert (j * (2 * K) <= q) as Hlow by nia.
  assert (q + 1 <= (j + 1) * (2 * K)) as Hup by nia.
  assert (R * P < 1000 * U) as Hlt.
  { destruct (Z_le_gt_dec q (1000 * (2 * K) - 2)); [nia|].
    assert (q = 1000 * (2 * K) - 1) as Hq by nia.
    assert (2 * r < P) as H2r by nia.
    rewrite (HRlow H2r). nia. }
  destruct (Z.leb_spec O (R * P)); [lia|].
  exists (Z.sgn (y * U) * (R * P)).
  split; [done|].
  assert (Z.sgn (y * U) * (R * P) = R * P) as ->.
  { destruct (Z.eq_dec y 0) as [Hy0|];
      [|rewrite Z.sgn_pos by nia; lia].
    rewrite Hy0. cbn. assert (q = 0 /\ r = 0) as [-> ->] by nia.
    rewrite HRlow by lia. lia. }
  split; [split; [nia|done]|].
  destruct (Z.leb_spec (2 * ((j + 1) * U - y)) P) as [Hnear|Hfar].
  - assert (q = (j + 1) * (2 * K) - 1) as Hq by nia.
    assert (P <= 2 * r) as H2r by nia.
    assert (Z.odd q = true) as Hodd.
    { apply Z.odd_spec. exists ((j + 1) * K - 1). lia. }
    rewrite (HRup H2r Hodd).
    replace ((q + 1) * P) with ((j + 1) * U) by nia.
    by rewrite Z.div_mul by lia.
  - symmetry. apply (Z.div_unique _ _ _ (R * P - j * U)); [|lia].
    left. split; [nia|].
    destruct (Z_le_gt_dec q ((j + 1) * (2 * K) - 2)); [nia|].
    assert (q = (j + 1) * (2 * K) - 1) as Hq by nia.
    assert (2 * r < P) as H2r by nia.
    rewrite (HRlow H2r). nia.
Qed.

(** The integer part is raised only by a product that is within 2^-44 of
    the next integer. *)
Lemma milliseconds_cases f :
  0 <= f < U ->
  let exact := 1000 * f in
  exact / U <= milliseconds f <= exact / U + 1
  /\ (milliseconds f = exact / U + 1
      <-> 2 * ((exact / U + 1) * U - exact) <= 2 ^ ulp_exp exact)
  /\ (2 ^ 1030 < (exact / U + 1) * U - exact -> milliseconds f = exact / U)
  /\ (exact mod U = 0 -> milliseconds f = exact / U).
Proof.
  intros Hf. cbn zeta. unfold milliseconds. cbn zeta.
  assert (1024 * U = 2 ^ 1084) as H1084
      by (unfold U; by rewrite (pow2_split 1084 1074)).
  assert (ulp_exp (1000 * f) <= 1031) as Hp.
  { apply (ulp_exp_below _ 1084); [lia|]. rewrite Z.abs_eq by lia.
    rewrite <- H1084. lia. }
  pose proof (ulp_exp_nonneg (1000 * f)) as Hp0.
  assert (2 ^ ulp_exp (1000 * f) <= 2 * 2 ^ 1030) as HP.
  { replace (2 * 2 ^ 1030) with (2 ^ 1031)
      by (by rewrite (pow2_split 1031 1030)).
    apply Z.pow_le_mono_r; lia. }
  assert (2 * 2 ^ 1030 < U) as HPU.
  { unfold U. rewrite (pow2_split 1074 1030) by lia.
    assert (0 < 2 ^ 1030) by (by apply pow2_pos).
    change (2 ^ (1074 - 1030)) with 17592186044416. lia. }
  clear H1084. pose proof U_pos as HU.
  pose proof (Z.div_mod (1000 * f) U ltac:(lia)) as Hdm.
  pose proof (Z.mod_pos_bound (1000 * f) U HU) as Hm.
  set (P := 2 ^ ulp_exp (1000 * f)) in *. set (T := 2 ^ 1030) in *.
  clearbody P T.
  set (j := 1000 * f / U) in *. set (ru := (1000 * f) mod U) in *.
  clearbody j ru.
  destruct (Z.leb_spec (2 * ((j + 1) * U - 1000 * f)) P) as [Hnear|Hfar].
  - split; [lia|]. split; [done|]. split; [lia|]. intros H0. nia.
  - split; [lia|]. split; [split; lia|]. by split.
Qed.

(** The fractional part of a non-negative binary64 value is at most
    1 - 2^-53. *)
Lemma binary64_fraction n :
  binary64 n -> 0 <= n -> n mod U <= U - 2 ^ 1021.
Proof.
  intros [_ Hmod] Hn. pose proof U_pos as HU.
  assert (0 < 2 ^ 1021) as HT by (by apply pow2_pos).
  assert (U = 2 * 2 ^ 1073) as HU2 by (unfold U; by rewrite (pow2_split 1074 1073)).
  assert (2 ^ 1021 <= 2 ^ 1073) by (apply Z.pow_le_mono_r; lia).
  pose proof (Z.mod_pos_bound n U HU) as Hf.
  destruct (Z_lt_le_dec n (2 ^ 1073)) as [Hsmall|Hbig].
  { rewrite Z.mod_small by lia. lia. }
  assert (1021 <= ulp_exp n) as Hp.
  { unfold ulp_exp. rewrite Z.abs_eq by lia.
    assert (1073 <= Z.log2 n) by (apply Z.log2_le_pow2; lia). lia. }
  set (p := ulp_exp n) in *. clearbody p.
  pose proof (pow2_pos p ltac:(lia)) as HP.
  apply Z.mod_divide in Hmod; [|lia]. destruct Hmod as [n' ->].
  destruct (Z_le_gt_dec 1074 p) as [Hge|Hlt].
  - rewrite (pow2_split p 1074) by lia. fold U.
    rewrite Z.mul_assoc, Z.mod_mul by lia. lia.
  - assert (2 ^ 1021 <= 2 ^ p) by (apply Z.pow_le_mono_r; lia).
    unfold U. rewrite (pow2_split 1074 p) by lia.
    rewrite Z.mul_mod_distr_r by (try apply Z.pow_nonzero; lia).
    pose proof (Z.mod_pos_bound n' (2 ^ (1074 - p)) ltac:(apply pow2_pos; lia)).
    nia.
Qed.

(** ** SRT time stamps *)

Lemma below_by_cases (P : Z -> Prop) (bound : nat) :
  Forall (fun i => P (Z.of_nat i)) (seq 0 bound) ->
  forall k, 0 <= k < Z.of_nat bound -> P k.
Proof.
  intros H k Hk. rewrite List.Forall_forall in H.
  rewrite <- (Z2Nat.id k) by lia. apply H, in_seq. lia.
Qed.

Lemma format_d_two k : 0 <= k < 100 -> format_d 2 k = two_digits k.
Proof.
  apply (below_by_cases (fun k => format_d 2 k = two_digits k) 100).
  apply Forall_forall. intros i Hi.
  assert (forallb (fun i => bool_decide (format_d 2 (Z.of_nat i)
                                         = two_digits (Z.of_nat i)))
                  (seq 0 100) = true) as Hall by (by vm_compute).
  rewrite forallb_forall in Hall.
  apply list_elem_of_In, Hall in Hi. by apply bool_decide_eq_true in Hi.
Qed.

Lemma format_d_three k : 0 <= k < 1000 -> format_d 3 k = three_digits k.
Proof.
  apply (below_by_cases (fun k => format_d 3 k = three_digits k) 1000).
  apply Forall_forall. intros i Hi.
  assert (forallb (fun i => bool_decide (format_d 3 (Z.of_nat i)
                                         = three_digits (Z.of_nat i)))
                  (seq 0 1000) = true) as Hall by (by vm_compute).
  rewrite forallb_forall in Hall.
  apply list_elem_of_In, Hall in Hi. by apply bool_decide_eq_true in Hi.
Qed.

Lemma int_of_float_units k : int_of_float (Finite (k * U)) = Some k.
Proof.
  cbn [int_of_float]. pose proof U_pos. by rewrite Z.quot_mul by lia.
Qed.

(** C3 (as amended).  For a finite, non-negative number of seconds below
    100 hours, [format_srt_time] gives [HH:MM:SS,mmm]: two digits for the
    whole hours, two for the minutes, two for the seconds, three for the
    milliseconds.  The milliseconds are the integer part of the binary64
    product of the fractional second by 1000, which is fully determined:
    it is the truncated value of the exact product, except when the exact
    product lies below the next integer by no more than half the distance
    between neighbouring binary64 values - then the product is rounded to
    that integer and the milliseconds are one more.  They never exceed
    999; they are the truncated value whenever the exact product is more
    than 2^-44 below the next integer, and whenever it is an integer.  So
    0 gives [00:00:00,000], 3661.25 gives [01:01:01,250], 1.2341 gives
    [00:00:01,234] and 0.009 gives [00:00:00,009]; what [float()] rejects
    gives [00:00:00,000]. *)
Theorem format_srt_time_below_100_hours (seconds : pyval) (n : Z) :
  py_float seconds = Some (Finite n) ->
  binary64 n ->
  0 <= n < 360000 * U ->
  (let exact := 1000 * (n mod U) in
   let millisecs := milliseconds (n mod U) in
   format_srt_time seconds
   = two_digits (n / (3600 * U)) ++ lit ":"
     ++ two_digits (n mod (3600 * U) / (60 * U)) ++ lit ":"
     ++ two_digits (n mod (60 * U) / U) ++ lit ","
     ++ three_digits millisecs
   /\ exact / U <= millisecs <= exact / U + 1
   /\ millisecs <= 999
   /\ (millisecs = exact / U + 1
       <-> 2 * ((exact / U + 1) * U - exact) <= 2 ^ ulp_exp exact)
   /\ (2 ^ 1030 < (exact / U + 1) * U - exact -> millisecs = exact / U)
   /\ (exact mod U = 0 -> millisecs = exact / U))
  /\ format_srt_time (PyInt 0) = lit "00:00:00,000"
  /\ format_srt_time (PyFloat (float_lit 366125 100)) = lit "01:01:01,250"
  /\ format_srt_time (PyFloat (float_lit 12341 10000)) = lit "00:00:01,234"
  /\ format_srt_time (PyFloat (float_lit 9 1000)) = lit "00:00:00,009"
  /\ format_srt_time PyNonNumeric = lit "00:00:00,000".
Proof.
  intros Hpy Hbin Hn. pose proof U_pos as HU.
  split; [|by vm_compute].
  assert (360000 < 2 ^ 53) as H53 by (by vm_compute).
  pose proof (Z.mod_pos_bound n (3600 * U) ltac:(lia)) as Hm1.
  pose proof (Z.mod_pos_bound n (60 * U) ltac:(lia)) as Hm2.
  pose proof (Z.mod_pos_bound n U HU) as Hm3.
  assert ((n mod (60 * U)) mod (1 * U) = n mod U) as Hfrac.
  { rewrite Z.mul_1_l. apply Z.mod_mod_divide. exists 60. ring. }
  destruct (float_mul_1000_exact (n mod U)) as (m & Hmul & Hmb & Hms).
  { split; [lia|]. apply binary64_fraction; [done|lia]. }
  destruct (milliseconds_cases (n mod U) Hm3) as (Hnear & Hup & Hfar & Hex).
  cbn zeta. rewrite <- Hms in *.
  split; [|split; [exact Hnear|split; [|split; [exact Hup|by split]]]].
  2: { assert (m / U < 1000); [apply Z.div_lt_upper_bound; lia|lia]. }
  unfold format_srt_time. rewrite Hpy. cbn [mbind option_bind].
  rewrite (float_floordiv_nonneg n 3600) by lia.
  rewrite int_of_float_units. cbn [mbind option_bind].
  rewrite !float_mod_nonneg by lia.
  rewrite (float_floordiv_nonneg (n mod (3600 * U)) 60) by lia.
  rewrite int_of_float_units. cbn [mbind option_bind].
  rewrite Hfrac, Hmul.
  cbn [int_of_float mbind option_bind].
  rewrite !Z.quot_div_nonneg by lia.
  rewrite !format_d_two, format_d_three; [done|..].
  - split; [apply Z.div_pos; lia|apply Z.div_lt_upper_bound; lia].
  - split; [apply Z.div_pos; lia|apply Z.div_lt_upper_bound; lia].
  - split; [apply Z.div_pos; lia|apply Z.div_lt_upper_bound; lia].
  - split; [apply Z.div_pos; lia|apply Z.div_lt_upper_bound; lia].
Qed.

Lemma format_srt_time_below_100_hours_witness :
  py_float (PyFloat (Finite sample_time)) = Some (Finite sample_time)
  /\ binary64 sample_time
  /\ 0 <= sample_time < 360000 * U
  /\ format_srt_time (PyFloat (Finite sample_time))
     = two_digits (sample_time / (3600 * U)) ++ lit ":"
       ++ two_digits (sample_time mod (3600 * U) / (60 * U)) ++ lit ":"
       ++ two_digits (sample_time mod (60 * U) / U) ++ lit ","
       ++ three_digits (milliseconds (sample_time mod U)).
Proof.
  assert (binary64 sample_time) as Hbin by (split; by vm_compute).
  assert (0 <= sample_time < 360000 * U) as Hrange by (split; by vm_compute).
  split; [reflexivity|]. split; [exact Hbin|]. split; [exact Hrange|].
  exact (proj1 (proj1 (format_srt_time_below_100_hours
                         (PyFloat (Finite sample_time)) sample_time eq_refl
                         Hbin Hrange))).
Defined.

(** C3 as stated fails: from 100 hours on the hours take three digits or
    more. *)
Lemma format_srt_time_100_hours :
  format_srt_time (PyInt 360000) = lit "100:00:00,000"
  /\ length (format_srt_time (PyInt 360000)) <> length (lit "00:00:00,000").
Proof. split; [by vm_compute|]. vm_compute. discriminate. Qed.

(** The product by 1000 is rounded before it is truncated: the float
    nearest to 0.009 is below 9/1000, and still gives 9 milliseconds. *)
Example format_srt_time_rounds_product :
  match float_lit 9 1000 with
  | Finite n => 1000 * (n mod U) / U = 8
  | NotFinite => False
  end
  /\ format_srt_time (PyFloat (float_lit 9 1000)) = lit "00:00:00,009".
Proof. split; by vm_compute. Qed.

(** Outside the range of the theorem: a negative time, an infinite one. *)
Example format_srt_time_negative :
  format_srt_time (PyFloat (float_lit (-15) 10)) = lit "-1:59:58,500".
Proof. by vm_compute. Qed.

Example format_srt_time_not_finite :
  format_srt_time (PyFloat NotFinite) = lit "00:00:00,000".
Proof. reflexivity. Qed.

(** ** The end-to-end scenario *)

(** Two segments, both translated: two entries, numbered 1 and 2. *)
Example scenario_subtitles :
  srt_content (process_segments_safe (fun _ => tr_shalom) hello_segments).1
  = lit "1" ++ newline
    ++ lit "00:00:00,000 --> 00:00:02,000" ++ newline
    ++ [1513; 1500; 1493; 1501]%N ++ newline ++ newline
    ++ lit "2" ++ newline
    ++ lit "00:00:02,000 --> 00:00:05,000" ++ newline
    ++ [1513; 1500; 1493; 1501]%N ++ newline ++ newline.
Proof. by vm_compute. Qed.

(** ** Removing files *)

Lemma path_exists_lookup path w :
  path_exists path w = true <-> files w !! path <> None.
Proof.
  unfold path_exists. rewrite bool_decide_eq_true, <- not_eq_None_Some. done.
Qed.

Lemma path_exists_false path w :
  path_exists path w = false <-> files w !! path = None.
Proof.
  unfold path_exists. rewrite bool_decide_eq_false, <- not_eq_None_Some.
  destruct (files w !! path); split; intros H; try done.
  - exfalso. by apply H.
  - intros H'. by apply H'.
Qed.

Lemma safe_remove_files e path w :
  path_exists path w = true ->
  files (safe_remove e path 3 w)
  = if removable e path then delete path (files w) else files w.
Proof.
  intros Hex. unfold removable. cbn [safe_remove Nat.sub].
  assert (forall evs, path_exists path (emit evs w) = true) as Hemit
      by (intros; exact Hex).
  assert (forall evs evs', path_exists path (emit evs' (emit evs w)) = true)
    as Hemit2 by (intros; exact Hex).
  rewrite Hex, Hemit, Hemit2. cbn [andb].
  destruct (remove_raises e path) as [|[|[|r]]]; done.
Qed.

Lemma safe_remove_logged e path w :
  path_exists path w = true ->
  logged (safe_remove e path 3 w)
  = logged w ++ (if removable e path then [] else [LogError 107]).
Proof.
  intros Hex. unfold removable. cbn [safe_remove Nat.sub].
  assert (forall evs, path_exists path (emit evs w) = true) as Hemit
      by (intros; exact Hex).
  assert (forall evs evs', path_exists path (emit evs' (emit evs w)) = true)
    as Hemit2 by (intros; exact Hex).
  rewrite Hex, Hemit, Hemit2. cbn [andb].
  destruct (remove_raises e path) as [|[|[|r]]];
    cbn [logged set_files emit write_log]; by rewrite ?app_nil_r.
Qed.

Lemma safe_remove_trace e path w :
  path_exists path w = true ->
  trace (safe_remove e path 3 w)
  = trace w ++ repeat (Sleep 500) (Nat.min (remove_raises e path) 2).
Proof.
  intros Hex. cbn [safe_remove Nat.sub].
  assert (forall evs, path_exists path (emit evs w) = true) as Hemit
      by (intros; exact Hex).
  assert (forall evs evs', path_exists path (emit evs' (emit evs w)) = true)
    as Hemit2 by (intros; exact Hex).
  rewrite Hex, Hemit, Hemit2. cbn [andb].
  destruct (remove_raises e path) as [|[|[|r]]]; cbn;
    rewrite ?app_nil_r, <- ?app_assoc; done.
Qed.

(** X1.  [safe_file_operation(os.remove, path)] on an existing file: the
    file is removed if one of the three attempts succeeds and stays
    otherwise; the function pauses half a second after each failed attempt
    but the last, so at most twice; it logs one error (line 107) when the
    third attempt fails too, and nothing otherwise; nothing else
    changes. *)
Theorem safe_remove_outcome (e : env) (path : pystr) (w : world) :
  path_exists path w = true ->
  files (safe_remove e path 3 w)
  = (if (remove_raises e path <? 3)%nat then delete path (files w)
     else files w)
  /\ trace (safe_remove e path 3 w)
     = trace w ++ repeat (Sleep 500) (Nat.min (remove_raises e path) 2)
  /\ cwd (safe_remove e path 3 w) = cwd w
  /\ logged (safe_remove e path 3 w)
     = logged w ++ (if (remove_raises e path <? 3)%nat then []
                    else [LogError 107]).
Proof.
  intros Hex. split; [by apply safe_remove_files|].
  split; [by apply safe_remove_trace|].
  split; [apply safe_remove_cwd|by apply safe_remove_logged].
Qed.

Lemma elem_of_Some_cons (p q : pystr) (rest : list (option pystr)) :
  Some p ∈ Some q :: rest <-> p = q \/ Some p ∈ rest.
Proof.
  rewrite elem_of_cons. split.
  - intros [Heq|Hin]; [left; congruence|by right].
  - intros [->|Hin]; [by left|by right].
Qed.

Lemma elem_of_Some_None (p : pystr) (rest : list (option pystr)) :
  Some p ∈ None :: rest <-> Some p ∈ rest.
Proof.
  rewrite elem_of_cons. split; [intros [Heq|Hin]; [done|done]|by right].
Qed.

Lemma cleanup_files_files e paths w p :
  files (cleanup_files e paths w) !! p
  = if bool_decide (Some p ∈ paths) && truthy p && removable e p
    then None else files w !! p.
Proof.
  revert w. induction paths as [|[q|] rest IH]; intros w; cbn [cleanup_files].
  - done.
  - rewrite IH. clear IH.
    assert (files (if truthy q && path_exists q w
                   then safe_remove e q 3 w else w) !! p
            = if bool_decide (p = q) && truthy p && removable e p
              then None else files w !! p) as ->.
    { destruct (decide (p = q)) as [->|Hne].
      - rewrite bool_decide_eq_true_2 by done. cbn [andb].
        destruct (truthy q); cbn [andb]; [|done].
        destruct (path_exists q w) eqn:Hex.
        + rewrite safe_remove_files by done.
          destruct (removable e q); [apply lookup_delete_eq|done].
        + apply path_exists_false in Hex. rewrite Hex.
          by destruct (removable e q).
      - rewrite bool_decide_eq_false_2 by done. cbn [andb].
        destruct (truthy q && path_exists q w) eqn:Hc; [|done].
        apply andb_true_iff in Hc as [_ Hex].
        rewrite safe_remove_files by done.
        destruct (removable e q); [by rewrite lookup_delete_ne|done]. }
    rewrite (bool_decide_ext _ _ (elem_of_Some_cons p q rest)).
    destruct (decide (p = q)) as [->|Hne].
    + rewrite (bool_decide_eq_true_2 (q = q)) by done.
      rewrite (bool_decide_eq_true_2 (q = q \/ _)) by (by left). cbn [andb].
      by destruct (bool_decide (Some q ∈ rest)), (truthy q), (removable e q).
    + rewrite (bool_decide_eq_false_2 (p = q)) by done. cbn [andb].
      assert (p = q \/ Some p ∈ rest <-> Some p ∈ rest) as Hiff
          by (split; [by intros [?|?]|by right]).
      by rewrite (bool_decide_ext _ _ Hiff).
  - rewrite IH. by rewrite (bool_decide_ext _ _ (elem_of_Some_None p rest)).
Qed.

Lemma cleanup_files_trace e paths w :
  exists k : nat,
    trace (cleanup_files e paths w) = trace w ++ repeat (Sleep 500) k
    /\ (k <= 2 * length paths)%nat.
Proof.
  revert w. induction paths as [|[q|] rest IH]; intros w; cbn [cleanup_files].
  - exists 0%nat. by rewrite app_nil_r.
  - destruct (truthy q && path_exists q w) eqn:Hc.
    + apply andb_true_iff in Hc as [_ Hex].
      destruct (IH (safe_remove e q 3 w)) as (k & -> & Hk).
      rewrite safe_remove_trace by done.
      exists (Nat.min (remove_raises e q) 2 + k)%nat.
      rewrite <- app_assoc, repeat_app. split; [done|]. cbn [length]. lia.
    + destruct (IH w) as (k & -> & Hk). exists k. split; [done|].
      cbn [length]. lia.
  - destruct (IH w) as (k & -> & Hk). exists k. split; [done|].
    cbn [length]. lia.
Qed.

(** X2.  [cleanup_files] removes exactly the listed paths that are
    non-empty and whose removal succeeds within three attempts; every other
    file (the log apart, which gets the errors of the removals that
    failed) is as before, [None] entries are skipped, the working
    directory is unchanged, and the only events are pauses of half a
    second, at most two per listed path. *)
Theorem cleanup_files_outcome (e : env) (paths : list (option pystr))
    (w : world) :
  (forall p,
      files (cleanup_files e paths w) !! p
      = if bool_decide (Some p ∈ paths) && truthy p
           && (remove_raises e p <? 3)%nat
        then None else files w !! p)
  /\ cwd (cleanup_files e paths w) = cwd w
  /\ exists k : nat,
       trace (cleanup_files e paths w) = trace w ++ repeat (Sleep 500) k
       /\ (k <= 2 * length paths)%nat.
Proof.
  split; [intros p; apply cleanup_files_files|].
  split; [apply cleanup_files_cwd|apply cleanup_files_trace].
Qed.

(** ** Temporary names *)

Lemma temp_name_truthy e prefix user_id timestamp ext :
  truthy (temp_name e prefix user_id timestamp ext) = true.
Proof.
  unfold temp_name, path_join. by destruct (simple_temp_dir e).
Qed.

(** ** Audio extraction *)

Lemma extract_audio_safe_spec e video_path user_id w :
  removable e (audio_name e user_id) = true ->
  let r := extract_audio_safe e video_path user_id w in
  (forall p, p <> audio_name e user_id -> files r.2 !! p = files w !! p)
  /\ cwd r.2 = cwd w
  /\ match audio_output e with
     | Some size =>
         if negb (audio_run_raises e) && (1000 <? size)
         then r.1 = Ok (audio_name e user_id)
              /\ files r.2 !! audio_name e user_id = Some (Blob size)
         else r.1 = Raise Error
              /\ files r.2 !! audio_name e user_id = None
     | None => r.1 = Raise Error /\ files r.2 !! audio_name e user_id = None
     end.
Proof.
  intros Hrm r. subst r. unfold extract_audio_safe. fold (audio_name e user_id).
  set (A := audio_name e user_id) in *.
  assert (truthy A = true) as HA by apply temp_name_truthy.
  set (w1 := cleanup_files e [Some A] w).
  assert (forall p, files w1 !! p = if bool_decide (p = A) then None
                                    else files w !! p) as Hw1.
  { intros p. unfold w1. rewrite cleanup_files_files.
    assert (Some p ∈ [Some A] <-> p = A) as Hiff
        by (rewrite list_elem_of_singleton; split; congruence).
    rewrite (bool_decide_ext _ _ Hiff).
    destruct (decide (p = A)) as [->|Hne].
    - rewrite !bool_decide_eq_true_2 by done. by rewrite HA, Hrm.
    - by rewrite !bool_decide_eq_false_2. }
  assert (cwd w1 = cwd w) as Hc1 by apply cleanup_files_cwd.
  assert (forall w2, (forall p, p <> A -> files w2 !! p = files w !! p) ->
                     forall p, p <> A ->
                               files (cleanup_files e [Some A] w2) !! p
                               = files w !! p) as Hframe.
  { intros w2 H2 p Hne. rewrite cleanup_files_files.
    rewrite bool_decide_eq_false_2; [by apply H2|].
    rewrite list_elem_of_singleton. congruence. }
  assert (forall w2, files (cleanup_files e [Some A] w2) !! A = None) as Hgone.
  { intros w2. rewrite cleanup_files_files.
    rewrite bool_decide_eq_true_2 by (by apply list_elem_of_singleton).
    by rewrite HA, Hrm. }
  destruct (audio_output e) as [size|]; cbn [leave_output].
  - unfold exists_larger_than. cbn [files set_files].
    rewrite lookup_insert_eq.
    destruct (negb (audio_run_raises e) && (1000 <? size)); cbn [fst snd].
    + split; [|split; [by rewrite <- Hc1|]].
      * intros p Hne. cbn [files set_files].
        rewrite lookup_insert_ne by done. rewrite Hw1.
        by rewrite bool_decide_eq_false_2.
      * split; [done|]. cbn [files set_files]. apply lookup_insert_eq.
    + split; [|split; [by rewrite cleanup_files_cwd|by split]].
      apply Hframe. intros p Hne. cbn [files set_files].
      rewrite lookup_insert_ne by done. rewrite Hw1.
      by rewrite bool_decide_eq_false_2.
  - unfold exists_larger_than. rewrite Hw1, bool_decide_eq_true_2 by done.
    rewrite andb_false_r. cbn [fst snd].
    split; [|split; [by rewrite cleanup_files_cwd|by split]].
    apply Hframe. intros p Hne. rewrite Hw1. by rewrite bool_decide_eq_false_2.
Qed.

(** X3.  [extract_audio_safe] succeeds exactly when the transcoder does not
    raise and leaves more than 1000 bytes at the audio path, and then
    returns that path; in every other case it raises and leaves no file at
    the audio path (nor a stale one from before).  No other file and not
    the working directory is touched. *)
Theorem extract_audio_safe_outcome (e : env) (video_path : pystr)
    (user_id : Z) (w : world) :
  (remove_raises e (temp_name e "audio" user_id (time_audio e) ".wav") < 3)%nat ->
  let audio := temp_name e "audio" user_id (time_audio e) ".wav" in
  let r := extract_audio_safe e video_path user_id w in
  (forall p, p <> audio -> files r.2 !! p = files w !! p)
  /\ cwd r.2 = cwd w
  /\ match audio_output e with
     | Some size =>
         if negb (audio_run_raises e) && (1000 <? size)
         then r.1 = Ok audio /\ files r.2 !! audio = Some (Blob size)
         else r.1 = Raise Error /\ files r.2 !! audio = None
     | None => r.1 = Raise Error /\ files r.2 !! audio = None
     end.
Proof.
  intros Hrm. apply extract_audio_safe_spec. unfold removable.
  by apply Nat.ltb_lt.
Qed.

(** ** Decimal numerals *)

Lemma digits_fuel_S fuel n acc :
  digits_fuel (S fuel) n acc
  = if n <? 10 then (48 + Z.to_N (n mod 10))%N :: acc
    else digits_fuel fuel (n / 10) ((48 + Z.to_N (n mod 10))%N :: acc).
Proof. reflexivity. Qed.

Lemma digits_fuel_shape fuel n acc :
  0 <= n < 2 ^ Z.of_nat (S fuel) ->
  exists ds,
    digits_fuel (S fuel) n acc = ds ++ acc
    /\ ds <> []
    /\ Forall (fun c => (48 <= c <= 57)%N) ds
    /\ forall a, fold_left (fun v c => 10 * v + (Z.of_N c - 48)) ds a
                 = a * 10 ^ Z.of_nat (length ds) + n.
Proof.
  revert n acc. induction fuel as [|fuel IH]; intros n acc Hn.
  all: rewrite digits_fuel_S.
  all: pose proof (Z.mod_pos_bound n 10 ltac:(lia)) as Hmod.
  all: assert ((48 <= 48 + Z.to_N (n mod 10) <= 57)%N) as Hd by lia.
  all: assert (Z.of_N (48 + Z.to_N (n mod 10)) - 48 = n mod 10) as Hv by lia.
  all: destruct (Z.ltb_spec n 10) as [Hlt|Hge].
  1,3: exists [(48 + Z.to_N (n mod 10))%N]; split; [done|]; split; [done|];
    split; [by constructor|]; intros a; cbn [fold_left length];
    rewrite Hv, Z.mod_small by lia; change (Z.of_nat 1) with 1; lia.
  - change (2 ^ Z.of_nat 1) with 2 in Hn. lia.
  - destruct (IH (n / 10) ((48 + Z.to_N (n mod 10))%N :: acc))
      as (ds & Heq & Hne & Hall & Hval).
    { split; [apply Z.div_pos; lia|].
      rewrite (Nat2Z.inj_succ (S fuel)), Z.pow_succ_r in Hn by lia.
      apply Z.div_lt_upper_bound; lia. }
    exists (ds ++ [(48 + Z.to_N (n mod 10))%N]).
    split; [by rewrite Heq, <- app_assoc|].
    split; [by destruct ds|].
    split; [apply Forall_app; split; [done|by constructor]|].
    intros a. rewrite fold_left_app, Hval. cbn [fold_left].
    rewrite Hv, length_app, Nat2Z.inj_add, Z.pow_add_r by lia.
    change (Z.of_nat (length [(48 + Z.to_N (n mod 10))%N])) with 1.
    pose proof (Z.div_mod n 10 ltac:(lia)). lia.
Qed.

Lemma digits_shape n :
  0 <= n ->
  digits n <> []
  /\ Forall (fun c => (48 <= c <= 57)%N) (digits n)
  /\ fold_left (fun v c => 10 * v + (Z.of_N c - 48)) (digits n) 0 = n.
Proof.
  intros Hn. unfold digits.
  destruct (digits_fuel_shape (Z.to_nat (Z.log2 n)) n [])
    as (ds & Heq & Hne & Hall & Hval).
  { split; [done|]. rewrite Nat2Z.inj_succ, Z2Nat.id by apply Z.log2_nonneg.
    destruct (Z.eq_dec n 0) as [->|]; [done|].
    apply Z.log2_spec. lia. }
  rewrite Heq, app_nil_r. split; [done|]. split; [done|].
  rewrite Hval. lia.
Qed.

Lemma str_of_int_unfold z :
  str_of_int z = (if z <? 0 then [45%N] else []) ++ digits (Z.abs z).
Proof.
  unfold str_of_int, format_d. by destruct (z <? 0).
Qed.

Lemma str_of_int_chars z :
  Forall (fun c => c = 45%N \/ (48 <= c <= 57)%N) (str_of_int z).
Proof.
  rewrite str_of_int_unfold.
  destruct (digits_shape (Z.abs z) ltac:(lia)) as (_ & Hall & _).
  apply Forall_app. split.
  - destruct (z <? 0); [|done]. constructor; [by left|done].
  - eapply Forall_impl; [exact Hall|]. intros c Hc. by right.
Qed.

Lemma str_of_int_inj a b : str_of_int a = str_of_int b -> a = b.
Proof.
  rewrite !str_of_int_unfold. intros Heq.
  destruct (digits_shape (Z.abs a) ltac:(lia)) as (Hna & Halla & Hva).
  destruct (digits_shape (Z.abs b) ltac:(lia)) as (Hnb & Hallb & Hvb).
  destruct (Z.ltb_spec a 0), (Z.ltb_spec b 0); cbn [app] in Heq.
  - injection Heq as Heq. rewrite Heq in Hva. lia.
  - destruct (digits (Z.abs b)) as [|c ds]; [done|].
    injection Heq as <- _. apply Forall_cons in Hallb as [Hc _]. lia.
  - destruct (digits (Z.abs a)) as [|c ds]; [done|].
    injection Heq as -> _. apply Forall_cons in Halla as [Hc _]. lia.
  - rewrite Heq in Hva. lia.
Qed.

(** Cutting at the first underscore. *)
Lemma split_at_underscore (a1 a2 c1 c2 : pystr) :
  Forall (fun c => c <> 95%N) a1 -> Forall (fun c => c <> 95%N) a2 ->
  a1 ++ 95%N :: c1 = a2 ++ 95%N :: c2 -> a1 = a2 /\ c1 = c2.
Proof.
  revert a2. induction a1 as [|x a1 IH]; intros [|y a2] H1 H2 Heq;
    cbn [app] in Heq.
  - by injection Heq as ->.
  - injection Heq as <- _. apply Forall_cons in H2 as [H2 _]. done.
  - injection Heq as -> _. apply Forall_cons in H1 as [H1 _]. done.
  - injection Heq as -> Heq.
    apply Forall_cons in H1 as [_ H1]. apply Forall_cons in H2 as [_ H2].
    destruct (IH a2 H1 H2 Heq) as [-> ->]. done.
Qed.

Lemma str_of_int_no_underscore z : Forall (fun c => c <> 95%N) (str_of_int z).
Proof.
  eapply Forall_impl; [apply str_of_int_chars|].
  intros c [->|Hc]; [done|lia].
Qed.

Lemma temp_name_inj e prefix ext user1 time1 user2 time2 :
  temp_name e prefix user1 time1 ext = temp_name e prefix user2 time2 ext ->
  user1 = user2 /\ time1 = time2.
Proof.
  unfold temp_name, path_join. intros H.
  do 3 apply app_inv_head in H. change (lit "_") with [95%N] in H.
  cbn [app] in H. injection H as H.
  rewrite !(app_comm_cons), !app_assoc in H. apply app_inv_tail in H.
  apply split_at_underscore in H; [|apply str_of_int_no_underscore..].
  destruct H as [H1 H2]. split; by apply str_of_int_inj.
Qed.

Ltac names_differ H :=
  unfold temp_name, path_join in H;
  do 2 apply app_inv_head in H;
  cbv [lit list_ascii_of_string List.map N_of_ascii N_of_digits] in H;
  cbn [app N.add N.mul] in H; discriminate H.

Lemma temp_names_distinct e ua ta us ts uv tv uc tc uo to :
  NoDup [temp_name e "audio" ua ta ".wav"; temp_name e "subs" us ts ".srt";
         temp_name e "v" uv tv ".mp4"; temp_name e "s" uc tc ".srt";
         temp_name e "o" uo to ".mp4"].
Proof.
  repeat (apply NoDup_cons; split;
          [rewrite ?elem_of_cons, elem_of_nil;
           intros H; repeat (destruct H as [H|H]); try done; names_differ H|]).
  apply NoDup_nil_2.
Qed.

(** X10.  The temporary names do not collide: two names of the same kind
    are equal only for the same user id and the same time stamp, and names
    of different kinds (audio, subtitles, scratch video, scratch subtitles,
    output) are never equal, whatever the ids and time stamps. *)
Theorem temp_names_collision_free (e : env) (prefix ext : string)
    (user1 time1 user2 time2 ua ta us ts uv tv uc tc uo to : Z) :
  (temp_name e prefix user1 time1 ext = temp_name e prefix user2 time2 ext
   <-> user1 = user2 /\ time1 = time2)
  /\ NoDup [temp_name e "audio" ua ta ".wav"; temp_name e "subs" us ts ".srt";
            temp_name e "v" uv tv ".mp4"; temp_name e "s" uc tc ".srt";
            temp_name e "o" uo to ".mp4"].
Proof.
  split; [|apply temp_names_distinct].
  split; [apply temp_name_inj|by intros [-> ->]].
Qed.

(** ** Subtitle file creation: the failure path *)

Lemma cleanup_one_gone e path w :
  removable e path = true -> truthy path = true ->
  files (cleanup_files e [Some path] w) !! path = None.
Proof.
  intros Hrm Ht. rewrite cleanup_files_files.
  rewrite bool_decide_eq_true_2 by (by apply list_elem_of_singleton).
  by rewrite Ht, Hrm.
Qed.

Lemma cleanup_frame e paths w p :
  Some p ∉ paths -> files (cleanup_files e paths w) !! p = files w !! p.
Proof.
  intros Hnin. rewrite cleanup_files_files.
  by rewrite bool_decide_eq_false_2.
Qed.

Lemma create_srt_file_safe_spec e segments user_id w :
  removable e (subs_name e user_id) = true ->
  let r := create_srt_file_safe e segments user_id w in
  (forall p, p <> subs_name e user_id -> files r.2 !! p = files w !! p)
  /\ cwd r.2 = cwd w
  /\ match srt_write e with
     | IoOk => r.1 = Ok (subs_name e user_id)
               /\ files r.2 !! subs_name e user_id
                  = Some (TextFile (srt_content segments))
     | _ => r.1 = Raise Error /\ files r.2 !! subs_name e user_id = None
     end.
Proof.
  intros Hrm r. subst r. unfold create_srt_file_safe, create_file.
  fold (subs_name e user_id). set (S := subs_name e user_id) in *.
  assert (truthy S = true) as HS by apply temp_name_truthy.
  assert (forall p, p <> S -> Some p ∉ [Some S]) as Hnin.
  { intros p Hne. rewrite list_elem_of_singleton. congruence. }
  destruct (srt_write e); cbn [fst snd].
  - split; [|by split; [|split; [|apply lookup_insert_eq]]].
    intros p Hne. cbn [files set_files]. by rewrite lookup_insert_ne.
  - split; [|split; [apply cleanup_files_cwd|split; [done|by apply cleanup_one_gone]]].
    intros p Hne. by rewrite cleanup_frame by auto.
  - split; [|split; [by rewrite cleanup_files_cwd
                    |split; [done|by apply cleanup_one_gone]]].
    intros p Hne. rewrite cleanup_frame by auto. cbn [files set_files].
    by rewrite lookup_insert_ne.
Qed.

(** X4.  When the subtitle file cannot be written, [create_srt_file_safe]
    raises and leaves no file at the subtitle path - neither a partial one
    nor one that was there before; when it can, the file holds the
    composed text.  No other file is touched. *)
Theorem create_srt_file_safe_outcome (e : env) (segments : list seg_dict)
    (user_id : Z) (w : world) :
  (remove_raises e (temp_name e "subs" user_id (time_srt e) ".srt") < 3)%nat ->
  let subs := temp_name e "subs" user_id (time_srt e) ".srt" in
  let r := create_srt_file_safe e segments user_id w in
  (forall p, p <> subs -> files r.2 !! p = files w !! p)
  /\ cwd r.2 = cwd w
  /\ match srt_write e with
     | IoOk => r.1 = Ok subs
               /\ files r.2 !! subs = Some (TextFile (srt_content segments))
     | _ => r.1 = Raise Error /\ files r.2 !! subs = None
     end.
Proof.
  intros Hrm. apply create_srt_file_safe_spec. unfold removable.
  by apply Nat.ltb_lt.
Qed.

(** ** Subtitle burn-in: what is left on disk *)

Lemma exists_larger_path_exists path least w :
  exists_larger_than path least w = true -> path_exists path w = true.
Proof.
  unfold exists_larger_than. intros H. apply path_exists_lookup.
  by destruct (files w !! path).
Qed.

Lemma embed_cwd e video_path srt_path user_id w :
  handler_restore_ok e = true
  \/ (restore_ok e = true /\ exists rc, burn_run e = Exit rc)
  \/ chdir_ok e = false ->
  cwd (embed_subtitles_safe e video_path srt_path user_id w).2 = cwd w.
Proof.
  intros H.
  destruct (embed_subtitles_safe_cwd_cases e video_path srt_path user_id w)
    as [Hsame|(_ & _ & Hc & Hh & Hr)]; [done|].
  destruct H as [H|[(H & rc & Hrc)|H]]; [congruence| |congruence].
  destruct Hr as [Hr|Hr]; [congruence|]. by destruct (Hr rc).
Qed.

(** Unless it ends with [OSError], the burn-in restores the directory. *)
Lemma embed_cwd_unless_oserror e video_path srt_path user_id w :
  (embed_subtitles_safe e video_path srt_path user_id w).1 <> Raise OSError ->
  cwd (embed_subtitles_safe e video_path srt_path user_id w).2 = cwd w.
Proof.
  intros H.
  by destruct (embed_subtitles_safe_cwd_cases e video_path srt_path user_id w)
    as [Hsame|(? & _)].
Qed.

Ltac embed_inv E e video_path srt_path :=
  unfold embed_subtitles_safe, embed_try, copyfile, create_file, embed_except
    in E;
  repeat match type of E with
         | context [files ?w' !! ?p] =>
             lazymatch p with
             | video_path => destruct (files w' !! p) eqn:?
             | srt_path => destruct (files w' !! p) eqn:?
             end
         | context [copy_video e] => destruct (copy_video e) eqn:?
         | context [copy_srt e] => destruct (copy_srt e) eqn:?
         | context [chdir_ok e] => destruct (chdir_ok e) eqn:?
         | context [burn_run e] => destruct (burn_run e) eqn:?
         | context [restore_ok e] => destruct (restore_ok e) eqn:?
         | context [negb (?z =? 0)] => destruct (Z.eqb_spec z 0)
         | context [exists_larger_than ?a ?b ?c] =>
             destruct (exists_larger_than a b c) eqn:?
         | context [handler_restore_ok e] =>
             destruct (handler_restore_ok e) eqn:?
         end; cbn [fst snd negb] in E; simplify_eq.

Ltac lookup_inserts :=
  cbn [files set_files set_cwd leave_output] in *;
  rewrite ?lookup_insert in *; repeat case_decide; try done; try congruence.

Lemma embed_ok e video_path srt_path user_id w p w' :
  embed_subtitles_safe e video_path srt_path user_id w = (Ok p, w') ->
  p = output_name e user_id
  /\ burn_run e = Exit 0
  /\ copy_video e = IoOk /\ copy_srt e = IoOk /\ chdir_ok e = true
  /\ files w !! video_path <> None
  /\ (forall size, burn_output e = Some size -> 1000 < size)
  /\ exists_larger_than (output_name e user_id) 1000 w' = true
  /\ path_exists (video_copy_name e user_id) w' = true
  /\ path_exists (srt_copy_name e user_id) w' = true
  /\ (forall q, path_exists q w = true -> path_exists q w' = true).
Proof.
  unfold output_name, video_copy_name, srt_copy_name. intros E.
  embed_inv E e video_path srt_path.
  all: repeat split; try done.
  all: try (apply path_exists_lookup; destruct (burn_output e);
            lookup_inserts).
  all: try (intros q Hq; apply path_exists_lookup in Hq;
            apply path_exists_lookup; destruct (burn_output e);
            lookup_inserts).
  all: intros size Hsz; rewrite Hsz in *; unfold exists_larger_than in *;
    lookup_inserts; by apply Z.ltb_lt.
Qed.

Lemma embed_ok_restore e video_path srt_path user_id w p w' :
  embed_subtitles_safe e video_path srt_path user_id w = (Ok p, w') ->
  restore_ok e = true.
Proof. intros E. by embed_inv E e video_path srt_path. Qed.

Lemma cleanup_three_gone e a b c w q :
  q ∈ [a; b; c] -> truthy q = true -> removable e q = true ->
  files (cleanup_files e [Some a; Some b; Some c] w) !! q = None.
Proof.
  intros Hq Ht Hrm. rewrite cleanup_files_files, Ht, Hrm.
  rewrite bool_decide_eq_true_2; [done|].
  rewrite !elem_of_cons, elem_of_nil in Hq. rewrite !elem_of_cons.
  destruct Hq as [->|[->|[->|[]]]]; auto.
Qed.

Lemma cleanup_three_frame e a b c w q :
  q ∉ [a; b; c] ->
  files (cleanup_files e [Some a; Some b; Some c] w) !! q = files w !! q.
Proof.
  intros Hq. apply cleanup_frame. rewrite !elem_of_cons, elem_of_nil in *.
  intros [?|[?|[?|[]]]]; apply Hq; simplify_eq; auto.
Qed.

Lemma embed_raise e video_path srt_path user_id w x w' :
  embed_subtitles_safe e video_path srt_path user_id w = (Raise x, w') ->
  (x = UnboundLocalError
   /\ (files w !! video_path = None \/ copy_video e <> IoOk
       \/ files w' !! srt_path = None \/ copy_srt e <> IoOk)
   /\ (forall q, path_exists q w = true -> path_exists q w' = true)
   /\ (forall q, q <> video_copy_name e user_id ->
                 q <> srt_copy_name e user_id ->
                 files w' !! q = files w !! q))
  \/ (x = OSError
      /\ handler_restore_ok e = false
      /\ copy_video e = IoOk /\ copy_srt e = IoOk
      /\ files w !! video_path <> None
      /\ (forall q, path_exists q w = true -> path_exists q w' = true)
      /\ (forall q, q ∉ [video_copy_name e user_id; srt_copy_name e user_id;
                         output_name e user_id] ->
                    files w' !! q = files w !! q))
  \/ (x = Error
      /\ handler_restore_ok e = true
      /\ copy_video e = IoOk /\ copy_srt e = IoOk
      /\ files w !! video_path <> None
      /\ (forall q, q ∈ [video_copy_name e user_id; srt_copy_name e user_id;
                         output_name e user_id] ->
                    removable e q = true -> files w' !! q = None)
      /\ (forall q, q ∉ [video_copy_name e user_id; srt_copy_name e user_id;
                         output_name e user_id] ->
                    files w' !! q = files w !! q)).
Proof.
  unfold output_name, video_copy_name, srt_copy_name. intros E.
  assert (forall q, q ∈ [temp_name e "v" user_id (time_embed e) ".mp4";
                         temp_name e "s" user_id (time_embed e) ".srt";
                         temp_name e "o" user_id (time_embed e) ".mp4"] ->
                    truthy q = true) as Htruthy.
  { intros q Hq. rewrite !elem_of_cons, elem_of_nil in Hq.
    destruct Hq as [->|[->|[->|[]]]]; apply temp_name_truthy. }
  embed_inv E e video_path srt_path.
  all: try (left; split; [done|]; split; [auto 6|]; split;
            [intros q Hq; apply path_exists_lookup in Hq;
             apply path_exists_lookup; lookup_inserts
            |intros q Hv Hs; lookup_inserts]).
  all: right.
  all: try (left; split; [done|]; split; [done|]; split; [done|];
            split; [done|]; split; [done|]; split;
            [intros q Hq; apply path_exists_lookup in Hq;
             apply path_exists_lookup; destruct (burn_output e);
             lookup_inserts
            |intros q Hq; rewrite !elem_of_cons, elem_of_nil in Hq;
             destruct (burn_output e); lookup_inserts;
             exfalso; apply Hq; auto]).
  all: right; split; [done|]; split; [done|]; split; [done|]; split; [done|];
    split; [done|].
  all: split;
    [intros q Hq Hrm; apply cleanup_three_gone; auto
    |intros q Hq; rewrite cleanup_three_frame by done;
     rewrite !elem_of_cons, elem_of_nil in Hq;
     destruct (burn_output e); lookup_inserts;
     exfalso; apply Hq; auto].
Qed.

(** X5.  When both copies were made and the burn-in then fails - the
    directory cannot be changed, the transcoder exits with a non-zero
    status, times out or cannot be run, the directory cannot be restored
    after the run, or the output has at most 1000 bytes - and the
    [os.chdir(original_dir)] of the [except] clause succeeds, then
    [embed_subtitles_safe] raises a plain exception (a timeout is not
    passed on as such), with the scratch video, the scratch subtitles and
    the partial output removed as far as they can be, every other file as
    before and the working directory restored.  (When that [os.chdir]
    raises, the clause is left before the cleanup, with [OSError].) *)
Theorem embed_subtitles_safe_failure_cleans (e : env)
    (video_path srt_path : pystr) (user_id : Z) (w : world) (fv fs : file) :
  files w !! video_path = Some fv ->
  files w !! srt_path = Some fs ->
  copy_video e = IoOk ->
  copy_srt e = IoOk ->
  handler_restore_ok e = true ->
  chdir_ok e = false \/ burn_run e <> Exit 0 \/ restore_ok e = false
  \/ (exists size, burn_output e = Some size /\ size <= 1000) ->
  let r := embed_subtitles_safe e video_path srt_path user_id w in
  let scratch := [temp_name e "v" user_id (time_embed e) ".mp4";
                  temp_name e "s" user_id (time_embed e) ".srt";
                  temp_name e "o" user_id (time_embed e) ".mp4"] in
  r.1 = Raise Error
  /\ cwd r.2 = cwd w
  /\ (forall q, q ∈ scratch -> (remove_raises e q < 3)%nat ->
                files r.2 !! q = None)
  /\ (forall q, q ∉ scratch -> files r.2 !! q = files w !! q).
Proof.
  intros Hv Hs Hcv Hcs Hh Hcause r scratch. subst r scratch.
  pose proof (embed_cwd e video_path srt_path user_id w (or_introl Hh))
    as Hcwd.
  destruct (embed_subtitles_safe e video_path srt_path user_id w)
    as [[p|x] w'] eqn:E; cbn [fst snd] in *.
  - pose proof (embed_ok_restore _ _ _ _ _ _ _ E) as Hres.
    apply embed_ok in E as (_ & Hexit & _ & _ & Hch & _ & Hsz & _).
    destruct Hcause as [?|[?|[?|(size & Hout & ?)]]]; [congruence..|].
    specialize (Hsz size Hout). lia.
  - apply embed_raise in E
      as [(-> & Hwhy & Hkeep & _)
         |[(-> & ? & _)|(-> & _ & _ & _ & _ & Hgone & Hframe)]].
    + exfalso. destruct Hwhy as [?|[?|[Hsrt|?]]]; try congruence.
      assert (path_exists srt_path w = true) as Hex
          by (apply path_exists_lookup; congruence).
      apply Hkeep, path_exists_lookup in Hex. done.
    + congruence.
    + split; [done|]. split; [done|]. split; [|exact Hframe].
      intros q Hq Hrm. apply Hgone; [exact Hq|]. unfold removable.
      by apply Nat.ltb_lt.
Qed.

(** X6.  When one of the two copies fails - the video is missing, or
    [shutil.copyfile] raises - [embed_subtitles_safe] does not reach its
    cleanup: the handler fails on the unbound [original_dir], the caller
    gets an [UnboundLocalError], nothing is removed (a scratch video
    already copied stays on disk) and only the two scratch paths can have
    changed. *)
Theorem embed_subtitles_safe_copy_failure (e : env)
    (video_path srt_path : pystr) (user_id : Z) (w : world) :
  files w !! video_path = None \/ copy_video e <> IoOk \/ copy_srt e <> IoOk ->
  let r := embed_subtitles_safe e video_path srt_path user_id w in
  r.1 = Raise UnboundLocalError
  /\ cwd r.2 = cwd w
  /\ (forall q, path_exists q w = true -> path_exists q r.2 = true)
  /\ (forall q, q <> temp_name e "v" user_id (time_embed e) ".mp4" ->
                q <> temp_name e "s" user_id (time_embed e) ".srt" ->
                files r.2 !! q = files w !! q).
Proof.
  intros Hcause r. subst r.
  pose proof (embed_cwd_unless_oserror e video_path srt_path user_id w)
    as Hcwd.
  destruct (embed_subtitles_safe e video_path srt_path user_id w)
    as [[p|x] w'] eqn:E; cbn [fst snd] in *.
  - apply embed_ok in E as (_ & _ & ? & ? & _ & ? & _).
    destruct Hcause as [?|[?|?]]; congruence.
  - apply embed_raise in E
      as [(-> & _ & Hkeep & Hframe)
         |[(-> & _ & ? & ? & ? & _)|(-> & _ & ? & ? & ? & _)]].
    + split; [done|]. split; [by apply Hcwd|]. done.
    + destruct Hcause as [?|[?|?]]; congruence.
    + destruct Hcause as [?|[?|?]]; congruence.
Qed.

(** X7.  [embed_subtitles_safe] returns only after a run of the transcoder
    that exited with status 0, and what it returns is the output path,
    with more than 1000 bytes on disk.  On that path nothing is removed:
    the scratch copies of the video and of the subtitles are still there,
    as is every file that existed before. *)
Theorem embed_subtitles_safe_success (e : env) (video_path srt_path : pystr)
    (user_id : Z) (w : world) (p : pystr) :
  (embed_subtitles_safe e video_path srt_path user_id w).1 = Ok p ->
  let w' := (embed_subtitles_safe e video_path srt_path user_id w).2 in
  p = temp_name e "o" user_id (time_embed e) ".mp4"
  /\ burn_run e = Exit 0
  /\ exists_larger_than p 1000 w' = true
  /\ path_exists (temp_name e "v" user_id (time_embed e) ".mp4") w' = true
  /\ path_exists (temp_name e "s" user_id (time_embed e) ".srt") w' = true
  /\ (forall q, path_exists q w = true -> path_exists q w' = true)
  /\ cwd w' = cwd w.
Proof.
  intros Hok w'. subst w'.
  pose proof (embed_cwd_unless_oserror e video_path srt_path user_id w)
    as Hcwd.
  destruct (embed_subtitles_safe e video_path srt_path user_id w)
    as [[p'|x] w'] eqn:E; cbn [fst snd] in *; [|done].
  injection Hok as ->. specialize (Hcwd ltac:(done)).
  apply embed_ok in E as (-> & ? & _ & _ & _ & _ & _ & ? & ? & ? & ?).
  done.
Qed.

(** ** The orchestrator *)

Lemma step_rule {A : Type} (Q : (locals * result unit) * world -> Prop)
    (l : locals) (m : M A) k w :
  (forall x w', m w = (Raise x, w') -> Q ((l, Raise x), w')) ->
  (forall a w', m w = (Ok a, w') -> Q (k a w')) ->
  Q (step l m k w).
Proof. unfold step. destruct (m w) as [[a|x] w']; auto. Qed.

(** The steps that only talk: messages, checks, transcription and
    translation leave the files and the working directory alone. *)
Ltac talk_only E :=
  unfold transport, guard_ok, getsize in E; cbv beta in E;
  repeat case_match; simplify_eq; cbn [files cwd emit fst snd]; try done.

Lemma extract_audio_safe_cwd e video_path user_id w :
  cwd (extract_audio_safe e video_path user_id w).2 = cwd w.
Proof.
  unfold extract_audio_safe.
  destruct (negb (audio_run_raises e) && _); cbn [snd];
    rewrite ?cleanup_files_cwd, leave_output_cwd, cleanup_files_cwd; done.
Qed.

Lemma create_srt_file_safe_cwd e segments user_id w :
  cwd (create_srt_file_safe e segments user_id w).2 = cwd w.
Proof.
  unfold create_srt_file_safe.
  pose proof (create_file_cwd (srt_write e)
                (temp_name e "subs" user_id (time_srt e) ".srt")
                (TextFile (srt_content segments)) w) as H.
  destruct (create_file _ _ _ w) as [[[]|x] w']; cbn [snd] in *;
    rewrite ?cleanup_files_cwd; done.
Qed.

Lemma step_cwd {A : Type} (l : locals) (m : M A) k w c :
  cwd w = c ->
  (forall r w', m w = (r, w') -> cwd w' = cwd w) ->
  (forall a w', cwd w' = c -> cwd (k a w').2 = c) ->
  cwd (step l m k w).2 = c.
Proof.
  intros Hc Hm Hk. unfold step. specialize (Hm (m w).1 (m w).2).
  destruct (m w) as [[a|x] w']; cbn [fst snd] in *.
  - apply Hk. by rewrite Hm.
  - by rewrite Hm.
Qed.

Ltac keeps_cwd Hres E :=
  lazymatch type of E with
  | extract_audio_safe ?e ?v ?u ?w = _ =>
      let H := fresh in
      pose proof (extract_audio_safe_cwd e v u w) as H;
      rewrite E in H; exact H
  | create_srt_file_safe ?e ?s ?u ?w = _ =>
      let H := fresh in
      pose proof (create_srt_file_safe_cwd e s u w) as H;
      rewrite E in H; exact H
  | embed_subtitles_safe ?e ?v ?s ?u ?w = _ =>
      let H := fresh in
      pose proof (embed_cwd e v s u w Hres) as H; rewrite E in H; exact H
  | _ => talk_only E
  end.

Lemma process_video_try_cwd e video_path user_id w :
  handler_restore_ok e = true
  \/ (restore_ok e = true /\ exists rc, burn_run e = Exit rc)
  \/ chdir_ok e = false ->
  cwd (process_video_try e video_path user_id w).2 = cwd w.
Proof.
  intros Hres. unfold process_video_try.
  assert (cwd w = cwd w) as H by done. revert H.
  generalize (cwd w) at 2 3 as c. intros c H.
  repeat (apply step_cwd; [exact H|intros r w' E; keeps_cwd Hres E|];
          clear dependent w; intros ? w H).
  exact H.
Qed.

(** X8.  [process_video_complete] leaves the working directory as it
    found it, whatever stage fails and however, as long as the burn-in can
    go back: the [os.chdir(original_dir)] of its [except] clauses
    succeeds, or the one after a transcoder that exited does, or the
    directory was never changed because [os.chdir(work_dir)] raised. *)
Theorem process_video_complete_restores_cwd (e : env) (video_path : pystr)
    (user_id : Z) (w : world) :
  handler_restore_ok e = true
  \/ (restore_ok e = true /\ exists rc, burn_run e = Exit rc)
  \/ chdir_ok e = false ->
  cwd (process_video_complete e video_path user_id w).2 = cwd w.
Proof.
  intros Hres. unfold process_video_complete.
  pose proof (process_video_try_cwd e video_path user_id w Hres) as H.
  destruct (process_video_try e video_path user_id w) as [[l r] w'].
  cbn [snd] in *. rewrite cleanup_files_cwd. by destruct r.
Qed.

Lemma covered_update paths l l' w w' :
  covered paths l w ->
  (forall q, In (Some q) [audio_path l; srt_path l; output_path l] ->
             In (Some q) [audio_path l'; srt_path l'; output_path l']) ->
  (forall p, In p paths -> path_exists p w' = true ->
             path_exists p w = true
             \/ In (Some p) [audio_path l'; srt_path l'; output_path l']) ->
  covered paths l' w'.
Proof.
  intros Hc Hl Hw p Hp Hex. destruct (Hw p Hp Hex) as [Hold|Hnew]; [|done].
  apply Hl, (Hc p Hp Hold).
Qed.

Lemma covered_same_files paths l w w' :
  files w' = files w -> covered paths l w -> covered paths l w'.
Proof.
  intros Hf Hc. eapply covered_update; [exact Hc|done|].
  intros p _ Hex. left. unfold path_exists in *. by rewrite <- Hf.
Qed.

Lemma extract_audio_safe_cases e video_path user_id w r w' :
  removable e (audio_name e user_id) = true ->
  extract_audio_safe e video_path user_id w = (r, w') ->
  (forall p, p <> audio_name e user_id -> files w' !! p = files w !! p)
  /\ (r = Ok (audio_name e user_id)
      \/ (exists x, r = Raise x) /\ files w' !! audio_name e user_id = None).
Proof.
  intros Hrm E.
  destruct (extract_audio_safe_spec e video_path user_id w Hrm)
    as (Hframe & _ & Hcase).
  rewrite E in *. cbn [fst snd] in *. split; [exact Hframe|].
  destruct (audio_output e) as [size|];
    [destruct (negb (audio_run_raises e) && (1000 <? size))|];
    destruct Hcase as [-> Hfile]; eauto.
Qed.

Lemma create_srt_file_safe_cases e segments user_id w r w' :
  removable e (subs_name e user_id) = true ->
  create_srt_file_safe e segments user_id w = (r, w') ->
  (forall p, p <> subs_name e user_id -> files w' !! p = files w !! p)
  /\ (r = Ok (subs_name e user_id)
      \/ (exists x, r = Raise x) /\ files w' !! subs_name e user_id = None).
Proof.
  intros Hrm E.
  destruct (create_srt_file_safe_spec e segments user_id w Hrm)
    as (Hframe & _ & Hcase).
  rewrite E in *. cbn [fst snd] in *. split; [exact Hframe|].
  destruct (srt_write e); destruct Hcase as [-> Hfile]; eauto.
Qed.

Lemma embed_raise_output e video_path srt_path user_id w x w' :
  removable e (output_name e user_id) = true ->
  handler_restore_ok e = true ->
  embed_subtitles_safe e video_path srt_path user_id w = (Raise x, w') ->
  files w' !! output_name e user_id = None
  \/ files w' !! output_name e user_id = files w !! output_name e user_id.
Proof.
  intros Hrm Hh E.
  pose proof (temp_names_distinct e 0 0 0 0 user_id (time_embed e)
                user_id (time_embed e) user_id (time_embed e)) as Hnd.
  apply embed_raise in E
      as [(-> & _ & _ & Hframe)
         |[(-> & ? & _)|(-> & _ & _ & _ & _ & Hgone & _)]];
    [|congruence|].
  - right. apply Hframe.
    + intros Heq. unfold output_name, video_copy_name in Heq.
      rewrite !NoDup_cons in Hnd. destruct Hnd as (_ & _ & Hv & _).
      apply Hv. rewrite Heq, !elem_of_cons. auto.
    + intros Heq. unfold output_name, srt_copy_name in Heq.
      rewrite !NoDup_cons in Hnd. destruct Hnd as (_ & _ & _ & Hs & _).
      apply Hs. rewrite Heq, !elem_of_cons. auto.
  - left. apply Hgone; [|done]. rewrite !elem_of_cons. auto.
Qed.

Lemma step_rule2 {A : Type} (P : locals -> world -> Prop)
    (l : locals) (m : M A) k w :
  (forall x w', m w = (Raise x, w') -> P l w') ->
  (forall a w', m w = (Ok a, w') -> P (k a w').1.1 (k a w').2) ->
  P (step l m k w).1.1 (step l m k w).2.
Proof.
  intros Hx Ha. unfold step. destruct (m w) as [[a|x] w'] eqn:E.
  - by apply Ha.
  - by apply (Hx x).
Qed.

Ltac talk_step H :=
  lazymatch goal with
  | |- covered _ (step _ _ _ ?w0).1.1 _ =>
      apply step_rule2;
      [intros ? ?w E; refine (covered_same_files _ _ _ _ _ H); talk_only E
      |let w1 := fresh "w" in
       let H' := fresh "H" in
       intros ? w1 E;
       assert (H' := covered_same_files _ _ w0 w1 ltac:(talk_only E) H);
       clear H E; rename H' into H]
  end.

Lemma process_video_try_covered e video_path user_id w :
  removable e (audio_name e user_id) = true ->
  removable e (subs_name e user_id) = true ->
  removable e (output_name e user_id) = true ->
  let paths := audio_name e user_id :: subs_name e user_id
               :: (if handler_restore_ok e then [output_name e user_id]
                   else []) in
  covered paths (Locals None None None) w ->
  covered paths (process_video_try e video_path user_id w).1.1
          (process_video_try e video_path user_id w).2.
Proof.
  intros HrA HrS HrO paths.
  unfold process_video_try. intros H.
  talk_step H. talk_step H. talk_step H.
  (* audio extraction *)
  apply step_rule2.
  { intros x w3 E.
    destruct (extract_audio_safe_cases _ _ _ _ _ _ HrA E)
      as [Hframe [?|[_ Hgone]]]; [done|].
    eapply covered_update; [exact H|done|]. intros p Hp Hex. left.
    destruct (decide (p = audio_name e user_id)) as [->|Hne].
    - apply path_exists_lookup in Hex. done.
    - apply path_exists_lookup in Hex. apply path_exists_lookup.
      by rewrite <- Hframe. }
  intros audio w3 E.
  destruct (extract_audio_safe_cases _ _ _ _ _ _ HrA E)
    as [Hframe [[= ->]|[[x [=]] _]]].
  assert (covered paths (Locals (Some (audio_name e user_id)) None None) w3)
    as H3.
  { eapply covered_update; [exact H|by intros q [[=]|[[=]|[[=]|[]]]]|].
    intros p Hp Hex.
    destruct (decide (p = audio_name e user_id)) as [->|Hne];
      [right; by left|left].
    apply path_exists_lookup in Hex. apply path_exists_lookup.
    by rewrite <- Hframe. }
  clear H Hframe E. rename H3 into H.
  talk_step H. talk_step H. talk_step H. talk_step H.
  (* subtitle file *)
  apply step_rule2.
  { intros x w8 E.
    destruct (create_srt_file_safe_cases _ _ _ _ _ _ HrS E)
      as [Hframe [?|[_ Hgone]]]; [done|].
    eapply covered_update; [exact H|done|]. intros p Hp Hex. left.
    destruct (decide (p = subs_name e user_id)) as [->|Hne].
    - apply path_exists_lookup in Hex. done.
    - apply path_exists_lookup in Hex. apply path_exists_lookup.
      by rewrite <- Hframe. }
  intros srt w8 E.
  destruct (create_srt_file_safe_cases _ _ _ _ _ _ HrS E)
    as [Hframe [[= ->]|[[x [=]] _]]].
  assert (covered paths (Locals (Some (audio_name e user_id))
                                (Some (subs_name e user_id)) None) w8) as H8.
  { eapply covered_update; [exact H| |].
    - intros q [[= ->]|[[=]|[[=]|[]]]]. by left.
    - intros p Hp Hex.
      destruct (decide (p = subs_name e user_id)) as [->|Hne];
        [right; right; by left|left].
      apply path_exists_lookup in Hex. apply path_exists_lookup.
      by rewrite <- Hframe. }
  clear H Hframe E. rename H8 into H.
  talk_step H.
  (* burn-in *)
  apply step_rule2.
  { intros x w10 E.
    eapply covered_update; [exact H|done|]. intros p Hp Hex.
    destruct Hp as [<-|[<-|Hp]].
    - right. by left.
    - right. right. by left.
    - destruct (handler_restore_ok e) eqn:Hh; [|done].
      destruct Hp as [<-|[]].
      apply (embed_raise_output _ _ _ _ _ _ _ HrO Hh) in E.
      left. apply path_exists_lookup in Hex. apply path_exists_lookup.
      destruct E as [E|E]; [done|by rewrite <- E]. }
  intros output w10 E. apply embed_ok in E as (-> & _).
  assert (forall w', covered paths (Locals (Some (audio_name e user_id))
                                           (Some (subs_name e user_id))
                                           (Some (output_name e user_id))) w')
    as Hall.
  { intros w' p Hp _. destruct Hp as [<-|[<-|Hp]]; cbn; auto.
    destruct (handler_restore_ok e); [|done].
    destruct Hp as [<-|[]]; auto. }
  clear H.
  repeat (apply step_rule2; [intros; apply Hall|intros ? ? _]).
  apply Hall.
Qed.

(** X9.  Whatever happens to a job, [process_video_complete] leaves
    neither its audio file nor its subtitle file behind, and not its output
    file either unless the burn-in was left by a failing
    [os.chdir(original_dir)] in its [except] clause: if the three names
    are free when the job starts and [os.remove] works on them within
    three attempts, the audio and the subtitle file never exist when the
    function returns, and the output file does not exist when that
    [os.chdir] succeeds - after a success as after a failure of any
    stage. *)
Theorem process_video_complete_removes_its_files (e : env)
    (video_path : pystr) (user_id : Z) (w : world) (p : pystr) :
  p ∈ [temp_name e "audio" user_id (time_audio e) ".wav";
       temp_name e "subs" user_id (time_srt e) ".srt";
       temp_name e "o" user_id (time_embed e) ".mp4"] ->
  (forall q, q ∈ [temp_name e "audio" user_id (time_audio e) ".wav";
                  temp_name e "subs" user_id (time_srt e) ".srt";
                  temp_name e "o" user_id (time_embed e) ".mp4"] ->
             path_exists q w = false /\ (remove_raises e q < 3)%nat) ->
  (p = temp_name e "o" user_id (time_embed e) ".mp4" ->
   handler_restore_ok e = true) ->
  path_exists p (process_video_complete e video_path user_id w).2 = false.
Proof.
  fold (audio_name e user_id) (subs_name e user_id) (output_name e user_id).
  intros Hp Hfresh Hh.
  assert (forall q, q ∈ [audio_name e user_id; subs_name e user_id;
                         output_name e user_id] -> removable e q = true) as Hrm.
  { intros q Hq. unfold removable. apply Nat.ltb_lt. by apply Hfresh. }
  pose proof (process_video_try_covered e video_path user_id w) as Hcov.
  cbn zeta in Hcov.
  unfold process_video_complete.
  destruct (process_video_try e video_path user_id w) as [[l r] w'].
  cbn [fst snd] in *.
  apply path_exists_false. rewrite cleanup_files_files.
  assert (truthy p = true) as ->.
  { rewrite !elem_of_cons, elem_of_nil in Hp.
    destruct Hp as [->|[->|[->|[]]]]; apply temp_name_truthy. }
  rewrite (Hrm p Hp), !andb_true_r.
  destruct (bool_decide (Some p ∈ [audio_path l; srt_path l; output_path l]))
    eqn:Hin; [done|].
  apply bool_decide_eq_false in Hin.
  assert (forall u, path_exists p match r with
                                  | Ok _ => u
                                  | Raise _ => write_log [LogError 508] u
                                  end = path_exists p u) as Hlog
      by (intros u; by destruct r).
  apply path_exists_false. rewrite Hlog.
  destruct (path_exists p w') eqn:Hex; [|done].
  exfalso. apply Hin. apply list_elem_of_In.
  apply Hcov; try (apply Hrm; rewrite !elem_of_cons; auto).
  - intros q Hq Hexq.
    assert (q ∈ [audio_name e user_id; subs_name e user_id;
                 output_name e user_id]) as Hq'.
    { rewrite !elem_of_cons. destruct Hq as [<-|[<-|Hq]]; auto.
      destruct (handler_restore_ok e); [|done].
      destruct Hq as [<-|[]]; auto. }
    apply Hfresh in Hq' as [Hq' _]. congruence.
  - rewrite !elem_of_cons, elem_of_nil in Hp.
    destruct Hp as [->|[->|[->|[]]]]; [by left|right; by left|].
    rewrite (Hh eq_refl). right. right. by left.
  - done.
Qed.

(** ** Instances *)

Lemma safe_remove_outcome_witness :
  path_exists input_video start_world = true
  /\ files (safe_remove smooth_env input_video 3 start_world)
     = delete input_video (files start_world).
Proof.
  split; [reflexivity|].
  exact (proj1 (safe_remove_outcome smooth_env input_video start_world
                  eq_refl)).
Defined.

Lemma extract_audio_safe_outcome_witness :
  (remove_raises smooth_env
     (temp_name smooth_env "audio" 7 (time_audio smooth_env) ".wav") < 3)%nat
  /\ (extract_audio_safe smooth_env input_video 7 start_world).1
     = Ok (temp_name smooth_env "audio" 7 (time_audio smooth_env) ".wav").
Proof.
  assert (remove_raises smooth_env
            (temp_name smooth_env "audio" 7 (time_audio smooth_env) ".wav")
          < 3)%nat as H by (cbn; lia).
  split; [exact H|].
  exact (proj1 (proj2 (proj2 (extract_audio_safe_outcome smooth_env
                                input_video 7 start_world H)))).
Defined.

Lemma create_srt_file_safe_outcome_witness :
  (remove_raises smooth_env
     (temp_name smooth_env "subs" 7 (time_srt smooth_env) ".srt") < 3)%nat
  /\ (create_srt_file_safe smooth_env hello_segments 7 start_world).1
     = Ok (temp_name smooth_env "subs" 7 (time_srt smooth_env) ".srt").
Proof.
  assert (remove_raises smooth_env
            (temp_name smooth_env "subs" 7 (time_srt smooth_env) ".srt")
          < 3)%nat as H by (cbn; lia).
  split; [exact H|].
  exact (proj1 (proj2 (proj2 (create_srt_file_safe_outcome smooth_env
                                hello_segments 7 start_world H)))).
Defined.

Lemma embed_subtitles_safe_failure_cleans_witness :
  files burn_world !! input_video = Some (Blob 4000000)
  /\ files burn_world !! lit "/home/bot/tempfiles/subs_7_1700000003.srt"
     = Some (TextFile (srt_content hello_segments))
  /\ copy_video burn_fails_env = IoOk
  /\ copy_srt burn_fails_env = IoOk
  /\ handler_restore_ok burn_fails_env = true
  /\ burn_run burn_fails_env <> Exit 0
  /\ (embed_subtitles_safe burn_fails_env input_video
        (lit "/home/bot/tempfiles/subs_7_1700000003.srt") 7 burn_world).1
     = Raise Error.
Proof.
  assert (files burn_world !! input_video = Some (Blob 4000000)) as H1
      by (by vm_compute).
  assert (files burn_world !! lit "/home/bot/tempfiles/subs_7_1700000003.srt"
          = Some (TextFile (srt_content hello_segments))) as H2
      by (by vm_compute).
  assert (burn_run burn_fails_env <> Exit 0) as H3 by discriminate.
  split; [exact H1|]. split; [exact H2|]. split; [reflexivity|].
  split; [reflexivity|]. split; [reflexivity|]. split; [exact H3|].
  exact (proj1 (embed_subtitles_safe_failure_cleans burn_fails_env input_video
                  (lit "/home/bot/tempfiles/subs_7_1700000003.srt") 7
                  burn_world _ _ H1 H2 eq_refl eq_refl eq_refl
                  (or_intror (or_introl H3)))).
Defined.

Lemma embed_subtitles_safe_copy_failure_witness :
  copy_srt srt_copy_fails_env <> IoOk
  /\ (embed_subtitles_safe srt_copy_fails_env input_video
        (lit "/home/bot/tempfiles/subs_7_1700000003.srt") 7 burn_world).1
     = Raise UnboundLocalError.
Proof.
  assert (copy_srt srt_copy_fails_env <> IoOk) as H by discriminate.
  split; [exact H|].
  exact (proj1 (embed_subtitles_safe_copy_failure srt_copy_fails_env
                  input_video
                  (lit "/home/bot/tempfiles/subs_7_1700000003.srt") 7
                  burn_world (or_intror (or_intror H)))).
Defined.

Lemma embed_subtitles_safe_success_witness :
  (embed_subtitles_safe smooth_env input_video
     (lit "/home/bot/tempfiles/subs_7_1700000003.srt") 7 burn_world).1
  = Ok (lit "/home/bot/tempfiles/o_7_1700000004.mp4")
  /\ burn_run smooth_env = Exit 0.
Proof.
  assert ((embed_subtitles_safe smooth_env input_video
             (lit "/home/bot/tempfiles/subs_7_1700000003.srt") 7
             burn_world).1
          = Ok (lit "/home/bot/tempfiles/o_7_1700000004.mp4")) as H
      by (by vm_compute).
  split; [exact H|].
  exact (proj1 (proj2 (embed_subtitles_safe_success smooth_env input_video
                         (lit "/home/bot/tempfiles/subs_7_1700000003.srt") 7
                         burn_world _ H))).
Defined.

Lemma process_video_complete_restores_cwd_witness :
  (handler_restore_ok burn_fails_env = true
   \/ (restore_ok burn_fails_env = true
       /\ exists rc, burn_run burn_fails_env = Exit rc)
   \/ chdir_ok burn_fails_env = false)
  /\ cwd (process_video_complete burn_fails_env input_video 7 start_world).2
     = lit "/home/bot".
Proof.
  assert (handler_restore_ok burn_fails_env = true
          \/ (restore_ok burn_fails_env = true
              /\ exists rc, burn_run burn_fails_env = Exit rc)
          \/ chdir_ok burn_fails_env = false) as H by (left; reflexivity).
  split; [exact H|].
  exact (process_video_complete_restores_cwd burn_fails_env input_video 7
           start_world H).
Defined.

Lemma process_video_complete_removes_its_files_witness :
  path_exists (temp_name burn_fails_env "o" 7 (time_embed burn_fails_env)
                 ".mp4")
    (process_video_complete burn_fails_env input_video 7 start_world).2
  = false.
Proof.
  apply process_video_complete_removes_its_files.
  - rewrite !elem_of_cons. right. right. by left.
  - intros q Hq. rewrite !elem_of_cons, elem_of_nil in Hq.
    destruct Hq as [->|[->|[->|[]]]];
      (split; [by vm_compute|cbn; lia]).
  - reflexivity.
Defined.

(** ** Translation: the first answer, bounds, status updates *)

Lemma translate_loop_first_success tr text n remaining k t :
  (remaining <= n)%nat -> (n - remaining <= k < n)%nat ->
  (forall j, (n - remaining <= j < k)%nat ->
             tr_fails (translate tr j (strip text)) = true) ->
  translate tr k (strip text) = TrText t -> truthy t = true ->
  (translate_loop tr text n remaining).1 = t
  /\ translate_calls (translate_loop tr text n remaining).2
     = seq (n - remaining) (S k - (n - remaining)).
Proof.
  intros Hle Hk Hfail Hok Ht.
  induction remaining as [|r IH]; [lia|]. cbn [translate_loop].
  destruct (Nat.eq_dec (n - S r)%nat k) as [Heq|Hne].
  - rewrite Heq, Hok, Ht. cbn [fst snd]. split; [done|].
    by rewrite Nat.sub_succ_l, Nat.sub_diag by lia.
  - destruct IH as [IH1 IH2]; [lia|lia|intros; apply Hfail; lia|].
    replace (n - r)%nat with (S (n - S r)) in IH2 by lia.
    replace (S k - (n - S r))%nat with (S (S k - S (n - S r))) by lia.
    pose proof (Hfail (n - S r)%nat ltac:(lia)) as Hf.
    destruct (translate tr (n - S r) (strip text)) as [t'| |];
      cbn [tr_fails] in Hf.
    + apply negb_true_iff in Hf. rewrite Hf. cbn [fst snd seq].
      by rewrite translate_calls_cons, IH2.
    + cbn [fst snd seq]. by rewrite translate_calls_cons, IH2.
    + destruct (n - S r <? n - 1)%nat; cbn [fst snd seq];
        rewrite !translate_calls_cons, IH2; done.
Qed.

Lemma strip_truthy text : truthy (strip text) = true -> truthy text = true.
Proof. by destruct text. Qed.

(** X11.  [translate_text_safe] returns the first non-empty translation it
    gets: if the calls before the [k]-th fail and the [k]-th (one of the
    [max_retries] allowed) answers with a non-empty text, that text is the
    result and no further call is made. *)
Theorem translate_text_safe_first_answer (tr : translator) (text : pystr)
    (max_retries k : nat) (t : pystr) :
  translator_init tr = true ->
  truthy (strip text) = true ->
  (k < max_retries)%nat ->
  (forall j, (j < k)%nat -> tr_fails (translate tr j (strip text)) = true) ->
  translate tr k (strip text) = TrText t ->
  truthy t = true ->
  (translate_text_safe tr text max_retries).1 = Some t
  /\ translate_calls (translate_text_safe tr text max_retries).2 = seq 0 (S k).
Proof.
  intros Hinit Hs Hk Hfail Hok Ht. unfold translate_text_safe.
  rewrite Hs, (strip_truthy _ Hs), Hinit. cbn [negb orb fst snd].
  destruct (translate_loop_first_success tr text max_retries max_retries k t)
    as [H1 H2]; try done; [lia|intros; apply Hfail; lia|].
  rewrite H1, H2. by rewrite Nat.sub_diag, Nat.sub_0_r.
Qed.

Lemma translate_text_safe_first_answer_witness :
  translator_init tr_shalom = true
  /\ truthy (strip (lit " Hello there")) = true
  /\ (translate_text_safe tr_shalom (lit " Hello there") 3).1
     = Some [1513; 1500; 1493; 1501]%N.
Proof.
  split; [reflexivity|]. split; [reflexivity|].
  refine (proj1 (translate_text_safe_first_answer tr_shalom
                   (lit " Hello there") 3 0 [1513; 1500; 1493; 1501]%N
                   eq_refl eq_refl _ _ eq_refl eq_refl)).
  - lia.
  - intros j Hj. lia.
Defined.

(** *** Emitted texts *)

Lemma re_sub_mark_truthy mark text :
  truthy (re_sub_mark mark text) = truthy text.
Proof.
  destruct text as [|c rest]; [done|]. cbn [re_sub_mark].
  by destruct ((c =? mark)%N && negb (followed_by_space rest)).
Qed.

Lemma add_space_truthy text :
  truthy (add_space_after_punctuation text) = truthy text.
Proof.
  rewrite add_space_is_pass. generalize punctuation_marks as marks.
  intros marks. revert text.
  induction marks as [|m marks IH]; intros text; [done|].
  cbn [fold_left]. by rewrite IH, re_sub_mark_truthy.
Qed.

Lemma translate_loop_truthy tr text n remaining :
  truthy text = true -> truthy (translate_loop tr text n remaining).1 = true.
Proof.
  intros Ht. induction remaining as [|r IH]; [done|]. cbn [translate_loop].
  destruct (translate tr (n - S r) (strip text)) as [t| |]; [|done|].
  - by destruct (truthy t) eqn:E.
  - by destruct (n - S r <? n - 1)%nat.
Qed.

Lemma get_text_Segment a b t : get_text (Segment a b (Some t)) = t.
Proof. reflexivity. Qed.

Lemma process_segment_texts tr total i s :
  Forall (fun s' => truthy (get_text s') = true) (process_segment tr total i s).1.
Proof.
  unfold process_segment.
  destruct (truthy (strip (get_text s))) eqn:Hs; cbn [negb]; [|by constructor].
  unfold translate_text_safe. rewrite Hs.
  destruct (truthy (strip (strip (get_text s)))); cbn [negb orb].
  - destruct (translator_init tr); cbn [fst].
    + constructor; [|done]. rewrite get_text_Segment, add_space_truthy.
      by apply translate_loop_truthy.
    + constructor; [|done]. rewrite get_text_Segment. by apply strip_truthy.
  - constructor; [|done]. by rewrite get_text_Segment, add_space_truthy.
Qed.

Lemma process_segments_loop_texts service total i segments :
  Forall (fun s' => truthy (get_text s') = true)
         (process_segments_loop service total i segments).1.
Proof.
  revert i. induction segments as [|s rest IH]; intros i; [done|].
  cbn [process_segments_loop fst]. apply Forall_app.
  split; [apply process_segment_texts|apply IH].
Qed.

(** X12.  No segment that the translation pass emits has an empty text, so
    the composer leaves none of them out: the subtitle file gets exactly
    one entry for each input segment that is not blank. *)
Theorem translated_segments_all_composed (service : nat -> translator)
    (segments : list seg_dict) :
  let out := (process_segments_safe service segments).1 in
  Forall (fun s => truthy (get_text s) = true) out
  /\ emitted out = out
  /\ length (emitted out) = length (List.filter has_text segments).
Proof.
  intros out. subst out.
  pose proof (process_segments_loop_texts service (length segments) 0 segments)
    as Hall.
  fold (process_segments_safe service segments) in Hall.
  assert (emitted (process_segments_safe service segments).1
          = (process_segments_safe service segments).1) as Hem.
  { unfold emitted. induction Hall as [|s l Hs Hl IH]; [done|].
    cbn [List.filter]. by rewrite Hs, IH. }
  split; [exact Hall|]. split; [exact Hem|]. rewrite Hem.
  unfold process_segments_safe.
  rewrite <- (length_map times), process_segments_loop_times.
  apply length_map.
Qed.

(** *** Calls and pauses *)

Lemma translate_calls_call k evs :
  translate_calls (TranslateCall k :: evs) = k :: translate_calls evs.
Proof. reflexivity. Qed.

Lemma translate_calls_sleep millis evs :
  translate_calls (Sleep millis :: evs) = translate_calls evs.
Proof. reflexivity. Qed.

Lemma translate_loop_calls_bound tr text n remaining :
  (length (translate_calls (translate_loop tr text n remaining).2)
   <= remaining)%nat.
Proof.
  induction remaining as [|r IH]; [done|]. cbn [translate_loop].
  destruct (translate tr (n - S r) (strip text)) as [t| |].
  - destruct (truthy t); cbn [snd]; rewrite translate_calls_call;
      cbn [length]; [change (translate_calls []) with (@nil nat); cbn|]; lia.
  - cbn [snd]. rewrite translate_calls_call. cbn [length]. lia.
  - destruct (n - S r <? n - 1)%nat; cbn [snd];
      rewrite translate_calls_call, ?translate_calls_sleep; cbn [length]; lia.
Qed.

Lemma total_all_equal d l :
  Forall (fun x => x = d) l -> total l = d * Z.of_nat (length l).
Proof.
  intros H. induction H as [|x l Hx _ IH]; [cbn; lia|]. subst x.
  unfold total in *. cbn [fold_right length]. rewrite IH. lia.
Qed.

Lemma total_app a b : total (a ++ b) = total a + total b.
Proof.
  induction a as [|x a IH]; [done|].
  unfold total in *. cbn [app fold_right]. rewrite IH. lia.
Qed.

Lemma sleeps_app a b : sleeps (a ++ b) = sleeps a ++ sleeps b.
Proof. apply omap_app. Qed.

Lemma translate_calls_app a b :
  translate_calls (a ++ b) = translate_calls a ++ translate_calls b.
Proof. apply omap_app. Qed.

Lemma process_segment_bounds tr total_segments i s :
  let ev := (process_segment tr total_segments i s).2 in
  (length (translate_calls ev) <= if has_text s then 3 else 0)%nat
  /\ 0 <= total (sleeps ev) <= if has_text s then 2000 else 0.
Proof.
  unfold process_segment, has_text.
  set (status := if (i mod 5 =? 0)%nat || (i =? total_segments - 1)%nat
                 then [Progress (i + 1) total_segments] else []).
  assert (translate_calls status = [] /\ sleeps status = []) as [Hc Hs]
      by (subst status; by destruct ((i mod 5 =? 0)%nat || (i =? total_segments - 1)%nat)).
  destruct (truthy (strip (get_text s))) eqn:Ht; cbn [negb].
  2: { cbn [snd]. rewrite Hc, Hs. cbn. lia. }
  assert ((length (translate_calls
                     (translate_text_safe tr (strip (get_text s)) 3).2)
           <= 3)%nat
          /\ 0 <= total (sleeps (translate_text_safe tr (strip (get_text s))
                                   3).2) <= 2000) as [H1 H2].
  { unfold translate_text_safe.
    destruct (negb _ || negb _); [cbn; lia|].
    destruct (translator_init tr); [|cbn; lia]. cbn [snd]. split.
    - apply translate_loop_calls_bound.
    - destruct (translate_loop_sleeps tr (strip (get_text s)) 3 3 (le_n _))
        as [Hall Hlen].
      rewrite (total_all_equal 1000 _ Hall). lia. }
  destruct (translate_text_safe tr (strip (get_text s)) 3) as [[t|] ev];
    cbn [snd] in *;
    rewrite translate_calls_app, sleeps_app, Hc, Hs; cbn [app]; lia.
Qed.

Lemma process_segments_loop_effort service n i segments :
  (length (translate_calls (process_segments_loop service n i segments).2)
   <= 3 * length (List.filter has_text segments))%nat
  /\ 0 <= total (sleeps (process_segments_loop service n i segments).2)
       <= 2000 * Z.of_nat (length (List.filter has_text segments)).
Proof.
  revert i. induction segments as [|s rest IH]; intros i; [cbn; lia|].
  cbn [process_segments_loop snd List.filter].
  rewrite translate_calls_app, sleeps_app, length_app, total_app.
  destruct (process_segment_bounds (service i) n i s) as [H1 H2].
  destruct (IH (S i)) as [H3 H4].
  destruct (has_text s); cbn [length]; lia.
Qed.

(** X13.  The translation pass calls the translation service at most
    three times and pauses at most two seconds for each segment that is
    not blank, and not at all for the others. *)
Theorem process_segments_safe_effort (service : nat -> translator)
    (segments : list seg_dict) :
  let ev := (process_segments_safe service segments).2 in
  let spoken := length (List.filter has_text segments) in
  (length (translate_calls ev) <= 3 * spoken)%nat
  /\ 0 <= total (sleeps ev) <= 2000 * Z.of_nat spoken.
Proof. apply process_segments_loop_effort. Qed.

(** *** Status updates *)

Lemma progress_updates_app a b :
  progress_updates (a ++ b) = progress_updates a ++ progress_updates b.
Proof. apply omap_app. Qed.

Lemma translate_loop_no_progress tr text n remaining :
  progress_updates (translate_loop tr text n remaining).2 = [].
Proof.
  induction remaining as [|r IH]; [done|]. cbn [translate_loop].
  destruct (translate tr (n - S r) (strip text)) as [t| |].
  - by destruct (truthy t).
  - done.
  - by destruct (n - S r <? n - 1)%nat.
Qed.

Lemma process_segment_progress tr total_segments i s :
  progress_updates (process_segment tr total_segments i s).2
  = if reports total_segments i then [(S i, total_segments)] else [].
Proof.
  unfold process_segment, reports.
  set (status := if (i mod 5 =? 0)%nat || (i =? total_segments - 1)%nat
                 then [Progress (i + 1) total_segments] else []).
  assert (progress_updates status
          = if (i mod 5 =? 0)%nat || (i =? total_segments - 1)%nat
            then [(S i, total_segments)] else []) as Hst.
  { subst status. destruct ((i mod 5 =? 0)%nat || (i =? total_segments - 1)%nat); [|done].
    cbn. by rewrite Nat.add_1_r. }
  destruct (truthy (strip (get_text s))); cbn [negb]; [|done].
  assert (progress_updates
            (translate_text_safe tr (strip (get_text s)) 3).2 = []) as Htr.
  { unfold translate_text_safe. destruct (negb _ || negb _); [done|].
    destruct (translator_init tr); [|done]. apply translate_loop_no_progress. }
  destruct (translate_text_safe tr (strip (get_text s)) 3) as [[t|] ev];
    cbn [snd] in *; by rewrite progress_updates_app, Htr, app_nil_r.
Qed.

Lemma process_segments_loop_progress service total_segments i segments :
  progress_updates (process_segments_loop service total_segments i segments).2
  = List.map (fun j => (S j, total_segments))
      (List.filter (reports total_segments) (seq i (length segments))).
Proof.
  revert i. induction segments as [|s rest IH]; intros i; [done|].
  cbn [process_segments_loop snd length seq List.filter].
  rewrite progress_updates_app, process_segment_progress, IH.
  by destruct (reports total_segments i).
Qed.

(** X14.  The translation pass updates the status for the segments with
    index 0, 5, 10, ... and for the last one, and for no other, whatever
    the texts are and whatever the translation service does; each update
    carries the number of the segment and the number of segments. *)
Theorem process_segments_safe_status_updates (service : nat -> translator)
    (segments : list seg_dict) :
  progress_updates (process_segments_safe service segments).2
  = List.map (fun i => (S i, length segments))
      (List.filter (fun i => (i mod 5 =? 0)%nat
                             || (i =? length segments - 1)%nat)
                   (seq 0 (length segments))).
Proof. apply process_segments_loop_progress. Qed.

(** *** Spacing of the emitted texts *)

Lemma process_segment_spaced tr total_segments i s mark :
  translator_init tr = true -> In mark punctuation_marks ->
  Forall (fun s' => spaced mark (get_text s') = true)
         (process_segment tr total_segments i s).1.
Proof.
  intros Hinit Hm. unfold process_segment.
  destruct (truthy (strip (get_text s))); cbn [negb]; [|by constructor].
  unfold translate_text_safe. rewrite Hinit.
  destruct (negb _ || negb _); cbn [fst]; (constructor; [|done]);
    rewrite get_text_Segment, add_space_is_pass;
    (apply spacing_pass_spaced; [apply marks_not_space|done]).
Qed.

Lemma process_segments_loop_spaced service n i segments mark :
  (forall i, translator_init (service i) = true) ->
  In mark punctuation_marks ->
  Forall (fun s => spaced mark (get_text s) = true)
         (process_segments_loop service n i segments).1.
Proof.
  intros Hinit Hm. revert i.
  induction segments as [|s rest IH]; intros i; [by constructor|].
  cbn [process_segments_loop fst]. apply Forall_app.
  split; [by apply process_segment_spaced|apply IH].
Qed.

(** X15.  As long as the translation service can be built, every text the
    translation pass emits - translated or not - has each of the handled
    punctuation marks followed by a whitespace character. *)
Theorem process_segments_safe_texts_spaced (service : nat -> translator)
    (segments : list seg_dict) (mark : N) :
  (forall i, translator_init (service i) = true) ->
  In mark punctuation_marks ->
  Forall (fun s => spaced mark (get_text s) = true)
         (process_segments_safe service segments).1.
Proof. apply process_segments_loop_spaced. Qed.

Lemma process_segments_safe_texts_spaced_witness :
  (forall i : nat, translator_init ((fun _ => tr_unreachable) i) = true)
  /\ In 63%N punctuation_marks
  /\ Forall (fun s => spaced 63%N (get_text s) = true)
            (process_segments_safe (fun _ => tr_unreachable) hello_segments).1.
Proof.
  assert (In 63%N punctuation_marks) as Hin
      by (vm_compute; do 3 right; by left).
  split; [done|]. split; [exact Hin|].
  exact (process_segments_safe_texts_spaced (fun _ => tr_unreachable)
           hello_segments 63%N (fun _ => eq_refl) Hin).
Defined.

(** ** Download: pauses and success *)

Lemma download_loop_pause net n remaining :
  (1 <= remaining <= n)%nat ->
  0 <= total (sleeps (download_loop net n remaining).2)
    <= 1000 * (2 ^ Z.of_nat (n - 1) - 2 ^ Z.of_nat (n - remaining)).
Proof.
  induction remaining as [|r IH]; [lia|]. intros Hr.
  cbn [download_loop]. rewrite one_attempt_class.
  remember (n - S r)%nat as s eqn:Hs.
  assert (0 < 2 ^ Z.of_nat s) as Hpos by (apply Z.pow_pos_nonneg; lia).
  assert (2 ^ Z.of_nat s <= 2 ^ Z.of_nat (n - 1)) as Hmono
      by (apply Z.pow_le_mono_r; lia).
  assert ((s < n - 1)%nat -> 2 * 2 ^ Z.of_nat s <= 2 ^ Z.of_nat (n - 1))
    as Hstep.
  { intros Hlt. rewrite <- Z.pow_succ_r, <- Nat2Z.inj_succ by lia.
    apply Z.pow_le_mono_r; lia. }
  assert (0 <= total (sleeps (download_loop net n r).2)
          /\ (total (sleeps (download_loop net n r).2) = 0
              \/ ((s < n - 1)%nat
                  /\ total (sleeps (download_loop net n r).2)
                     <= 1000 * (2 ^ Z.of_nat (n - 1) - 2 * 2 ^ Z.of_nat s))))
    as [Hnn Hnext].
  { destruct r as [|r']; [cbn; lia|].
    destruct (IH ltac:(lia)) as [H0 H1]. split; [done|]. right.
    split; [lia|]. replace (n - S r')%nat with (S s) in H1 by lia.
    by rewrite Nat2Z.inj_succ, Z.pow_succ_r in H1 by lia. }
  clear IH.
  destruct (class (net s)); cbn [fst snd].
  - change (total (sleeps [DownloadAttempt s])) with 0. lia.
  - change (total (sleeps [DownloadAttempt s])) with 0. lia.
  - destruct (Nat.ltb_spec s (n - 1)); cbn [snd].
    + change (sleeps (DownloadAttempt s :: Sleep (1000 * 2 ^ Z.of_nat s)
                        :: (download_loop net n r).2))
        with (1000 * 2 ^ Z.of_nat s :: sleeps (download_loop net n r).2).
      unfold total in *. cbn [fold_right]. specialize (Hstep H).
      destruct Hnext as [->|[_ Hnext]]; lia.
    + change (sleeps (DownloadAttempt s :: (download_loop net n r).2))
        with (sleeps (download_loop net n r).2).
      destruct Hnext as [->|[? _]]; lia.
  - change (sleeps (DownloadAttempt s :: (download_loop net n r).2))
      with (sleeps (download_loop net n r).2).
    destruct Hnext as [->|[_ Hnext]]; lia.
Qed.

(** X16.  All the pauses of [download_file_safe] together last less than
    [2 ** (max_retries - 1)] seconds: with the default of two attempts, at
    most one second. *)
Theorem download_file_safe_total_pause (net : nat -> attempt_end)
    (max_retries : nat) :
  0 <= total (sleeps (download_file_safe net max_retries).2)
    <= 1000 * (2 ^ Z.of_nat (max_retries - 1) - 1).
Proof.
  unfold download_file_safe. destruct max_retries as [|n]; [cbn; lia|].
  pose proof (download_loop_pause net (S n) (S n) ltac:(lia)) as H.
  rewrite Nat.sub_diag in H. exact H.
Qed.

Lemma class_success a :
  class a = Success ->
  exists declared size,
    a = GotFile declared (DownloadReturns (Some size))
    /\ 100 < size
    /\ match declared with
       | Some d => d <= 20 * 1024 * 1024
       | None => True
       end.
Proof.
  assert (forall e, error_class e <> Success) as Herr.
  { intros [msg| | |]; cbn [error_class]; try done.
    by repeat destruct (contains _ msg). }
  destruct a as [e|[d|] [e|[sz|]]]; cbn [class]; intros H;
    try (by apply Herr in H); try done.
  - destruct (Z.ltb_spec (20 * 1024 * 1024) d); [done|]. by apply Herr in H.
  - destruct (Z.ltb_spec (20 * 1024 * 1024) d); [done|].
    destruct (Z.ltb_spec 100 sz); [|done]. by exists (Some d), sz.
  - by destruct (20 * 1024 * 1024 <? d).
  - destruct (Z.ltb_spec 100 sz); [|done]. by exists None, sz.
Qed.

Lemma download_success_attempt net max_retries msg :
  (download_file_safe net max_retries).1 = (true, msg) ->
  msg = MsgDownloaded
  /\ exists (j : nat) declared size,
       (j < max_retries)%nat
       /\ net j = GotFile declared (DownloadReturns (Some size))
       /\ 100 < size
       /\ match declared with
          | Some d => d <= 20 * 1024 * 1024
          | None => True
          end.
Proof.
  intros Hok.
  pose proof (download_loop_shape net max_retries max_retries (le_n _)) as H.
  cbn zeta in H. rewrite Nat.sub_diag in H.
  fold (download_file_safe net max_retries) in H.
  destruct H as (k & Hk & _ & _ & [(_ & _ & Hres)|(j & -> & Hfin)]).
  { rewrite Hres in Hok. done. }
  cbn [Nat.add] in Hfin. unfold final in Hfin. rewrite Hok in Hfin.
  destruct (class (net j)) eqn:Hc; try done.
  injection Hfin as ->. split; [done|].
  destruct (class_success _ Hc) as (declared & size & Hnet & Hsz & Hdecl).
  exists j, declared, size. split; [lia|done].
Qed.

(** X17.  [download_file_safe] reports success only after an attempt,
    among the [max_retries] allowed, whose download returned and left more
    than 100 bytes on disk, for a file not declared above 20 MB; the
    message is then the one for a successful download. *)
Theorem download_file_safe_success (net : nat -> attempt_end)
    (max_retries : nat) (msg : download_msg) :
  (download_file_safe net max_retries).1 = (true, msg) ->
  msg = MsgDownloaded
  /\ exists (j : nat) declared size,
       (j < max_retries)%nat
       /\ net j = GotFile declared (DownloadReturns (Some size))
       /\ 100 < size
       /\ match declared with
          | Some d => d <= 20 * 1024 * 1024
          | None => True
          end.
Proof. apply download_success_attempt. Qed.

Lemma download_file_safe_success_witness :
  (download_file_safe net_disk_hiccup 2).1 = (true, MsgDownloaded)
  /\ exists (j : nat) declared size,
       (j < 2)%nat
       /\ net_disk_hiccup j = GotFile declared (DownloadReturns (Some size))
       /\ 100 < size.
Proof.
  split; [reflexivity|].
  destruct (download_file_safe_success net_disk_hiccup 2 MsgDownloaded eq_refl)
    as (_ & j & declared & size & Hj & Hnet & Hsz & _).
  by exists j, declared, size.
Defined.

(** ** SRT time stamps of whole seconds *)

Lemma py_float_int z :
  0 <= z < 2 ^ 53 -> py_float (PyInt z) = Some (Finite (z * U)).
Proof.
  intros Hz. cbn [py_float]. replace (z * U) with (z * U * 1) at 1 by lia.
  rewrite RN_exact; [done|lia| |by apply binary64_int].
  pose proof U_pos. nia.
Qed.

(** X18.  For a whole number of seconds below 100 hours, [format_srt_time]
    is exact: the hours, minutes and seconds of the number, each with two
    digits, and [,000]. *)
Theorem format_srt_time_whole_seconds (z : Z) :
  0 <= z < 360000 ->
  format_srt_time (PyInt z)
  = two_digits (z / 3600) ++ lit ":" ++ two_digits (z mod 3600 / 60)
    ++ lit ":" ++ two_digits (z mod 60) ++ lit ",000".
Proof.
  intros Hz. pose proof U_pos as HU.
  assert (360000 < 2 ^ 53) as H53 by (by vm_compute).
  unfold format_srt_time. rewrite py_float_int by lia.
  cbn [mbind option_bind].
  rewrite (float_floordiv_nonneg (z * U) 3600) by nia.
  rewrite Z.div_mul_cancel_r, int_of_float_units by lia.
  cbn [mbind option_bind].
  rewrite (float_mod_nonneg (z * U) 3600), (float_mod_nonneg (z * U) 60)
    by nia.
  rewrite !Z.mul_mod_distr_r by lia.
  pose proof (Z.mod_pos_bound z 3600 ltac:(lia)).
  pose proof (Z.mod_pos_bound z 60 ltac:(lia)).
  rewrite (float_floordiv_nonneg (z mod 3600 * U) 60) by nia.
  rewrite Z.div_mul_cancel_r, int_of_float_units by lia.
  cbn [mbind option_bind].
  rewrite float_mod_nonneg by nia.
  rewrite Z.mul_1_l, Z.mod_mul by lia.
  destruct (float_mul_1000 0) as (m & -> & _ & _ & Hm).
  { assert (0 < 2 ^ 1021) by (by apply pow2_pos).
    assert (U = 2 ^ 53 * 2 ^ 1021)
      by (unfold U; by rewrite (pow2_split 1074 1021)).
    nia. }
  rewrite Hm by (by rewrite Z.mul_0_r, Z.mod_0_l by lia).
  rewrite Z.mul_0_r. cbn [int_of_float mbind option_bind].
  rewrite Z.quot_0_l, Z.quot_mul by lia.
  rewrite !format_d_two; [done|..].
  - lia.
  - split; [apply Z.div_pos; lia|apply Z.div_lt_upper_bound; lia].
  - split; [apply Z.div_pos; lia|apply Z.div_lt_upper_bound; lia].
Qed.

Lemma format_srt_time_whole_seconds_witness :
  0 <= 3661 < 360000
  /\ format_srt_time (PyInt 3661) = lit "01:01:01,000".
Proof.
  assert (0 <= 3661 < 360000) as H by lia.
  split; [exact H|]. exact (format_srt_time_whole_seconds 3661 H).
Defined.

(** ** Files that a job leaves alone, and files that it leaves behind *)

Lemma extract_audio_safe_ok e video_path user_id w a w' :
  extract_audio_safe e video_path user_id w = (Ok a, w') ->
  a = audio_name e user_id.
Proof.
  unfold extract_audio_safe. destruct (negb _ && _); intros [= <- <-]; done.
Qed.

Lemma create_srt_file_safe_ok e segments user_id w s w' :
  create_srt_file_safe e segments user_id w = (Ok s, w') ->
  s = subs_name e user_id.
Proof.
  unfold create_srt_file_safe. destruct (create_file _ _ _ w) as [[[]|x] w1];
    intros [= <- <-]; done.
Qed.

Lemma extract_audio_safe_frame e video_path user_id w q :
  q <> audio_name e user_id ->
  files (extract_audio_safe e video_path user_id w).2 !! q = files w !! q.
Proof.
  intros Hne. unfold extract_audio_safe. fold (audio_name e user_id).
  assert (Some q ∉ [Some (audio_name e user_id)]) as Hnin.
  { rewrite list_elem_of_singleton. congruence. }
  assert (forall w0, files (leave_output (audio_name e user_id)
                              (audio_output e) w0) !! q = files w0 !! q)
    as Hleave.
  { intros w0. unfold leave_output. destruct (audio_output e); [|done].
    cbn [files set_files]. by rewrite lookup_insert_ne. }
  destruct (negb _ && _); cbn [snd];
    rewrite ?cleanup_frame, Hleave, ?cleanup_frame by done; done.
Qed.

Lemma create_srt_file_safe_frame e segments user_id w q :
  q <> subs_name e user_id ->
  files (create_srt_file_safe e segments user_id w).2 !! q = files w !! q.
Proof.
  intros Hne. unfold create_srt_file_safe, create_file.
  fold (subs_name e user_id).
  assert (Some q ∉ [Some (subs_name e user_id)]) as Hnin.
  { rewrite list_elem_of_singleton. congruence. }
  destruct (srt_write e); cbn [snd files set_files];
    rewrite ?cleanup_frame by done; cbn [files set_files];
    rewrite ?lookup_insert_ne; done.
Qed.

Lemma embed_frame e video_path srt_path user_id w q :
  q <> video_copy_name e user_id -> q <> srt_copy_name e user_id ->
  q <> output_name e user_id ->
  files (embed_subtitles_safe e video_path srt_path user_id w).2 !! q
  = files w !! q.
Proof.
  intros Hv Hs Ho.
  destruct (embed_subtitles_safe e video_path srt_path user_id w)
    as [[p|x] w'] eqn:E; cbn [snd].
  - unfold output_name, video_copy_name, srt_copy_name in *.
    embed_inv E e video_path srt_path.
    all: destruct (burn_output e); lookup_inserts.
  - apply embed_raise in E
      as [(_ & _ & _ & Hframe)
         |[(_ & _ & _ & _ & _ & _ & Hframe)
          |(_ & _ & _ & _ & _ & _ & Hframe)]].
    + by apply Hframe.
    + apply Hframe. rewrite !elem_of_cons, elem_of_nil. intuition congruence.
    + apply Hframe. rewrite !elem_of_cons, elem_of_nil. intuition congruence.
Qed.

Lemma step_keeps {A : Type} (l : locals) (m : M A) k w q (f0 : option file) :
  files w !! q = f0 ->
  (forall r w', m w = (r, w') -> files w' !! q = files w !! q) ->
  (forall a w', files w' !! q = f0 -> files (k a w').2 !! q = f0) ->
  files (step l m k w).2 !! q = f0.
Proof.
  intros Hc Hm Hk. unfold step. specialize (Hm (m w).1 (m w).2).
  destruct (m w) as [[a|x] w']; cbn [fst snd] in *.
  - apply Hk. by rewrite Hm.
  - by rewrite Hm.
Qed.

Lemma process_video_try_frame e video_path user_id w q :
  q ∉ job_names e user_id ->
  files (process_video_try e video_path user_id w).2 !! q = files w !! q.
Proof.
  unfold job_names. rewrite !elem_of_cons, elem_of_nil. intros Hq.
  assert (q <> audio_name e user_id) as HA by intuition congruence.
  assert (q <> subs_name e user_id) as HS by intuition congruence.
  assert (q <> video_copy_name e user_id) as HV by intuition congruence.
  assert (q <> srt_copy_name e user_id) as HC by intuition congruence.
  assert (q <> output_name e user_id) as HO by intuition congruence.
  clear Hq. unfold process_video_try.
  assert (files w !! q = files w !! q) as H by done. revert H.
  generalize (files w !! q) at 2 3 as f0. intros f0 H.
  repeat (apply step_keeps;
          [exact H
          |let E := fresh "E" in
           intros ? ? E;
           lazymatch type of E with
           | extract_audio_safe ?e ?v ?u ?w0 = _ =>
               let H' := fresh in
               pose proof (extract_audio_safe_frame e v u w0 q HA) as H';
               rewrite E in H'; exact H'
           | create_srt_file_safe ?e ?s ?u ?w0 = _ =>
               let H' := fresh in
               pose proof (create_srt_file_safe_frame e s u w0 q HS) as H';
               rewrite E in H'; exact H'
           | embed_subtitles_safe ?e ?v ?s ?u ?w0 = _ =>
               let H' := fresh in
               pose proof (embed_frame e v s u w0 q HV HC HO) as H';
               rewrite E in H'; exact H'
           | _ => talk_only E
           end
          |];
          let H' := fresh in
          intros ? ? H'; clear H; rename H' into H).
  exact H.
Qed.

Lemma process_video_try_locals e video_path user_id w p :
  Some p ∈ [audio_path (process_video_try e video_path user_id w).1.1;
            srt_path (process_video_try e video_path user_id w).1.1;
            output_path (process_video_try e video_path user_id w).1.1] ->
  p ∈ [audio_name e user_id; subs_name e user_id; output_name e user_id].
Proof.
  unfold process_video_try.
  set (P := fun (l : locals) (_ : world) =>
              Some p ∈ [audio_path l; srt_path l; output_path l] ->
              p ∈ [audio_name e user_id; subs_name e user_id;
                   output_name e user_id]).
  assert (forall w0, P (Locals None None None) w0) as P0.
  { intros w0. unfold P. cbn. rewrite !elem_of_cons, elem_of_nil.
    intuition congruence. }
  assert (forall w0, P (Locals (Some (audio_name e user_id)) None None) w0)
    as P1.
  { intros w0. unfold P. cbn. rewrite !elem_of_cons, !elem_of_nil.
    intuition congruence. }
  assert (forall w0, P (Locals (Some (audio_name e user_id))
                               (Some (subs_name e user_id)) None) w0) as P2.
  { intros w0. unfold P. cbn. rewrite !elem_of_cons, !elem_of_nil.
    intuition congruence. }
  assert (forall w0, P (Locals (Some (audio_name e user_id))
                               (Some (subs_name e user_id))
                               (Some (output_name e user_id))) w0) as P3.
  { intros w0. unfold P. cbn. rewrite !elem_of_cons, !elem_of_nil.
    intuition congruence. }
  do 3 (apply (step_rule2 P); [intros; apply P0|intros ? ? _]).
  apply (step_rule2 P); [intros; apply P0|intros audio w3 E].
  apply extract_audio_safe_ok in E as ->.
  do 4 (apply (step_rule2 P); [intros; apply P1|intros ? ? _]).
  apply (step_rule2 P); [intros; apply P1|intros srt w8 E].
  apply create_srt_file_safe_ok in E as ->.
  apply (step_rule2 P); [intros; apply P2|intros ? ? _].
  apply (step_rule2 P); [intros; apply P2|intros output w10 E].
  apply embed_ok in E as (-> & _).
  repeat (apply (step_rule2 P); [intros; apply P3|intros ? ? _]).
  apply P3.
Qed.

Lemma process_video_complete_frame e video_path user_id w q :
  q ∉ job_names e user_id ->
  files (process_video_complete e video_path user_id w).2 !! q = files w !! q.
Proof.
  intros Hq. unfold process_video_complete.
  pose proof (process_video_try_frame e video_path user_id w q Hq) as Hframe.
  pose proof (process_video_try_locals e video_path user_id w q) as Hl.
  destruct (process_video_try e video_path user_id w) as [[l r] w'].
  cbn [fst snd] in *. rewrite cleanup_frame; [by destruct r|].
  intros Hin. apply Hl in Hin. apply Hq. unfold job_names.
  rewrite !elem_of_cons, elem_of_nil in *. intuition congruence.
Qed.

(** ** The log *)

Lemma log_grows_refl line w w' :
  logged w' = logged w -> log_grows_without line w w'.
Proof. intros H. exists []. by rewrite app_nil_r. Qed.

Lemma log_grows_trans line w1 w2 w3 :
  log_grows_without line w1 w2 -> log_grows_without line w2 w3 ->
  log_grows_without line w1 w3.
Proof.
  intros (r1 & H1 & F1) (r2 & H2 & F2). exists (r1 ++ r2).
  split; [by rewrite H2, H1, app_assoc|by apply Forall_app].
Qed.

Lemma log_grows_write_log line records w :
  Forall (fun x => x <> LogError line) records ->
  log_grows_without line w (write_log records w).
Proof. intros H. by exists records. Qed.

Lemma log_grows_write_emit line records evs w :
  Forall (fun x => x <> LogError line) records ->
  log_grows_without line w (write_log records (emit evs w)).
Proof. intros H. by exists records. Qed.

Lemma safe_remove_log_grows e path remaining w :
  log_grows_without 508 w (safe_remove e path remaining w).
Proof.
  revert w. induction remaining as [|r IH]; intros w;
    [by apply log_grows_refl|].
  cbn [safe_remove].
  destruct (path_exists path w && _); [by apply log_grows_refl|].
  destruct (_ <? _)%nat.
  - eapply log_grows_trans; [|apply IH]. by apply log_grows_refl.
  - apply log_grows_write_log. by repeat constructor.
Qed.

Lemma cleanup_files_log_grows e paths w :
  log_grows_without 508 w (cleanup_files e paths w).
Proof.
  revert w. induction paths as [|[q|] rest IH]; intros w; cbn [cleanup_files];
    [by apply log_grows_refl| |apply IH].
  eapply log_grows_trans; [|apply IH].
  destruct (truthy q && path_exists q w);
    [apply safe_remove_log_grows|by apply log_grows_refl].
Qed.

Lemma create_file_logged how path f w :
  logged (create_file how path f w).2 = logged w.
Proof. by destruct how. Qed.

Lemma copyfile_logged how src dst w :
  logged (copyfile how src dst w).2 = logged w.
Proof.
  unfold copyfile. destruct (files w !! src); [|done]. apply create_file_logged.
Qed.

Lemma leave_output_logged path out w :
  logged (leave_output path out w) = logged w.
Proof. by destruct out. Qed.

Lemma extract_audio_safe_log_grows e video_path user_id w :
  log_grows_without 508 w (extract_audio_safe e video_path user_id w).2.
Proof.
  unfold extract_audio_safe.
  assert (log_grows_without 508 w
            (leave_output (temp_name e "audio" user_id (time_audio e) ".wav")
               (audio_output e)
               (cleanup_files e
                  [Some (temp_name e "audio" user_id (time_audio e) ".wav")]
                  w))) as H.
  { eapply log_grows_trans; [apply cleanup_files_log_grows|].
    apply log_grows_refl, leave_output_logged. }
  destruct (negb _ && _); cbn [snd]; [done|].
  eapply log_grows_trans; [exact H|apply cleanup_files_log_grows].
Qed.

Lemma create_srt_file_safe_log_grows e segments user_id w :
  log_grows_without 508 w (create_srt_file_safe e segments user_id w).2.
Proof.
  unfold create_srt_file_safe.
  pose proof (create_file_logged (srt_write e)
                (temp_name e "subs" user_id (time_srt e) ".srt")
                (TextFile (srt_content segments)) w) as H.
  destruct (create_file _ _ _ w) as [[[]|x] w']; cbn [snd] in *.
  - by apply log_grows_refl.
  - eapply log_grows_trans; [by apply log_grows_refl|].
    apply cleanup_files_log_grows.
Qed.

Lemma embed_subtitles_safe_log_grows e video_path srt_path user_id w :
  log_grows_without 508 w
    (embed_subtitles_safe e video_path srt_path user_id w).2.
Proof.
  unfold embed_subtitles_safe, embed_try.
  set (v := temp_name e "v" user_id (time_embed e) ".mp4").
  set (s := temp_name e "s" user_id (time_embed e) ".srt").
  set (o := temp_name e "o" user_id (time_embed e) ".mp4").
  pose proof (copyfile_logged (copy_video e) video_path v w) as H1.
  destruct (copyfile (copy_video e) video_path v w) as [[[]|x1] w1];
    cbn [snd] in H1; [|by apply log_grows_refl].
  pose proof (copyfile_logged (copy_srt e) srt_path s w1) as H2.
  destruct (copyfile (copy_srt e) srt_path s w1) as [[[]|x2] w2];
    cbn [snd] in H2; [|apply log_grows_refl; cbn; congruence].
  assert (forall w', logged w' = logged w2 ->
                     log_grows_without 508 w
                       (embed_except e (Some (cwd w2)) v s o w').2) as Hexc.
  { intros w' Hw'. unfold embed_except.
    destruct (handler_restore_ok e); cbn [negb snd].
    - eapply log_grows_trans; [|apply cleanup_files_log_grows].
      apply log_grows_refl. cbn. congruence.
    - apply log_grows_refl. congruence. }
  destruct (chdir_ok e); cbn [negb]; [|by apply Hexc].
  destruct (burn_run e) as [returncode| |].
  - destruct (restore_ok e); cbn [negb];
      [|apply Hexc; cbn; by rewrite leave_output_logged].
    destruct (returncode =? 0); cbn [negb];
      [|apply Hexc; cbn; by rewrite leave_output_logged].
    destruct (exists_larger_than _ _ _);
      [|apply Hexc; cbn; by rewrite leave_output_logged].
    apply log_grows_refl. cbn. rewrite leave_output_logged. cbn. congruence.
  - apply Hexc. cbn. by rewrite leave_output_logged.
  - apply Hexc. cbn. by rewrite leave_output_logged.
Qed.

Lemma translate_loop_warnings_only tr text n remaining :
  Forall (fun x => x <> LogError 508)
         (translate_loop_warnings tr text n remaining).
Proof.
  induction remaining as [|r IH]; [done|]. cbn [translate_loop_warnings].
  destruct (translate tr (n - S r) (strip text)) as [t| |]; [|done|].
  - by destruct (truthy t).
  - by constructor.
Qed.

Lemma pass_warnings_only service i segments :
  Forall (fun x => x <> LogError 508) (pass_warnings service i segments).
Proof.
  revert i. induction segments as [|s rest IH]; intros i; [done|].
  cbn [pass_warnings]. apply Forall_app. split; [|apply IH].
  unfold segment_warnings, translate_text_warnings.
  repeat case_match; try done; try (by repeat constructor).
  apply translate_loop_warnings_only.
Qed.

Lemma step_log_grows {A : Type} (l : locals) (m : M A) k w0 w :
  log_grows_without 508 w0 w ->
  (forall r w', m w = (r, w') -> log_grows_without 508 w w') ->
  (forall a w', log_grows_without 508 w0 w' ->
                log_grows_without 508 w0 (k a w').2) ->
  log_grows_without 508 w0 (step l m k w).2.
Proof.
  intros H0 Hm Hk. unfold step. specialize (Hm (m w).1 (m w).2).
  destruct (m w) as [[a|x] w']; cbn [fst snd] in *.
  - apply Hk. eapply log_grows_trans; [exact H0|by apply Hm].
  - eapply log_grows_trans; [exact H0|by apply Hm].
Qed.

Lemma process_video_try_log_grows e video_path user_id w :
  log_grows_without 508 w (process_video_try e video_path user_id w).2.
Proof.
  unfold process_video_try.
  assert (log_grows_without 508 w w) as H by (by apply log_grows_refl).
  revert H. generalize w at 1 3 as w0. intros w0 H.
  repeat (apply step_log_grows;
          [exact H
          |let E := fresh "E" in
           intros ? ? E;
           lazymatch type of E with
           | extract_audio_safe ?e ?v ?u ?w1 = _ =>
               let H' := fresh in
               pose proof (extract_audio_safe_log_grows e v u w1) as H';
               rewrite E in H'; exact H'
           | create_srt_file_safe ?e ?s ?u ?w1 = _ =>
               let H' := fresh in
               pose proof (create_srt_file_safe_log_grows e s u w1) as H';
               rewrite E in H'; exact H'
           | embed_subtitles_safe ?e ?v ?s ?u ?w1 = _ =>
               let H' := fresh in
               pose proof (embed_subtitles_safe_log_grows e v s u w1) as H';
               rewrite E in H'; exact H'
           | _ =>
               first
                 [solve [apply log_grows_refl; talk_only E]
                 |cbv beta zeta in E; repeat case_match; simplify_eq;
                  apply log_grows_write_emit, pass_warnings_only]
           end
          |];
          let H' := fresh in
          intros ? ? H'; clear H; rename H' into H).
  exact H.
Qed.

Lemma process_video_complete_log e video_path user_id w :
  exists records,
    logged (process_video_complete e video_path user_id w).2
    = logged w ++ records
    /\ (LogError 508 ∈ records
        <-> (process_video_complete e video_path user_id w).1 <> Ok tt).
Proof.
  unfold process_video_complete.
  pose proof (process_video_try_log_grows e video_path user_id w)
    as (r1 & H1 & F1).
  destruct (process_video_try e video_path user_id w) as [[l r] w'].
  cbn [fst snd] in *.
  set (w1 := match r with
             | Ok _ => w'
             | Raise _ => write_log [LogError 508] w'
             end).
  destruct (cleanup_files_log_grows e [audio_path l; srt_path l; output_path l]
              w1) as (r2 & H2 & F2).
  rewrite Forall_forall in F1, F2.
  destruct r as [[]|x]; subst w1; cbn [logged write_log] in H2.
  - exists (r1 ++ r2). split; [by rewrite H2, H1, app_assoc|].
    rewrite elem_of_app. split; [|done].
    intros [Hin|Hin]; [by apply F1 in Hin|by apply F2 in Hin].
  - exists (r1 ++ [LogError 508] ++ r2).
    split; [by rewrite H2, H1, <- !app_assoc|].
    split; [done|]. intros _. rewrite !elem_of_app, list_elem_of_singleton.
    auto.
Qed.

(** X19.  [process_video_complete] changes no file but the five temporary
    files of its job and the log: the input video and every other file are
    after the job what they were before it; the log only grows, and it
    gets the record of the [except] clause (line 508) exactly when the job
    fails. *)
Theorem process_video_complete_touches_only_its_files (e : env)
    (video_path : pystr) (user_id : Z) (w : world) (q : pystr) :
  q ∉ [temp_name e "audio" user_id (time_audio e) ".wav";
       temp_name e "subs" user_id (time_srt e) ".srt";
       temp_name e "v" user_id (time_embed e) ".mp4";
       temp_name e "s" user_id (time_embed e) ".srt";
       temp_name e "o" user_id (time_embed e) ".mp4"] ->
  files (process_video_complete e video_path user_id w).2 !! q = files w !! q
  /\ exists records,
       logged (process_video_complete e video_path user_id w).2
       = logged w ++ records
       /\ (LogError 508 ∈ records
           <-> (process_video_complete e video_path user_id w).1 <> Ok tt).
Proof.
  intros Hq. split; [by apply process_video_complete_frame|].
  apply process_video_complete_log.
Qed.

Lemma process_video_complete_touches_only_its_files_witness :
  files (process_video_complete smooth_env input_video 7 start_world).2
    !! input_video
  = Some (Blob 4000000).
Proof.
  assert (input_video
          ∉ [temp_name smooth_env "audio" 7 (time_audio smooth_env) ".wav";
             temp_name smooth_env "subs" 7 (time_srt smooth_env) ".srt";
             temp_name smooth_env "v" 7 (time_embed smooth_env) ".mp4";
             temp_name smooth_env "s" 7 (time_embed smooth_env) ".srt";
             temp_name smooth_env "o" 7 (time_embed smooth_env) ".mp4"])
    as H.
  { rewrite !elem_of_cons, elem_of_nil. vm_compute.
    intros [H|[H|[H|[H|[H|[]]]]]]; discriminate H. }
  rewrite (proj1 (process_video_complete_touches_only_its_files smooth_env
                    input_video 7 start_world input_video H)).
  done.
Defined.

Lemma process_video_try_success e video_path user_id w :
  (process_video_try e video_path user_id w).1.2 = Ok tt ->
  path_exists (video_copy_name e user_id)
              (process_video_try e video_path user_id w).2 = true
  /\ path_exists (srt_copy_name e user_id)
                 (process_video_try e video_path user_id w).2 = true.
Proof.
  unfold process_video_try.
  do 10 (apply step_rule; [intros; cbn [fst snd] in *; done|intros ? ? _]).
  apply step_rule; [intros; cbn [fst snd] in *; done|intros output w10 E].
  apply embed_ok in E as (_ & _ & _ & _ & _ & _ & _ & _ & Hv & Hs & _).
  repeat (apply step_rule;
          [intros; cbn [fst snd] in *; done
          |let E' := fresh "E" in intros ? ? E'; talk_only E']).
Qed.

(** X20.  Every job that succeeds leaves two files behind: when
    [process_video_complete] runs to the end of its [try] block, the copy
    of the video and the copy of the subtitle file made for the transcoder
    are still on disk when it returns.  [embed_subtitles_safe] removes
    them only in its [except] clauses, and the [finally] of
    [process_video_complete] does not know their names. *)
Theorem process_video_complete_success_leaves_copies (e : env)
    (video_path : pystr) (user_id : Z) (w : world) :
  (process_video_complete e video_path user_id w).1 = Ok tt ->
  path_exists (temp_name e "v" user_id (time_embed e) ".mp4")
              (process_video_complete e video_path user_id w).2 = true
  /\ path_exists (temp_name e "s" user_id (time_embed e) ".srt")
                 (process_video_complete e video_path user_id w).2 = true.
Proof.
  fold (video_copy_name e user_id) (srt_copy_name e user_id).
  unfold process_video_complete.
  pose proof (process_video_try_success e video_path user_id w) as Hok.
  pose proof (process_video_try_locals e video_path user_id w) as Hl.
  destruct (process_video_try e video_path user_id w) as [[l r] w'].
  cbn [fst snd] in *. intros ->. destruct (Hok eq_refl) as [Hv Hs].
  pose proof (temp_names_distinct e user_id (time_audio e) user_id (time_srt e)
                user_id (time_embed e) user_id (time_embed e)
                user_id (time_embed e)) as Hnd.
  fold (audio_name e user_id) (subs_name e user_id) (video_copy_name e user_id)
       (srt_copy_name e user_id) (output_name e user_id) in Hnd.
  rewrite !NoDup_cons, !elem_of_cons, !elem_of_nil in Hnd.
  split; apply path_exists_lookup; rewrite cleanup_frame;
    try (by apply path_exists_lookup);
    intros Hin; apply Hl in Hin;
    rewrite !elem_of_cons, elem_of_nil in Hin; intuition congruence.
Qed.

Lemma process_video_complete_success_leaves_copies_witness :
  (process_video_complete smooth_env input_video 7 start_world).1 = Ok tt
  /\ path_exists (lit "/home/bot/tempfiles/v_7_1700000004.mp4")
       (process_video_complete smooth_env input_video 7 start_world).2 = true
  /\ path_exists (lit "/home/bot/tempfiles/s_7_1700000004.srt")
       (process_video_complete smooth_env input_video 7 start_world).2 = true.
Proof.
  assert ((process_video_complete smooth_env input_video 7 start_world).1
          = Ok tt) as H by (by vm_compute).
  split; [exact H|].
  exact (process_video_complete_success_leaves_copies smooth_env input_video 7
           start_world H).
Defined.

(** ** When no translation is to be had *)

Lemma truthy_strip text : truthy (strip text) = true -> truthy text = true.
Proof. by destruct text. Qed.

Lemma translate_loop_trace tr text n remaining :
  (remaining <= n)%nat ->
  (forall k s, tr_fails (translate tr k s) = true) ->
  (translate_loop tr text n remaining).2
  = flat_map
      (fun attempt =>
         TranslateCall attempt
         :: (if raised (translate tr attempt (strip text))
                && (S attempt <? n)%nat
             then [Sleep 1000] else []))
      (seq (n - remaining) remaining).
Proof.
  intros Hle Hf. induction remaining as [|r IH]; [done|].
  cbn [translate_loop seq flat_map].
  pose proof (Hf (n - S r)%nat (strip text)) as Hk.
  specialize (IH ltac:(lia)).
  replace (n - r)%nat with (S (n - S r)) in IH by lia.
  replace (n - S r <? n - 1)%nat with (S (n - S r) <? n)%nat
    by (destruct (Nat.ltb_spec (S (n - S r)) n),
                 (Nat.ltb_spec (n - S r) (n - 1)); lia).
  destruct (translate tr (n - S r) (strip text)) as [t| |];
    cbn [tr_fails raised andb] in *.
  - apply negb_true_iff in Hk. rewrite Hk. cbn [snd app]. by rewrite IH.
  - cbn [snd app]. by rewrite IH.
  - destruct (S (n - S r) <? n)%nat; cbn [snd app]; by rewrite IH.
Qed.

Lemma translate_text_safe_fails tr text max_retries :
  (forall k s, tr_fails (translate tr k s) = true) ->
  translate_text_safe tr text max_retries
  = if truthy (strip text)
    then if translator_init tr
         then (Some text, failed_calls tr text max_retries)
         else (None, [])
    else (Some text, []).
Proof.
  intros Hf. unfold translate_text_safe, failed_calls.
  destruct (truthy (strip text)) eqn:Hs;
    [|by rewrite orb_true_r].
  rewrite (truthy_strip _ Hs). cbn [negb orb].
  destruct (translator_init tr); [|done].
  rewrite translate_loop_fails by done.
  rewrite translate_loop_trace by done. by rewrite Nat.sub_diag.
Qed.

Lemma fallbacks_nil service segments :
  concat (imap (fun i s => if has_text s
                           then [fallback (translator_init (service i)) s]
                           else [])
               segments) = []
  <-> existsb has_text segments = false.
Proof.
  revert service. induction segments as [|s rest IH]; intros service; [done|].
  rewrite imap_cons. cbn [concat existsb].
  destruct (has_text s); cbn [orb app]; [done|]. apply (IH (service ∘ S)).
Qed.

Lemma extract_audio_safe_works e video_path user_id w size :
  audio_run_raises e = false -> audio_output e = Some size -> 1000 < size ->
  exists w',
    extract_audio_safe e video_path user_id w = (Ok (audio_name e user_id), w')
    /\ forall q, is_Some (files w !! q) -> is_Some (files w' !! q).
Proof.
  intros Hrun Hout Hsz. unfold extract_audio_safe. fold (audio_name e user_id).
  rewrite Hrun, Hout. cbn [negb andb leave_output].
  unfold exists_larger_than. cbn [files set_files].
  rewrite lookup_insert_eq.
  destruct (Z.ltb_spec 1000 size); [|lia].
  eexists. split; [reflexivity|]. intros q Hq. cbn [files set_files].
  destruct (decide (q = audio_name e user_id)) as [->|Hne].
  - by rewrite lookup_insert_eq.
  - rewrite lookup_insert_ne by done.
    rewrite cleanup_frame; [done|].
    rewrite list_elem_of_singleton. congruence.
Qed.

Lemma create_srt_file_safe_works e segments user_id w :
  srt_write e = IoOk ->
  exists w',
    create_srt_file_safe e segments user_id w = (Ok (subs_name e user_id), w')
    /\ is_Some (files w' !! subs_name e user_id)
    /\ forall q, is_Some (files w !! q) -> is_Some (files w' !! q).
Proof.
  intros Hw. unfold create_srt_file_safe, create_file.
  fold (subs_name e user_id). rewrite Hw.
  eexists. split; [reflexivity|]. cbn [files set_files].
  split; [by rewrite lookup_insert_eq|].
  intros q Hq. destruct (decide (q = subs_name e user_id)) as [->|Hne].
  - by rewrite lookup_insert_eq.
  - by rewrite lookup_insert_ne.
Qed.

Lemma embed_subtitles_safe_works e video_path srt_path user_id w size :
  is_Some (files w !! video_path) -> is_Some (files w !! srt_path) ->
  copy_video e = IoOk -> copy_srt e = IoOk -> chdir_ok e = true ->
  burn_run e = Exit 0 -> restore_ok e = true ->
  burn_output e = Some size -> 1000 < size ->
  exists w',
    embed_subtitles_safe e video_path srt_path user_id w
    = (Ok (output_name e user_id), w')
    /\ files w' !! output_name e user_id = Some (Blob size).
Proof.
  intros [fv Hv] [fs Hs] Hcv Hcs Hch Hrun Hres Hout Hsz.
  unfold embed_subtitles_safe, embed_try, copyfile, create_file.
  fold (output_name e user_id) (video_copy_name e user_id)
       (srt_copy_name e user_id).
  rewrite Hv, Hcv. cbn [files set_files].
  assert (is_Some (<[video_copy_name e user_id := fv]> (files w) !! srt_path))
    as [fs' ->].
  { destruct (decide (srt_path = video_copy_name e user_id)) as [->|Hne].
    - by rewrite lookup_insert_eq.
    - by rewrite lookup_insert_ne, Hs. }
  rewrite Hcs, Hch, Hrun, Hres, Hout. cbn [negb leave_output Z.eqb].
  unfold exists_larger_than. cbn [files set_files set_cwd].
  rewrite lookup_insert_eq.
  destruct (Z.ltb_spec 1000 size); [|lia].
  eexists. split; [reflexivity|]. cbn [files set_files set_cwd].
  by rewrite lookup_insert_eq.
Qed.

Lemma process_video_try_without_translation e video_path user_id w segments :
  (forall i k text, tr_fails (translate (translators e i) k text) = true) ->
  transcribe e = Some segments ->
  others_work e video_path w ->
  (process_video_try e video_path user_id w).1.2
  = if existsb has_text segments then Ok tt else Raise Error.
Proof.
  intros Hf Htr (Hsend & Hload & Hrun & (asize & Haud & Hasz) & Hsrt & Hcv
                 & Hcs & Hch & Hburn & Hres & (osize & Hout & Hosz) & Hvideo).
  unfold process_video_try, step, transport, guard_ok.
  rewrite !Hsend, Hload.
  destruct (extract_audio_safe_works e video_path user_id w asize Hrun Haud
              Hasz) as (w3 & -> & Hkeep3).
  rewrite Htr.
  destruct segments as [|s ss]; [done|].
  pose proof (process_segments_loop_fails (translators e) (length (s :: ss)) 0
                (s :: ss) Hf) as Hpass.
  fold (process_segments_safe (translators e) (s :: ss)) in Hpass.
  pose proof (fallbacks_nil (translators e) (s :: ss)) as Hnil.
  cbn [Nat.add] in Hpass. rewrite <- Hpass in Hnil.
  destruct (process_segments_safe (translators e) (s :: ss)).1
    as [|h hs] eqn:Hhs.
  { destruct Hnil as [Hnil _]. by rewrite (Hnil eq_refl). }
  destruct (existsb has_text (s :: ss)); [|by destruct Hnil as [_ Hnil];
                                            specialize (Hnil eq_refl)].
  set (w7 := write_log _ _).
  destruct (create_srt_file_safe_works e (h :: hs) user_id w7 Hsrt)
    as (w8 & -> & Hsubs & Hkeep8).
  assert (is_Some (files w8 !! video_path)) as Hvideo8.
  { apply Hkeep8. subst w7. cbn [files write_log emit]. by apply Hkeep3. }
  destruct (embed_subtitles_safe_works e video_path (subs_name e user_id)
              user_id w8 osize Hvideo8 Hsubs Hcv Hcs Hch Hburn Hres Hout
              ltac:(lia)) as (w10 & -> & Hofile).
  unfold getsize. rewrite Hofile.
  destruct (Z.ltb_spec MAX_FILE_SIZE osize); [lia|]. done.
Qed.

(** C7 (as amended).  A translation that fails is recovered from, and is
    fatal only when it leaves nothing to show.  Suppose every call of the
    translation service fails (it raises, returns nothing or returns an
    empty text).  Then
    - [translate_text_safe], on a text that is not blank and with a
      service that could be built, makes its [max_retries] calls (3 by
      default), sleeps one second after each call that raised and was not
      the last - and after no other - and returns the text it was given;
      when [Translator()] itself raises, the exception escapes and nothing
      is called;
    - the translation pass raises nothing and emits, in order, one segment
      for every segment whose text is not blank: the text stripped and
      with the punctuation spacing applied or, where [Translator()]
      raised, the text exactly as it was; blank segments are dropped;
    - when every other stage works, the job runs to the end of its [try]
      block if at least one segment has a text that is not blank, and
      fails (no segment was translated) if none has. *)
Theorem translation_failure_is_recovered (e : env) (video_path : pystr)
    (user_id : Z) (w : world) (segments : list seg_dict) :
  (forall i k text, tr_fails (translate (translators e i) k text) = true) ->
  (forall i text max_retries,
      translate_text_safe (translators e i) text max_retries
      = if truthy (strip text)
        then if translator_init (translators e i)
             then (Some text,
                   failed_calls (translators e i) text max_retries)
             else (None, [])
        else (Some text, []))
  /\ (process_segments_safe (translators e) segments).1
     = concat (imap (fun i s =>
                       if has_text s
                       then [fallback (translator_init (translators e i)) s]
                       else [])
                    segments)
  /\ (transcribe e = Some segments ->
      others_work e video_path w ->
      (process_video_complete e video_path user_id w).1
      = if existsb has_text segments then Ok tt else Raise Error).
Proof.
  intros Hf. split; [intros i text n; by apply translate_text_safe_fails|].
  split; [by apply (process_segments_loop_fails _ _ 0)|].
  intros Htr Hrest. unfold process_video_complete.
  pose proof (process_video_try_without_translation e video_path user_id w
                segments Hf Htr Hrest) as Htry.
  destruct (process_video_try e video_path user_id w) as [[l r] w'].
  exact Htry.
Qed.

Lemma translation_failure_is_recovered_witness :
  (forall i k text,
      tr_fails (translate (translators translation_down_env i) k text) = true)
  /\ transcribe translation_down_env = Some hello_segments
  /\ others_work translation_down_env input_video start_world
  /\ (process_video_complete translation_down_env input_video 7
        start_world).1 = Ok tt.
Proof.
  assert (forall i k text,
             tr_fails (translate (translators translation_down_env i) k text)
             = true) as Hf by done.
  assert (others_work translation_down_env input_video start_world) as Hrest.
  { split; [done|]. split; [done|]. split; [done|].
    split; [exists 960044; split; [done|lia]|].
    split; [done|]. split; [done|]. split; [done|]. split; [done|].
    split; [done|]. split; [done|].
    split; [exists 5000000; split; [done|unfold MAX_FILE_SIZE; lia]|].
    exists (Blob 4000000). by vm_compute. }
  split; [exact Hf|]. split; [reflexivity|]. split; [exact Hrest|].
  exact (proj2 (proj2 (translation_failure_is_recovered translation_down_env
                         input_video 7 start_world hello_segments Hf))
           eq_refl Hrest).
Defined.

(** With the service down the text is stripped and spaced; when the
    service cannot even be built, the text reaches the subtitles as it is,
    blanks and all, and no call is made. *)
Example fallback_texts :
  List.map get_text (process_segments_safe (fun _ => tr_unreachable)
                       [tight_segment]).1 = [lit "Hi, there"]
  /\ process_segments_safe (fun _ => tr_no_service) [tight_segment]
     = ([tight_segment], [Progress 1 1]).
Proof. split; by vm_compute. Qed.

(** ** Incoming videos *)

Lemma rfind_ge c p : -1 <= rfind c p.
Proof.
  induction p as [|x rest IH]; cbn [rfind]; [lia|].
  destruct (Z.leb_spec 0 (rfind c rest)); [lia|]. destruct (x =? c)%N; lia.
Qed.

Lemma rfind_after c p :
  Forall (fun x => x <> c) (drop (Z.to_nat (rfind c p + 1)) p).
Proof.
  induction p as [|x rest IH]; cbn [rfind]; [by rewrite drop_nil|].
  pose proof (rfind_ge c rest) as Hge.
  destruct (Z.leb_spec 0 (rfind c rest)) as [Hfound|Hnone].
  - replace (Z.to_nat (rfind c rest + 1 + 1))
      with (S (Z.to_nat (rfind c rest + 1))) by lia.
    exact IH.
  - replace (rfind c rest + 1) with 0 in IH by lia. cbn [Z.to_nat drop] in IH.
    destruct (N.eqb_spec x c) as [->|Hne]; cbn [Z.add Z.to_nat Pos.to_nat drop].
    + exact IH.
    + by constructor.
Qed.

Lemma splitext_no_sep p : Forall (fun c => c <> 47%N) (splitext p).2.
Proof.
  unfold splitext. pose proof (rfind_ge 47 p) as Hge.
  destruct (Z.ltb_spec (rfind 47 p) (rfind 46 p)) as [Hlt|Hle];
    cbn [andb]; [|by constructor].
  destruct (existsb _ _); cbn [snd]; [|by constructor].
  replace (Z.to_nat (rfind 46 p))
    with (Z.to_nat (rfind 47 p + 1)
          + (Z.to_nat (rfind 46 p) - Z.to_nat (rfind 47 p + 1)))%nat by lia.
  rewrite <- drop_drop. apply Forall_drop, rfind_after.
Qed.

Lemma file_ext_no_sep file_name :
  Forall (fun c => c <> 47%N) (file_ext file_name).
Proof.
  unfold file_ext. destruct (truthy _); [apply splitext_no_sep|].
  repeat constructor; done.
Qed.

(** A path directly inside [dir]. *)
Lemma temp_name_confined e prefix user_id timestamp ext :
  Forall (fun c => c <> 47%N) (lit prefix) ->
  Forall (fun c => c <> 47%N) (lit ext) ->
  exists name,
    temp_name e prefix user_id timestamp ext
    = path_join (simple_temp_dir e) name
    /\ Forall (fun c => c <> 47%N) name.
Proof.
  intros Hp He. eexists. split; [reflexivity|].
  assert (forall z, Forall (fun c => c <> 47%N) (str_of_int z)) as Hint.
  { intros z. eapply Forall_impl; [apply str_of_int_chars|].
    intros c [->|Hc]; [done|lia]. }
  rewrite !Forall_app. repeat split; try done; try apply Hint.
  all: repeat constructor; done.
Qed.

Lemma input_name_confined e user_id timestamp file_name :
  exists name,
    input_name e user_id timestamp (file_ext file_name)
    = path_join (simple_temp_dir e) name
    /\ Forall (fun c => c <> 47%N) name.
Proof.
  eexists. split; [reflexivity|].
  assert (forall z, Forall (fun c => c <> 47%N) (str_of_int z)) as Hint.
  { intros z. eapply Forall_impl; [apply str_of_int_chars|].
    intros c [->|Hc]; [done|lia]. }
  rewrite !Forall_app. repeat split; try apply Hint; try apply file_ext_no_sep;
    repeat constructor; done.
Qed.

Lemma input_name_not_job e user_id timestamp ext user_id' :
  input_name e user_id timestamp ext ∉ job_names e user_id'.
Proof.
  unfold job_names, audio_name, subs_name, video_copy_name, srt_copy_name,
    output_name, input_name, temp_name, path_join.
  rewrite !elem_of_cons, elem_of_nil.
  intros [H|[H|[H|[H|[H|[]]]]]]; apply app_inv_head in H; discriminate H.
Qed.

Lemma input_name_truthy e user_id timestamp ext :
  truthy (input_name e user_id timestamp ext) = true.
Proof. unfold input_name, path_join. by destruct (simple_temp_dir e). Qed.

Lemma attempt_writes_spec r attempt path w :
  cwd (attempt_writes r attempt path w) = cwd w
  /\ trace (attempt_writes r attempt path w) = trace w
  /\ forall q, q <> path ->
               files (attempt_writes r attempt path w) !! q = files w !! q.
Proof.
  unfold attempt_writes, leave_output.
  repeat case_match; cbn [cwd trace files set_files]; repeat split; try done;
    intros q Hne; by rewrite ?lookup_insert_ne, ?lookup_delete_ne.
Qed.

Lemma download_loop_in_spec r path n remaining w :
  (download_loop_in r path n remaining w).1 = (download_loop (net r) n remaining).1
  /\ trace (download_loop_in r path n remaining w).2
     = trace w ++ (download_loop (net r) n remaining).2
  /\ cwd (download_loop_in r path n remaining w).2 = cwd w
  /\ forall q, q <> path ->
               files (download_loop_in r path n remaining w).2 !! q
               = files w !! q.
Proof.
  revert w. induction remaining as [|k IH]; intros w;
    cbn [download_loop_in download_loop].
  { cbn [fst snd]. by rewrite app_nil_r. }
  set (a := (n - S k)%nat).
  destruct (attempt_writes_spec r a path (emit [DownloadAttempt a] w))
    as (Hcwd & Htrace & Hfiles).
  set (w0 := attempt_writes r a path (emit [DownloadAttempt a] w)) in *.
  set (w1 := write_log (attempt_logs (net r a)) w0).
  change (cwd w0) with (cwd w1) in Hcwd.
  change (trace w0) with (trace w1) in Htrace.
  change (files w0) with (files w1) in Hfiles.
  clearbody w1. clear w0.
  cbn [emit cwd trace files] in Hcwd, Htrace, Hfiles.
  destruct (one_attempt n a (net r a)); cbn [fst snd].
  - rewrite Htrace. repeat split; try done.
  - destruct (IH w1) as (H1 & H2 & H3 & H4). rewrite H1, H2, H3, Htrace, Hcwd.
    repeat split; try done.
    + by rewrite <- app_assoc.
    + intros q Hq. by rewrite H4, Hfiles.
  - destruct (IH (emit [Sleep millis] w1)) as (H1 & H2 & H3 & H4).
    rewrite H1, H2, H3. cbn [emit cwd trace files] in *.
    rewrite Htrace, Hcwd. repeat split; try done.
    + by rewrite <- !app_assoc.
    + intros q Hq. by rewrite H4, Hfiles.
Qed.

Lemma process_video_complete_gone e video_path user_id w p :
  (forall q, q ∈ [audio_name e user_id; subs_name e user_id;
                  output_name e user_id] ->
             removable e q = true /\ path_exists q w = false) ->
  p ∈ [audio_name e user_id; subs_name e user_id; output_name e user_id] ->
  handler_restore_ok e = true
  \/ p ∈ [audio_name e user_id; subs_name e user_id] ->
  path_exists p (process_video_complete e video_path user_id w).2 = false.
Proof.
  intros Hfresh Hp Hh.
  assert (forall q, q ∈ [audio_name e user_id; subs_name e user_id;
                         output_name e user_id] -> removable e q = true) as Hrm
      by (intros q Hq; by apply Hfresh).
  pose proof (process_video_try_covered e video_path user_id w) as Hcov.
  cbn zeta in Hcov.
  unfold process_video_complete.
  destruct (process_video_try e video_path user_id w) as [[l res] w'].
  cbn [fst snd] in *.
  apply path_exists_false. rewrite cleanup_files_files.
  assert (truthy p = true) as ->.
  { rewrite !elem_of_cons, elem_of_nil in Hp.
    destruct Hp as [->|[->|[->|[]]]]; apply temp_name_truthy. }
  rewrite (Hrm p Hp), !andb_true_r.
  destruct (bool_decide (Some p ∈ [audio_path l; srt_path l; output_path l]))
    eqn:Hin; [done|].
  apply bool_decide_eq_false in Hin.
  assert (forall u, path_exists p match res with
                                  | Ok _ => u
                                  | Raise _ => write_log [LogError 508] u
                                  end = path_exists p u) as Hlog
      by (intros u; by destruct res).
  apply path_exists_false. rewrite Hlog.
  destruct (path_exists p w') eqn:Hex; [|done].
  exfalso. apply Hin. apply list_elem_of_In.
  apply Hcov; try (apply Hrm; rewrite !elem_of_cons; auto).
  - intros q Hq Hexq.
    assert (q ∈ [audio_name e user_id; subs_name e user_id;
                 output_name e user_id]) as Hq'.
    { rewrite !elem_of_cons. destruct Hq as [<-|[<-|Hq]]; auto.
      destruct (handler_restore_ok e); [|done].
      destruct Hq as [<-|[]]; auto. }
    apply Hfresh in Hq' as [_ Hq']. congruence.
  - destruct Hh as [->|Hh].
    + rewrite !elem_of_cons, elem_of_nil in Hp.
      destruct Hp as [->|[->|[->|[]]]]; cbn; auto.
    + rewrite !elem_of_cons, elem_of_nil in Hh.
      destruct Hh as [->|[->|[]]]; cbn; auto.
  - done.
Qed.

Lemma check_dependencies_none r :
  check_dependencies r = Ok [] ->
  whisper_available r = true /\ translator_available r = true
  /\ ffmpeg_available r = true /\ ffmpeg_version r = VersionExit 0.
Proof.
  unfold check_dependencies.
  destruct (whisper_available r), (translator_available r),
    (ffmpeg_available r), (ffmpeg_version r) as [rc| | |];
    try destruct (Z.eqb_spec rc 0) as [->|]; cbn; intros H; try done.
Qed.

Lemma answer_with_spec r u k v w :
  match v with Processed _ => False | _ => True end ->
  (answer_with r u k v w).1.1 = None /\ (answer_with r u k v w).2 = w
  /\ forall job_done, (answer_with r u k v w).1.2 <> Ok (Processed job_done).
Proof.
  unfold answer_with, reply_text, guard_ok. intros Hv.
  destruct (_ && _); repeat split; try done; by destruct v.
Qed.

Lemma same_but_log_refl w : same_but_log w w.
Proof. by repeat split. Qed.

Lemma same_but_log_write_log records w : same_but_log (write_log records w) w.
Proof. by repeat split. Qed.


Lemma handle_video_try_cases r u w :
  ((handle_video_try r u w).1.1 = None
   /\ same_but_log (handle_video_try r u w).2 w
   /\ forall job_done, (handle_video_try r u w).1.2 <> Ok (Processed job_done))
  \/ exists user_id file_name w0,
       admitted r u user_id file_name
       /\ same_but_log w0 w
       /\ let path := input_name (job r) user_id (time_input r)
                        (file_ext file_name) in
          let got := download_loop_in r path 2 2 w0 in
          (handle_video_try r u w).1.1 = Some path
          /\ ((got.1.1 = false
               /\ (handle_video_try r u w).2 = got.2
               /\ forall job_done,
                    (handle_video_try r u w).1.2 <> Ok (Processed job_done))
              \/ (got.1.1 = true
                  /\ (handle_video_try r u w).2
                     = (process_video_complete (job r) path user_id got.2).2
                  /\ (handle_video_try r u w).1.2
                     = Ok (Processed
                             (process_video_complete (job r) path user_id
                                got.2).1))).
Proof.
  unfold handle_video_try.
  destruct (check_dependencies r) as [[|pkg missing]|x] eqn:Hdeps.
  2: { left. destruct (answer_with_spec r u 0 MissingDependencies w I)
         as (-> & -> & Hnot). split; [done|]. split; [|done].
       apply same_but_log_refl. }
  2: { left. cbn [fst snd]. split; [done|]. split; [|done].
       apply same_but_log_refl. }
  apply check_dependencies_none in Hdeps as (Hw & Ht & Hf & Hv).
  pose proof (same_but_log_write_log (get_file_info_safe u).2 w) as Hsame.
  set (w0 := write_log (get_file_info_safe u).2 w) in *. clearbody w0.
  destruct (get_file_info_safe u).1 as [info|] eqn:Hinfo.
  2: { left. by destruct (answer_with_spec r u 1 NotAVideo w0 I)
         as (-> & -> & Hnot). }
  destruct (match info_file_size info with
            | Some size => negb (size =? 0) && (MAX_FILE_SIZE <? size)
            | None => false
            end) eqn:Hsize.
  { left. by destruct (answer_with_spec r u 2 TooLarge w0 I)
      as (-> & -> & Hnot). }
  unfold reply_text, guard_ok.
  destruct (bool_decide (is_Some (message u))) eqn:Hmsg; cbn [andb];
    [|left; split; [done|]; by split].
  destruct (chat_ok r 3) eqn:Hchat; [|left; split; [done|]; by split].
  destruct (effective_user u) as [user_id|] eqn:Huser; [|left; split; [done|]; by split].
  destruct (info_file_name info) as [file_name|] eqn:Hname;
    [|left; split; [done|]; by split].
  right. exists user_id, file_name, w0. split.
  { repeat split; try done. exists info. repeat split; try done.
    intros size Hsz. rewrite Hsz in Hsize.
    destruct (Z.eqb_spec size 0) as [H0|_]; [unfold MAX_FILE_SIZE; lia|].
    cbn [negb andb] in Hsize. by apply Z.ltb_ge in Hsize. }
  split; [done|]. cbn zeta.
  destruct (download_loop_in r _ 2 2 w0) as [[[|] msg] w1]; cbn [fst snd].
  - destruct (process_video_complete (job r) _ user_id _) as [job_done w2]
      eqn:Hjob.
    unfold bot_call, guard_ok in *.
    destruct (chat_ok r 6); cbn [snd] in Hjob; rewrite Hjob; cbn [fst snd];
      split; try done; right; by repeat split.
  - unfold bot_call, guard_ok.
    destruct (chat_ok r 4); [|destruct (chat_ok r 5)]; cbn [fst snd];
      split; try done; left; by repeat split.
Qed.

Lemma handle_video_unfold r u w :
  (handle_video r u w).1 = (handle_video_try r u w).1.2
  /\ exists w1,
       same_but_log w1 (handle_video_try r u w).2
       /\ (handle_video r u w).2
          = match (handle_video_try r u w).1.1 with
            | Some path => cleanup_files (job r) [Some path] w1
            | None => w1
            end.
Proof.
  unfold handle_video.
  destruct (handle_video_try r u w) as [[video_path [v|x]] w']; cbn [fst snd].
  - split; [done|]. exists w'. split; [apply same_but_log_refl|done].
  - split; [done|]. eexists. split; [|reflexivity].
    unfold bot_call, guard_ok. by destruct (chat_ok r 7).
Qed.

Lemma job_names_confined e user_id q :
  q ∈ job_names e user_id ->
  exists name,
    q = path_join (simple_temp_dir e) name
    /\ Forall (fun c => c <> 47%N) name.
Proof.
  unfold job_names, audio_name, subs_name, video_copy_name, srt_copy_name,
    output_name.
  rewrite !elem_of_cons, elem_of_nil.
  intros [->|[->|[->|[->|[->|[]]]]]]; apply temp_name_confined;
    repeat constructor; done.
Qed.



(** X22.  Whatever the name of the file that was sent, [handle_video]
    creates, changes and removes files only directly inside
    [SIMPLE_TEMP_DIR] (the log, which is written where the bot was
    started, is not among the files considered here): the extension it
    takes from the sender's file name holds no [/], so that the path of the
    download cannot leave the directory. *)
Theorem handle_video_confined (r : request) (u : update) (w : world)
    (q : pystr) :
  files (handle_video r u w).2 !! q <> files w !! q ->
  exists name,
    q = path_join (simple_temp_dir (job r)) name
    /\ Forall (fun c => c <> 47%N) name.
Proof.
  intros Hchanged.
  destruct (handle_video_unfold r u w) as [_ (w1 & (_ & Hlog & _) & Hw)].
  destruct (handle_video_try_cases r u w)
    as [(Hnone & (_ & Hsame & _) & _)
       |(user_id & file_name & w0 & _ & (_ & Hw0 & _) & Hpath & Hcases)].
  { exfalso. apply Hchanged. rewrite Hw, Hnone. congruence. }
  cbn zeta in *. rewrite Hpath in Hw. rewrite Hw in Hchanged. clear Hw Hpath.
  set (path := input_name (job r) user_id (time_input r) (file_ext file_name))
    in *.
  destruct (decide (q = path)) as [->|Hne]; [apply input_name_confined|].
  destruct (decide (q ∈ job_names (job r) user_id)) as [Hin|Hnin];
    [by apply (job_names_confined _ user_id)|].
  exfalso. apply Hchanged.
  rewrite cleanup_frame by (rewrite list_elem_of_singleton; congruence).
  rewrite Hlog.
  destruct (download_loop_in_spec r path 2 2 w0) as (_ & _ & _ & Hframe).
  rewrite Hw0 in Hframe.
  destruct Hcases as [(_ & -> & _)|(_ & -> & _)].
  - by apply Hframe.
  - rewrite process_video_complete_frame by done. by apply Hframe.
Qed.

Lemma handle_video_confined_witness :
  exists name,
    lit "/home/bot/tempfiles/v_7_1700000004.mp4"
    = path_join (simple_temp_dir (job smooth_request)) name
    /\ Forall (fun c => c <> 47%N) name.
Proof.
  apply (handle_video_confined smooth_request sample_update fresh_world).
  vm_compute. discriminate.
Defined.

(** X23.  Of all that a video sets in motion, only the two copies made for
    the transcoder can stay on disk - and the transcoder's output, when the
    burn-in was left by a failing [os.chdir(original_dir)] in its [except]
    clause.  When [os.remove] works within three attempts and the three
    names that [process_video_complete] will use are free, a file that
    exists after [handle_video] and did not exist before is the copy of the
    video or the copy of the subtitle file, or it is the output and that
    [os.chdir] fails: the download, the audio file and the subtitle file
    are gone, and so is the output otherwise, whether the video was
    translated or not. *)
Theorem handle_video_leaves_only_copies (r : request) (u : update)
    (w : world) (user_id : Z) (q : pystr) :
  effective_user u = Some user_id ->
  (forall p, (remove_raises (job r) p < 3)%nat) ->
  (forall p, p ∈ [temp_name (job r) "audio" user_id (time_audio (job r)) ".wav";
                  temp_name (job r) "subs" user_id (time_srt (job r)) ".srt";
                  temp_name (job r) "o" user_id (time_embed (job r)) ".mp4"] ->
             path_exists p w = false) ->
  path_exists q w = false ->
  path_exists q (handle_video r u w).2 = true ->
  q = temp_name (job r) "v" user_id (time_embed (job r)) ".mp4"
  \/ q = temp_name (job r) "s" user_id (time_embed (job r)) ".srt"
  \/ (q = temp_name (job r) "o" user_id (time_embed (job r)) ".mp4"
      /\ handler_restore_ok (job r) = false).
Proof.
  set (e := job r).
  fold (audio_name e user_id) (subs_name e user_id) (output_name e user_id)
       (video_copy_name e user_id) (srt_copy_name e user_id).
  intros Huser Hremove Hfree Hbefore Hafter.
  assert (forall p, removable e p = true) as Hrm
      by (intros p; unfold removable; apply Nat.ltb_lt, Hremove).
  destruct (handle_video_unfold r u w) as [_ (w1 & (_ & Hlog & _) & Hw)].
  destruct (handle_video_try_cases r u w)
    as [(Hnone & (_ & Hsame & _) & _)
       |(user_id' & file_name & w0 & Hadm & (_ & Hw0 & _) & Hpath & Hcases)].
  { rewrite Hw, Hnone in Hafter. unfold path_exists in *.
    rewrite Hlog, Hsame in Hafter. congruence. }
  destruct Hadm as (_ & _ & _ & _ & Huser' & _).
  assert (user_id' = user_id) as -> by congruence.
  cbn zeta in *. rewrite Hpath in Hw. rewrite Hw in Hafter. clear Hw Hpath.
  fold e in Hafter, Hcases.
  set (path := input_name e user_id (time_input r) (file_ext file_name)) in *.
  apply path_exists_lookup in Hafter. apply path_exists_false in Hbefore.
  destruct (decide (q = path)) as [->|Hne].
  { exfalso. apply Hafter, cleanup_one_gone; [done|apply input_name_truthy]. }
  rewrite cleanup_frame in Hafter
    by (rewrite list_elem_of_singleton; congruence).
  rewrite Hlog in Hafter.
  destruct (download_loop_in_spec r path 2 2 w0) as (_ & _ & _ & Hframe).
  rewrite Hw0 in Hframe.
  destruct Hcases as [(_ & Hworld & _)|(_ & Hworld & _)];
    rewrite Hworld in Hafter; clear Hworld.
  { exfalso. apply Hafter. by rewrite Hframe. }
  assert (forall p, p ∈ [audio_name e user_id; subs_name e user_id;
                         output_name e user_id] ->
                    removable e p = true
                    /\ path_exists p (download_loop_in r path 2 2 w0).2
                       = false) as Hfresh.
  { intros p Hp. split; [done|]. apply path_exists_false.
    rewrite Hframe; [by apply path_exists_false, Hfree|].
    intros ->. apply (input_name_not_job e user_id (time_input r)
                        (file_ext file_name) user_id).
    unfold job_names. rewrite !elem_of_cons, elem_of_nil in *.
    intuition congruence. }
  destruct (decide (q ∈ job_names e user_id)) as [Hin|Hnin].
  - unfold job_names in Hin. rewrite !elem_of_cons, elem_of_nil in Hin.
    destruct Hin as [Hq|[Hq|[Hq|[Hq|[Hq|[]]]]]];
      [| |by left|right; by left|].
    + exfalso. apply Hafter, path_exists_false.
      apply process_video_complete_gone; [done|..];
        [|right]; rewrite Hq, !elem_of_cons; auto.
    + exfalso. apply Hafter, path_exists_false.
      apply process_video_complete_gone; [done|..];
        [|right]; rewrite Hq, !elem_of_cons; auto.
    + destruct (handler_restore_ok e) eqn:Hh; [|right; right; done].
      exfalso. apply Hafter, path_exists_false.
      apply process_video_complete_gone; [done| |by left].
      rewrite Hq, !elem_of_cons. auto.
  - exfalso. apply Hafter.
    rewrite process_video_complete_frame by done. by rewrite Hframe.
Qed.

Lemma handle_video_leaves_only_copies_witness :
  lit "/home/bot/tempfiles/v_7_1700000004.mp4"
  = temp_name (job smooth_request) "v" 7 (time_embed (job smooth_request))
      ".mp4"
  \/ lit "/home/bot/tempfiles/v_7_1700000004.mp4"
     = temp_name (job smooth_request) "s" 7 (time_embed (job smooth_request))
         ".srt"
  \/ (lit "/home/bot/tempfiles/v_7_1700000004.mp4"
      = temp_name (job smooth_request) "o" 7 (time_embed (job smooth_request))
          ".mp4"
      /\ handler_restore_ok (job smooth_request) = false).
Proof.
  apply (handle_video_leaves_only_copies smooth_request sample_update
           fresh_world 7).
  - reflexivity.
  - intros p. cbn. lia.
  - intros p Hp. apply path_exists_false. done.
  - by vm_compute.
  - by vm_compute.
Defined.

(** X24.  The 200 MB that [handle_video] announces are not what decides:
    a video is handed to [process_video_complete] only after one of the two
    download attempts returned with more than 100 bytes on disk, for a
    file that the server did not declare above 20 MB. *)
Theorem handle_video_processes_only_downloads (r : request) (u : update)
    (w : world) (job_done : result unit) :
  (handle_video r u w).1 = Ok (Processed job_done) ->
  exists (j : nat) declared size,
    (j < 2)%nat
    /\ net r j = GotFile declared (DownloadReturns (Some size))
    /\ 100 < size
    /\ match declared with
       | Some d => d <= 20 * 1024 * 1024
       | None => True
       end.
Proof.
  intros Hdone.
  destruct (handle_video_unfold r u w) as [Hres _]. rewrite Hres in Hdone.
  destruct (handle_video_try_cases r u w)
    as [(_ & _ & Hnot)|(user_id & file_name & w0 & _ & _ & _ & Hcases)];
    [by apply Hnot in Hdone|].
  cbn zeta in Hcases.
  destruct Hcases as [(_ & _ & Hnot)|(Hgot & _ & _)];
    [by apply Hnot in Hdone|].
  destruct (download_loop_in_spec r (input_name (job r) user_id (time_input r)
                                       (file_ext file_name)) 2 2 w0)
    as (Hsame & _).
  rewrite Hsame in Hgot. fold (download_file_safe (net r) 2) in Hgot.
  destruct (download_file_safe (net r) 2).1 as [ok msg] eqn:Hpair.
  cbn [fst] in Hgot. subst ok.
  by apply download_success_attempt in Hpair as [_ H].
Qed.

Lemma handle_video_processes_only_downloads_witness :
  exists (j : nat) declared size,
    (j < 2)%nat
    /\ net smooth_request j = GotFile declared (DownloadReturns (Some size))
    /\ 100 < size
    /\ match declared with
       | Some d => d <= 20 * 1024 * 1024
       | None => True
       end.
Proof.
  apply (handle_video_processes_only_downloads smooth_request sample_update
           fresh_world (Ok tt)).
  by vm_compute.
Defined.

(** ** Settings and buttons *)

Lemma split_on_last sep a b :
  Forall (fun c => c <> sep) b ->
  exists init, init <> [] /\ split_on sep (a ++ sep :: b) = init ++ [b].
Proof.
  intros Hb.
  assert (split_on sep b = [b]) as Hpiece.
  { induction Hb as [|c rest Hc _ IH]; [done|]. cbn [split_on].
    destruct (N.eqb_spec c sep); [done|]. by rewrite IH. }
  induction a as [|c a IH]; cbn [app split_on].
  - rewrite N.eqb_refl, Hpiece. by exists [[]].
  - destruct IH as (init & Hne & ->).
    destruct (N.eqb_spec c sep).
    + by exists ([] :: init).
    + destruct init as [|piece pieces]; [done|].
      by exists ((c :: piece) :: pieces).
Qed.

Lemma last_piece_split sep a b :
  Forall (fun c => c <> sep) b ->
  last_piece (split_on sep (a ++ sep :: b)) = b.
Proof.
  intros Hb. destruct (split_on_last sep a b Hb) as (init & _ & ->).
  unfold last_piece. by rewrite last_last.
Qed.

Lemma scan_digits_all ds prev :
  Forall (fun c => (48 <= c <= 57)%N) ds -> prev <> 95%N ->
  scan_digits ds prev = Some (ds, []).
Proof.
  intros Hds. revert prev. induction Hds as [|c rest Hc _ IH]; intros prev Hp.
  - cbn [scan_digits]. by destruct (N.eqb_spec prev 95).
  - cbn [scan_digits]. unfold ascii_isdigit.
    destruct (N.leb_spec 48 c); [|lia]. destruct (N.leb_spec c 57); [|lia].
    cbn [andb]. rewrite IH by lia. done.
Qed.

Lemma to_ascii_plain py s :
  Forall (fun c => (c < 127)%N) s -> List.map (to_ascii py) s = s.
Proof.
  induction 1 as [|c rest Hc _ IH]; [done|]. cbn [List.map]. rewrite IH.
  unfold to_ascii. by destruct (N.ltb_spec c 127); [|lia].
Qed.

(** [int(str(z)) == z], for numerals short enough to escape the limit on
    digits. *)
Lemma py_int_str_of_int py z :
  (length (str_of_int z) <= 640)%nat -> py_int py (str_of_int z) = Some z.
Proof.
  intros Hlen. unfold py_int.
  rewrite to_ascii_plain
    by (eapply Forall_impl; [apply str_of_int_chars|];
        intros c [->|Hc]; lia).
  rewrite str_of_int_unfold in *.
  destruct (digits_shape (Z.abs z) ltac:(lia)) as (Hne & Hall & Hval).
  destruct (digits (Z.abs z)) as [|d ds] eqn:Hds; [done|].
  assert ((48 <= d <= 57)%N) as Hd by (by inversion Hall).
  assert (ascii_isspace d = false) as Hspace.
  { unfold ascii_isspace. destruct (N.leb_spec 9 d), (N.leb_spec d 13),
      (N.eqb_spec d 32); try done; lia. }
  assert (forall tail,
             (if starts_with [95%N] (d :: ds) then None
              else match scan_digits (d :: ds) 0 with
                   | None => None
                   | Some ([], _) => None
                   | Some (ds', tail') =>
                       if (640 <? length ds')%nat
                          && (0 <? int_max_str_digits py)%nat
                          && (int_max_str_digits py <? length ds')%nat
                       then None
                       else match skip_spaces tail' with
                            | [] => Some (tail
                                          * fold_left
                                              (fun v c =>
                                                 10 * v + (Z.of_N c - 48))
                                              ds' 0)
                            | _ :: _ => None
                            end
                   end) = Some (tail * Z.abs z)) as Hparse.
  { intros sign. cbn [starts_with].
    destruct (N.eqb_spec 95 d); [lia|]. cbn [andb].
    rewrite scan_digits_all by done.
    assert ((640 <? length (d :: ds))%nat = false) as ->.
    { apply Nat.ltb_ge. rewrite length_app in Hlen. lia. }
    cbn [andb skip_spaces]. by rewrite Hval. }
  destruct (Z.ltb_spec z 0) as [Hneg|Hpos]; cbn [app].
  - cbn [skip_spaces]. change (ascii_isspace 45) with false. cbn iota.
    change (45 =? 43)%N with false. change (45 =? 45)%N with true.
    cbn iota. cbn [fst snd]. rewrite Hparse. f_equal. lia.
  - cbn [skip_spaces]. rewrite Hspace.
    destruct (N.eqb_spec d 43); [lia|]. destruct (N.eqb_spec d 45); [lia|].
    cbn [fst snd]. rewrite Hparse. f_equal. lia.
Qed.

Lemma too_old_handler_data d site out :
  data (too_old_handler d site out).2 = data out.2.
Proof.
  unfold too_old_handler. destruct out as [[[text|]|] s]; try done.
  destruct (contains _ text); [|done]. by destruct (call d site).
Qed.

Lemma pass_telegram_error_data out :
  (pass_telegram_error out).2 = out.2.
Proof. by destruct out as [[[text|]|] s]. Qed.

Lemma settings_data d s : data (settings d s).2 = data s.
Proof.
  unfold settings. rewrite too_old_handler_data.
  by destruct (call d 0); [destruct (call d 1)|].
Qed.

Lemma font_size_menu_data d s : data (font_size_menu d s).2 = data s.
Proof.
  unfold font_size_menu. rewrite too_old_handler_data.
  by destruct (call d 3); [destruct (call d 4)|].
Qed.

Lemma font_color_menu_data d s : data (font_color_menu d s).2 = data s.
Proof.
  unfold font_color_menu. rewrite pass_telegram_error_data.
  by destruct (call d 7); [destruct (call d 8)|].
Qed.

Lemma main_menu_data d s : data (main_menu d s).2 = data s.
Proof.
  unfold main_menu. rewrite pass_telegram_error_data.
  by destruct (call d 10); [destruct (call d 11)|].
Qed.

Lemma set_font_size_data d query_data s :
  data (set_font_size d query_data s).2
  = match call d 6, py_int (py d) (last_piece (split_on 95 query_data)) with
    | Returns, Some size => UserData (Some size) (font_color (data s))
    | _, _ => data s
    end.
Proof.
  unfold set_font_size. rewrite pass_telegram_error_data.
  destruct (call d 6); [|done]. destruct (py_int _ _); [|done].
  by rewrite settings_data.
Qed.

Lemma set_font_color_data d query_data s :
  data (set_font_color d query_data s).2
  = match call d 9 with
    | Returns =>
        UserData (font_size (data s))
                 (Some (last_piece (split_on 95 query_data)))
    | Raises _ => data s
    end.
Proof.
  unfold set_font_color. rewrite pass_telegram_error_data.
  destruct (call d 9); [|done]. by rewrite settings_data.
Qed.

Lemma handle_set_size d x s :
  handle_callback_safely d (Some (lit "set_size_" ++ x)) s
  = (set_font_size d (lit "set_size_" ++ x) s).2.
Proof.
  unfold handle_callback_safely.
  repeat (destruct (decide _) as [H|_]; [discriminate H|]). done.
Qed.

Lemma handle_set_color d x s :
  handle_callback_safely d (Some (lit "set_color_" ++ x)) s
  = (set_font_color d (lit "set_color_" ++ x) s).2.
Proof.
  unfold handle_callback_safely.
  repeat (destruct (decide _) as [H|_]; [discriminate H|]). done.
Qed.

Lemma press_size d s z :
  (length (str_of_int z) <= 640)%nat ->
  call d 6 = Returns ->
  data (handle_callback_safely d (Some (lit "set_size_" ++ str_of_int z)) s)
  = UserData (Some z) (font_color (data s)).
Proof.
  intros Hlen Hcall. rewrite handle_set_size, set_font_size_data, Hcall.
  change (lit "set_size_" ++ str_of_int z)
    with (lit "set_size" ++ 95%N :: str_of_int z).
  rewrite last_piece_split by apply str_of_int_no_underscore.
  by rewrite py_int_str_of_int.
Qed.

Lemma press_color d s c :
  Forall (fun x => x <> 95%N) c ->
  call d 9 = Returns ->
  data (handle_callback_safely d (Some (lit "set_color_" ++ c)) s)
  = UserData (font_size (data s)) (Some c).
Proof.
  intros Hc Hcall. rewrite handle_set_color, set_font_color_data, Hcall.
  change (lit "set_color_" ++ c) with (lit "set_color" ++ 95%N :: c).
  by rewrite last_piece_split.
Qed.

(** X25.  A button [set_size_<z>] sets the font size to [z], for every
    integer [z] as [str] writes it: [int] reads back what [str] wrote, the
    other setting is left alone, and it takes no more than the first
    [query.answer()] to go through - also when the menu cannot be shown
    afterwards. *)
Theorem set_size_button_sets_size (d : dialog) (s : session) (z : Z) :
  (length (str_of_int z) <= 640)%nat ->
  call d 6 = Returns ->
  data (handle_callback_safely d (Some (lit "set_size_" ++ str_of_int z)) s)
  = UserData (Some z) (font_color (data s)).
Proof. apply press_size. Qed.

Lemma set_size_button_sets_size_witness :
  data (handle_callback_safely smooth_dialog (Some (lit "set_size_18"))
          new_session)
  = UserData (Some 18) None.
Proof.
  apply (set_size_button_sets_size smooth_dialog new_session 18).
  - vm_compute. lia.
  - reflexivity.
Defined.

(** X26.  A button [set_color_<c>] sets the colour to [c] when [c] holds
    no underscore, and leaves the font size alone. *)
Theorem set_color_button_sets_color (d : dialog) (s : session) (c : pystr) :
  Forall (fun x => x <> 95%N) c ->
  call d 9 = Returns ->
  data (handle_callback_safely d (Some (lit "set_color_" ++ c)) s)
  = UserData (font_size (data s)) (Some c).
Proof. apply press_color. Qed.

Lemma set_color_button_sets_color_witness :
  data (handle_callback_safely smooth_dialog (Some (lit "set_color_tomato"))
          new_session)
  = UserData None (Some (lit "tomato")).
Proof.
  apply (set_color_button_sets_color smooth_dialog new_session (lit "tomato")).
  - repeat constructor; done.
  - reflexivity.
Defined.

(** X27.  [handle_callback_safely] changes the settings only for the
    buttons that set them: if the settings differ after a button press,
    the data of the button started with [set_size_], [query.answer()] went
    through and only the font size changed, or it started with
    [set_color_], [query.answer()] went through and only the colour
    changed.  No menu, no unknown button and no failure of the chat
    touches them. *)
Theorem handle_callback_safely_settings (d : dialog)
    (query_data : option pystr) (s : session) :
  data (handle_callback_safely d query_data s) <> data s ->
  exists callback_data,
    query_data = Some callback_data
    /\ ((starts_with (lit "set_size_") callback_data = true
         /\ call d 6 = Returns
         /\ font_color (data (handle_callback_safely d query_data s))
            = font_color (data s))
        \/ (starts_with (lit "set_color_") callback_data = true
            /\ call d 9 = Returns
            /\ font_size (data (handle_callback_safely d query_data s))
               = font_size (data s))).
Proof.
  destruct query_data as [callback_data|]; [|done]. intros Hchanged.
  exists callback_data. split; [done|]. revert Hchanged.
  unfold handle_callback_safely.
  repeat (destruct (decide _) as [_|_];
          [rewrite ?settings_data, ?font_size_menu_data,
             ?font_color_menu_data, ?main_menu_data; done|]).
  destruct (starts_with (lit "set_size_") callback_data).
  { rewrite set_font_size_data. destruct (call d 6); [|done].
    destruct (py_int _ _); [|done]. intros _. left. by repeat split. }
  destruct (starts_with (lit "set_color_") callback_data); [|done].
  rewrite set_font_color_data. destruct (call d 9); [|done].
  intros _. right. by repeat split.
Qed.

Lemma handle_callback_safely_settings_witness :
  exists callback_data,
    Some (lit "set_size_18") = Some callback_data
    /\ ((starts_with (lit "set_size_") callback_data = true
         /\ call smooth_dialog 6 = Returns
         /\ font_color (data (handle_callback_safely smooth_dialog
                                (Some (lit "set_size_18")) new_session))
            = font_color (data new_session))
        \/ (starts_with (lit "set_color_") callback_data = true
            /\ call smooth_dialog 9 = Returns
            /\ font_size (data (handle_callback_safely smooth_dialog
                                  (Some (lit "set_size_18")) new_session))
               = font_size (data new_session))).
Proof.
  apply (handle_callback_safely_settings smooth_dialog
           (Some (lit "set_size_18")) new_session).
  vm_compute. discriminate.
Defined.

(** X28.  Every button of the font size menu does what its label says:
    apart from the button that goes back, each carries one of the sizes 4
    to 24, shows it - in brackets when it is the current size - and, when
    pressed, makes it the font size. *)
Theorem font_size_menu_buttons_work (d : dialog) (s : session) (current : Z)
    (b : button) :
  In b (concat (font_size_keyboard current)) ->
  call d 6 = Returns ->
  callback_data b = lit "settings"
  \/ exists size,
       In size sizes
       /\ label b = (if size =? current
                     then lit "[" ++ str_of_int size ++ lit "]"
                     else str_of_int size)
       /\ data (handle_callback_safely d (Some (callback_data b)) s)
          = UserData (Some size) (font_color (data s)).
Proof.
  intros Hb Hcall. unfold font_size_keyboard in Hb.
  change (seq 0 ((length sizes + 3) / 4)) with [0; 1; 2]%nat in Hb.
  cbn [List.map sizes firstn skipn Nat.mul Nat.add concat app] in Hb.
  cbn [In] in Hb.
  repeat (destruct Hb as [<-|Hb];
          [right; eexists; split;
           [|split; [reflexivity
                    |apply press_size; [vm_compute; lia|exact Hcall]]];
           cbn; tauto|]).
  destruct Hb as [<-|[]]. by left.
Qed.

Lemma font_size_menu_buttons_work_witness :
  callback_data (Button (lit "[18]") (lit "set_size_18")) = lit "settings"
  \/ exists size,
       In size sizes
       /\ label (Button (lit "[18]") (lit "set_size_18"))
          = (if size =? 18
             then lit "[" ++ str_of_int size ++ lit "]"
             else str_of_int size)
       /\ data (handle_callback_safely smooth_dialog
                  (Some (callback_data (Button (lit "[18]")
                                               (lit "set_size_18"))))
                  new_session)
          = UserData (Some size) (font_color (data new_session)).
Proof.
  apply (font_size_menu_buttons_work smooth_dialog new_session 18).
  - vm_compute. tauto.
  - reflexivity.
Defined.

(** X29.  Every button of the colour menu, apart from the one that goes
    back, sets a colour that [COLOR_CODES] knows: pressed, it stores its
    colour, and the burn-in then uses the code of that colour and not the
    fallback for unknown ones. *)
Theorem font_color_menu_buttons_work (d : dialog) (s : session)
    (current : pystr) (b : button) :
  In b (concat (font_color_keyboard current)) ->
  call d 9 = Returns ->
  callback_data b = lit "settings"
  \/ exists name color code,
       In (name, color) color_options
       /\ In (color, code) COLOR_CODES
       /\ label b = (if decide (color = current)
                     then lit "[" ++ name ++ lit "]" else name)
       /\ data (handle_callback_safely d (Some (callback_data b)) s)
          = UserData (font_size (data s)) (Some color).
Proof.
  intros Hb Hcall. unfold font_color_keyboard in Hb.
  cbn [List.map color_options concat app fst snd In] in Hb.
  repeat match type of Hb with
         | Button (if decide (?c = _) then _ else ?n) _ = _ \/ _ =>
             destruct Hb as [<-|Hb];
             [right; exists n, c; eexists; split;
              [cbn; tauto
              |split;
               [cbn; eauto 6
               |split; [reflexivity
                       |apply press_color;
                        [repeat constructor; done|exact Hcall]]]]|]
         end.
  destruct Hb as [<-|[]]. by left.
Qed.

Lemma font_color_menu_buttons_work_witness :
  callback_data (Button (lit "[" ++ [1488; 1491; 1493; 1501; 32; 128308]%N
                         ++ lit "]")
                        (lit "set_color_tomato")) = lit "settings"
  \/ exists name color code,
       In (name, color) color_options
       /\ In (color, code) COLOR_CODES
       /\ label (Button (lit "[" ++ [1488; 1491; 1493; 1501; 32; 128308]%N
                         ++ lit "]")
                        (lit "set_color_tomato"))
          = (if decide (color = lit "tomato")
             then lit "[" ++ name ++ lit "]" else name)
       /\ data (handle_callback_safely smooth_dialog
                  (Some (callback_data
                           (Button (lit "[" ++ [1488; 1491; 1493; 1501; 32;
                                                128308]%N ++ lit "]")
                                   (lit "set_color_tomato"))))
                  new_session)
          = UserData (font_size (data new_session)) (Some color).
Proof.
  apply (font_color_menu_buttons_work smooth_dialog new_session (lit "tomato")).
  - vm_compute. tauto.
  - reflexivity.
Defined.


